(** * AutoDOC-MG: relay-coordination genetic algorithm

    A shallow embedding of the steady-state genetic algorithm of
    [scripts/ga_optimization_fast.py] (function
    [genetic_algorithm_optimization]) and of its sibling
    [scripts/optimize_all_scenarios.py] (function [genetic_algorithm]).

    Numbers.  The search is embedded twice.  Modules [GaOptimizationFast]
    and [OptimizeAllScenarios] embed the nested functions and the loop over
    exact rationals [Q], for a scenario whose [IscMin] is finite (every
    relay occurs in some pair); the properties of the fitness, of the
    replacement step and of the run are proved there.  Module [Extended] embeds the whole
    optimisation function and the batch loop body over rationals extended
    with [inf], [-inf] and [nan], so that it also runs on a scenario where
    [IscMin] keeps its initial [float("inf")].  In both, decimal literals
    of the scripts ([0.14], [1e-12], ...) denote the rational they spell;
    rounding and signed zeros are outside the model.  The power [x ** N] is
    not a rational function: it is a parameter [float_pow], about which
    nothing is assumed, and which may raise [OverflowError] like Python's
    float power does.

    Exceptions.  Python exceptions are values of [Py.exn], threaded through
    the error monad [Py.result].

    Randomness.  Every call to the [random] module is replaced by a value
    read from an explicit record of draws.

    Input.  Module [Loader] embeds [get_numeric_field],
    [store_initial_setting] and [group_data_by_scenario] over the values
    that [json.load] builds, with the exceptions of that code in a type of
    their own. *)

From Stdlib Require Import List Bool Arith Lia ZArith QArith Qminmax Qabs Qround Lqa.
From Stdlib Require Import String Ascii Permutation Sorted.
Import ListNotations.
Open Scope Q_scope.

Set Implicit Arguments.

(** ** Python primitives used by the scripts *)

Module Py.

Inductive exn : Type :=
| ZeroDivisionError
| OverflowError
| KeyError
| IndexError.

Inductive result (A : Type) : Type :=
| Ok (a : A)
| Raise (e : exn).

Arguments Ok {A} a.
Arguments Raise {A} e.

Definition bind {A B} (c : result A) (k : A -> result B) : result B :=
  match c with
  | Ok a => k a
  | Raise e => Raise e
  end.

(** [x < y] and [x <= y] on floats. *)
Definition ltb (x y : Q) : bool := negb (Qle_bool y x).
Definition leb (x y : Q) : bool := Qle_bool x y.

(** [x / y]: float division raises on a zero divisor. *)
Definition truediv (x y : Q) : result Q :=
  if Qeq_bool y 0 then Raise ZeroDivisionError else Ok (x / y).

(** [max(a, b)] and [min(a, b)]: the first argument is kept unless the
    second one is strictly better. *)
Definition max2 (a b : Q) : Q := if ltb a b then b else a.
Definition min2 (a b : Q) : Q := if ltb b a then b else a.

(** [l[i]] for a non-negative index. *)
Definition getitem {A} (l : list A) (i : nat) : result A :=
  match nth_error l i with
  | Some a => Ok a
  | None => Raise IndexError
  end.

(** [l[-1]]. *)
Definition getlast {A} (l : list A) : result A :=
  match l with
  | [] => Raise IndexError
  | a :: l' => Ok (last l' a)
  end.

(** [l[i] = v], as a new list. *)
Fixpoint setitem {A} (l : list A) (i : nat) (v : A) : result (list A) :=
  match l, i with
  | [], _ => Raise IndexError
  | _ :: l', O => Ok (v :: l')
  | a :: l', S i' => bind (setitem l' i' v) (fun r => Ok (a :: r))
  end.

(** [l[-1] = v], as a new list. *)
Definition setlast {A} (l : list A) (v : A) : result (list A) :=
  match l with
  | [] => Raise IndexError
  | _ => Ok (removelast l ++ [v])
  end.

End Py.

Import Py.

Notation "x <- c ;; k" := (Py.bind c (fun x => k))
  (at level 61, c at next level, right associativity).

(** ** Module constants (identical in both scripts, except the GA sizes) *)

Definition K : Q := 0.14.
Definition N : Q := 0.02.
Definition CTI : Q := 0.20.
Definition MIN_TDS : Q := 0.05.
Definition MAX_TDS : Q := 0.8.
Definition MIN_PICKUP : Q := 0.05.
Definition MAX_PICKUP_FACTOR : Q := 0.6.
Definition MAX_TIME : Q := 10.0.

(** [GA_Ni], [GA_iterno], [GA_maxGen], [GA_nMut]. *)
Record ga_config : Type := {
  GA_Ni : nat;
  GA_iterno : nat;
  GA_maxGen : nat;
  GA_nMut : nat
}.

(** ga_optimization_fast.py, lines 30-33. *)
Definition fast_config : ga_config :=
  {| GA_Ni := 80; GA_iterno := 1000; GA_maxGen := 1000; GA_nMut := 2 |}.

(** optimize_all_scenarios.py, lines 27-30. *)
Definition full_config : ga_config :=
  {| GA_Ni := 80; GA_iterno := 50000; GA_maxGen := 50000; GA_nMut := 2 |}.

(** The penalty value [MAX_TIME * 10.0] returned by [relay_time]. *)
Definition sentinel : Q := MAX_TIME * 10.0.

(** ** Scenario data *)

Record pair : Type := {
  main_relay : string;
  backup_relay : string;
  Ishc_main : Q;
  Ishc_backup : Q
}.

(** [scenario_data["pairs"]] and [scenario_data["relays"]]. *)
Record scenario_data : Type := {
  data_pairs : list pair;
  data_relays : list string
}.

(** A population row [genes + [fitness]]: [row[:Nv]] is [genes], [row[Nv]]
    is [fit]. *)
Record individual : Type := {
  genes : list Q;
  fit : Q
}.

(** The random draws of one generation, in the order the loop body makes
    them: [random.sample(range(GA_Ni), 2)], [random.randint(1, Nv - 1)],
    then for each child the positions of [random.sample(range(Nv), GA_nMut)]
    each paired with the [random.random()] drawn for it. *)
Record gen_draws : Type := {
  s1 : nat;
  s2 : nat;
  cp : nat;
  mut1 : list (nat * Q);
  mut2 : list (nat * Q)
}.

(** The whole random stream of a run: [init_u i j] is the [random.random()]
    drawn for gene [j] of the [i]-th initial individual, [gen_d g] the draws
    of generation [g]. *)
Record rng : Type := {
  init_u : nat -> nat -> Q;
  gen_d : nat -> gen_draws
}.

(** The variables of the search loop: [X], [X_best], [stall]. *)
Record state : Type := {
  X : list individual;
  X_best : individual;
  stall : nat
}.

(** ** Dictionaries keyed by relay name *)

Section Dict.

Variable V : Type.

(** [d[k] = v]: update in place, or append a new key. *)
Fixpoint dict_set (d : list (string * V)) (k : string) (v : V)
  : list (string * V) :=
  match d with
  | [] => [(k, v)]
  | (k', v') :: d' =>
      if String.eqb k' k then (k', v) :: d' else (k', v') :: dict_set d' k v
  end.

(** [d[k]]. *)
Fixpoint dict_get (d : list (string * V)) (k : string) : result V :=
  match d with
  | [] => Raise KeyError
  | (k', v') :: d' => if String.eqb k' k then Ok v' else dict_get d' k
  end.

End Dict.

(** [X.sort(key=lambda r: r[Nv])]: a stable ascending sort on the fitness
    slot.  The key comparison is Python's [<]. *)
Fixpoint insert_by_fit (r : individual) (l : list individual)
  : list individual :=
  match l with
  | [] => [r]
  | y :: l' => if ltb (fit y) (fit r) then y :: insert_by_fit r l'
               else r :: y :: l'
  end.

Definition sort_by_fit (l : list individual) : list individual :=
  fold_right insert_by_fit [] l.

(** [round(x, 5)]: nearest multiple of [1e-5], ties to even. *)
Definition round_half_even (q : Q) : Z :=
  let f := Qfloor q in
  match Qcompare (q - inject_Z f) (1 # 2) with
  | Lt => f
  | Gt => (f + 1)%Z
  | Eq => if Z.even f then f else (f + 1)%Z
  end.

Definition round5 (q : Q) : Q :=
  inject_Z (round_half_even (q * 100000)) / 100000.

(** [str(r).strip()] is truthy: the name has a non-whitespace character. *)
Definition is_space (c : ascii) : bool :=
  let n := nat_of_ascii c in
  ((9 <=? n) && (n <=? 13) || (28 <=? n) && (n <=? 32))%nat.

Fixpoint nonblank (s : string) : bool :=
  match s with
  | EmptyString => false
  | String c s' => negb (is_space c) || nonblank s'
  end.

(** ** The parts of the algorithm that both scripts share

    The section variables are the names the nested functions [relay_time],
    [fitness] and [mutate] close over. *)

Section Algorithm.

Variable relay_time : Q -> Q -> Q -> result Q.
Variable cfg : ga_config.
Variable pairs : list pair.
Variable relays : list string.
Variable IscMin : list Q.

Definition nR : nat := List.length relays.

(** [idx = {relays[i]: i for i in range(nR)}]. *)
Definition idx : list (string * nat) :=
  fold_left (fun d kv => dict_set d (fst kv) (snd kv))
            (combine relays (seq 0 nR)) [].

(** [xmin], [xmax], [Nv]. *)
Definition xmin : list Q := repeat MIN_TDS nR ++ repeat MIN_PICKUP nR.
Definition xmax : list Q :=
  repeat MAX_TDS nR ++ map (fun i => MAX_PICKUP_FACTOR * i) IscMin.
Definition Nv : nat := (2 * nR)%nat.

(** [xmin[j] + random.random() * (xmax[j] - xmin[j])]. *)
Definition sample_gene (lo hi r : Q) : Q := lo + r * (hi - lo).

(** The operating times [tM], [tB] of one pair (fitness, lines 221-225). *)
Definition pair_times (individual : list Q) (p : pair) : result (Q * Q) :=
  let tds := firstn nR individual in
  let pu := skipn nR individual in
  mi <- dict_get idx (main_relay p) ;;
  bi <- dict_get idx (backup_relay p) ;;
  pum <- getitem pu mi ;;
  tdsm <- getitem tds mi ;;
  tM <- relay_time (Ishc_main p) pum tdsm ;;
  pub <- getitem pu bi ;;
  tdsb <- getitem tds bi ;;
  tB <- relay_time (Ishc_backup p) pub tdsb ;;
  Ok (tM, tB).

(** The two penalty updates of [tmt] (fitness, lines 227-233). *)
Definition add_penalties (tmt tM tB : Q) : Q :=
  let tmt1 := if ltb (tB - tM) CTI then tmt + (CTI - (tB - tM)) else tmt in
  if ltb MAX_TIME tM then tmt1 + (tM - MAX_TIME) else tmt1.

Fixpoint fitness_loop (ps : list pair) (individual : list Q) (tmt : Q)
  : result Q :=
  match ps with
  | [] => Ok tmt
  | p :: ps' =>
      t <- pair_times individual p ;;
      fitness_loop ps' individual (add_penalties tmt (fst t) (snd t))
  end.

(** [fitness(individual)]: the total miscoordination time. *)
Definition fitness (individual : list Q) : result Q :=
  fitness_loop pairs individual 0.0.

(** The genes of the [i]-th initial individual. *)
Definition random_individual (u : nat -> Q) : list Q :=
  map (fun j => sample_gene (nth j xmin 0) (nth j xmax 0) (u j)) (seq 0 Nv).

Fixpoint initial_rows (rnd : rng) (ks : list nat) : result (list individual) :=
  match ks with
  | [] => Ok []
  | i :: is' =>
      let individual := random_individual (init_u rnd i) in
      f <- fitness individual ;;
      rest <- initial_rows rnd is' ;;
      Ok ({| genes := individual; fit := f |} :: rest)
  end.

(** Lines 237-249: initial population, sorted, and the first [X_best]. *)
Definition initial_state (rnd : rng) : result state :=
  X0 <- initial_rows rnd (seq 0 (GA_Ni cfg)) ;;
  let X1 := sort_by_fit X0 in
  best <- getitem X1 0 ;;
  Ok {| X := X1; X_best := best; stall := 0 |}.

(** [mutate(child)]: each drawn position is reset to a fresh sample. *)
Fixpoint mutate (child : list Q) (ms : list (nat * Q)) : result (list Q) :=
  match ms with
  | [] => Ok child
  | (m, r) :: ms' =>
      lo <- getitem xmin m ;;
      hi <- getitem xmax m ;;
      child' <- setitem child m (sample_gene lo hi r) ;;
      mutate child' ms'
  end.

(** Selection, crossover, mutation, evaluation and the choice of the
    better child (lines 252-273); the result is [(child, fchild)]. *)
Definition offspring (pop : list individual) (d : gen_draws)
  : result (list Q * Q) :=
  r1 <- getitem pop (s1 d) ;;
  r2 <- getitem pop (s2 d) ;;
  let P1 := genes r1 in
  let P2 := genes r2 in
  let H1 := firstn (cp d) P1 ++ skipn (cp d) P2 in
  let H2 := firstn (cp d) P2 ++ skipn (cp d) P1 in
  H1' <- mutate H1 (mut1 d) ;;
  H2' <- mutate H2 (mut2 d) ;;
  f1 <- fitness H1' ;;
  f2 <- fitness H2' ;;
  Ok (if ltb f2 f1 then (H2', f2) else (H1', f1)).

(** [all(abs(child[j] - X[k][j]) < 1e-12 for j in range(Nv))]. *)
Definition near (child g : list Q) : bool :=
  forallb (fun j => ltb (Qabs (nth j child 0 - nth j g 0)) 1e-12)
          (seq 0 Nv).

(** [any(... for k in range(GA_Ni))]. *)
Definition duplicate (child : list Q) (pop : list individual) : bool :=
  existsb (fun row => near child (genes row)) (firstn (GA_Ni cfg) pop).

(** The update of [X_best] and [stall] from the sorted population. *)
Definition update_best (pop : list individual) (best : individual)
           (st : nat) : result state :=
  top <- getitem pop 0 ;;
  if ltb (fit top) (fit best)
  then Ok {| X := pop; X_best := top; stall := 0 |}
  else Ok {| X := pop; X_best := best; stall := S st |}.

End Algorithm.

(** ** Arithmetic of the relay curve *)

Section Curve.

(** [x ** y] on floats: a value, or [None] for [OverflowError]. *)
Variable float_pow : Q -> Q -> option Q.

Definition pow (x y : Q) : result Q :=
  match float_pow x y with
  | Some v => Ok v
  | None => Raise OverflowError
  end.

(** [TDS * (K / ((I / PU) ** N - 1.0))]. *)
Definition iec_time (I PU TDS : Q) : result Q :=
  M <- truediv I PU ;;
  p <- pow M N ;;
  q <- truediv K (p - 1.0) ;;
  Ok (TDS * q).

End Curve.

(** ** scripts/ga_optimization_fast.py *)

Module GaOptimizationFast.

Section Script.

Variable float_pow : Q -> Q -> option Q.

(** [relay_time] (lines 204-212). *)
Definition relay_time (I PU TDS : Q) : result Q :=
  if leb I PU then Ok sentinel
  else match iec_time float_pow I PU TDS with
       | Ok t => Ok (min2 (max2 t 0.0) sentinel)
       | Raise ZeroDivisionError => Ok sentinel
       | Raise OverflowError => Ok sentinel
       | Raise e => Raise e
       end.

Variable cfg : ga_config.
Variable pairs : list pair.
Variable relays : list string.
Variable IscMin : list Q.

Definition fitness : list Q -> result Q :=
  fitness relay_time pairs relays.

(** One pass of the evolution loop body (lines 251-291). *)
Definition generation (st : state) (d : gen_draws) : result state :=
  c <- offspring relay_time pairs relays IscMin (X st) d ;;
  let child := fst c in
  let fchild := snd c in
  worst <- getlast (X st) ;;
  X1 <- (if ltb fchild (fit worst)
         then if duplicate cfg relays child (X st)
              then Ok (X st)
              else setlast (X st) {| genes := child; fit := fchild |}
         else Ok (X st)) ;;
  update_best (sort_by_fit X1) (X_best st) (stall st).

(** [for gen in range(gen, gen + fuel)], with the two [break]s; the
    result carries the last value of [gen]. *)
Fixpoint evolve (rnd : rng) (fuel gen : nat) (st : state)
  : result (nat * state) :=
  match fuel with
  | O => Ok (pred gen, st)
  | S fuel' =>
      st' <- generation st (gen_d rnd gen) ;;
      if Qeq_bool (fit (X_best st')) 0.0 then Ok (gen, st')
      else if (GA_iterno cfg <=? stall st')%nat then Ok (gen, st')
      else evolve rnd fuel' (S gen) st'
  end.

(** Initialisation followed by the evolution loop. *)
Definition search (rnd : rng) : result (nat * state) :=
  st0 <- initial_state relay_time cfg pairs relays IscMin rnd ;;
  evolve rnd (GA_maxGen cfg) 1 st0.

End Script.

End GaOptimizationFast.

(** ** scripts/optimize_all_scenarios.py *)

Module OptimizeAllScenarios.

Section Script.

Variable float_pow : Q -> Q -> option Q.

(** [relay_time] (lines 115-119): no exception handler. *)
Definition relay_time (I PU TDS : Q) : result Q :=
  if leb I PU then Ok sentinel
  else t <- iec_time float_pow I PU TDS ;;
       Ok (min2 (max2 t 0.0) sentinel).

Variable cfg : ga_config.
Variable pairs : list pair.
Variable relays : list string.
Variable IscMin : list Q.

Definition fitness : list Q -> result Q :=
  fitness relay_time pairs relays.

(** One pass of the evolution loop body (lines 152-186): the sort and
    the update of [X_best] and [stall] are inside the replacement
    branch. *)
Definition generation (st : state) (d : gen_draws) : result state :=
  c <- offspring relay_time pairs relays IscMin (X st) d ;;
  let child := fst c in
  let fchild := snd c in
  worst <- getlast (X st) ;;
  if ltb fchild (fit worst)
  then if duplicate cfg relays child (X st)
       then Ok st
       else X1 <- setlast (X st) {| genes := child; fit := fchild |} ;;
            update_best (sort_by_fit X1) (X_best st) (stall st)
  else Ok st.

Fixpoint evolve (rnd : rng) (fuel gen : nat) (st : state)
  : result (nat * state) :=
  match fuel with
  | O => Ok (pred gen, st)
  | S fuel' =>
      st' <- generation st (gen_d rnd gen) ;;
      if Qeq_bool (fit (X_best st')) 0.0 then Ok (gen, st')
      else if (GA_iterno cfg <=? stall st')%nat then Ok (gen, st')
      else evolve rnd fuel' (S gen) st'
  end.

Definition search (rnd : rng) : result (nat * state) :=
  st0 <- initial_state relay_time cfg pairs relays IscMin rnd ;;
  evolve rnd (GA_maxGen cfg) 1 st0.

End Script.

End OptimizeAllScenarios.

(** ** Floats extended with infinities and NaN

    [IscMin] starts at [float("inf")] and keeps that value for a relay
    that occurs in no pair; the pickup ceiling and the pickup genes of
    such a relay are then [inf] or [nan].  This module embeds the two
    optimisation functions, from their first line to their [return], and
    the body of the two batch loops, over rationals extended with these
    values.  Signed zeros and rounding stay outside the model. *)

Module Extended.

Inductive xfloat : Type :=
| Fin (q : Q)
| PosInf
| NegInf
| NaN.

Definition xneg (a : xfloat) : xfloat :=
  match a with
  | Fin x => Fin (- x)
  | PosInf => NegInf
  | NegInf => PosInf
  | NaN => NaN
  end.

Definition xadd (a b : xfloat) : xfloat :=
  match a, b with
  | NaN, _ | _, NaN => NaN
  | Fin x, Fin y => Fin (x + y)
  | PosInf, NegInf | NegInf, PosInf => NaN
  | PosInf, _ | _, PosInf => PosInf
  | NegInf, _ | _, NegInf => NegInf
  end.

Definition xsub (a b : xfloat) : xfloat := xadd a (xneg b).

(** The infinity of the sign of [x] times that of [inf], or NaN for
    [0 * inf]. *)
Definition signed_inf (x : Q) (positive : bool) : xfloat :=
  match Qcompare x 0 with
  | Gt => if positive then PosInf else NegInf
  | Lt => if positive then NegInf else PosInf
  | Eq => NaN
  end.

Definition xmul (a b : xfloat) : xfloat :=
  match a, b with
  | NaN, _ | _, NaN => NaN
  | Fin x, Fin y => Fin (x * y)
  | Fin x, PosInf | PosInf, Fin x => signed_inf x true
  | Fin x, NegInf | NegInf, Fin x => signed_inf x false
  | PosInf, PosInf | NegInf, NegInf => PosInf
  | PosInf, NegInf | NegInf, PosInf => NegInf
  end.

(** [a / b]: a zero divisor raises, whatever the dividend. *)
Definition xdiv (a b : xfloat) : result xfloat :=
  match b with
  | Fin y =>
      if Qeq_bool y 0 then Raise ZeroDivisionError
      else match a with
           | Fin x => Ok (Fin (x / y))
           | PosInf => Ok (signed_inf y true)
           | NegInf => Ok (signed_inf y false)
           | NaN => Ok NaN
           end
  | NaN => Ok NaN
  | PosInf | NegInf =>
      match a with
      | Fin _ => Ok (Fin 0)
      | _ => Ok NaN
      end
  end.

Definition xltb (a b : xfloat) : bool :=
  match a, b with
  | NaN, _ | _, NaN => false
  | Fin x, Fin y => Py.ltb x y
  | NegInf, NegInf => false
  | NegInf, _ => true
  | _, NegInf => false
  | PosInf, _ => false
  | Fin _, PosInf => true
  end.

Definition xleb (a b : xfloat) : bool :=
  match a, b with
  | NaN, _ | _, NaN => false
  | Fin x, Fin y => Py.leb x y
  | NegInf, _ => true
  | _, NegInf => false
  | _, PosInf => true
  | PosInf, Fin _ => false
  end.

(** [a == b]. *)
Definition xeqb (a b : xfloat) : bool :=
  match a, b with
  | Fin x, Fin y => Qeq_bool x y
  | PosInf, PosInf | NegInf, NegInf => true
  | _, _ => false
  end.

Definition xabs (a : xfloat) : xfloat :=
  match a with
  | Fin x => Fin (Qabs x)
  | PosInf | NegInf => PosInf
  | NaN => NaN
  end.

Definition xmax2 (a b : xfloat) : xfloat := if xltb a b then b else a.
Definition xmin2 (a b : xfloat) : xfloat := if xltb b a then b else a.

Definition xround5 (a : xfloat) : xfloat :=
  match a with
  | Fin x => Fin (round5 x)
  | _ => a
  end.

(** A population row, and the variables of the search loop. *)
Record individual : Type := {
  genes : list xfloat;
  fit : xfloat
}.

Record state : Type := {
  X : list individual;
  X_best : individual;
  stall : nat
}.

(** What the optimisation function did: it returned [{}] at the guard on
    [nR], or it initialised a population, ran the loop up to generation
    [gen] and returned [optimized]. *)
Inductive ga_return : Type :=
| NoValidRelays
| Finished (gen : nat) (final : state)
           (optimized : list (string * (xfloat * xfloat))).

(** The dictionary the function returns. *)
Definition returned (r : ga_return) : list (string * (xfloat * xfloat)) :=
  match r with
  | NoValidRelays => []
  | Finished _ _ optimized => optimized
  end.

(** The population was initialised and the loop entered. *)
Definition searched (r : ga_return) : bool :=
  match r with
  | NoValidRelays => false
  | Finished _ _ _ => true
  end.

(** How the batch loop files one scenario. *)
Inductive scenario_status : Type :=
| Skipped
| Success (relay_values : list (string * (xfloat * xfloat)))
| Failed
| Error (e : exn).

(** The two scripts. *)
Inductive script : Type :=
| Fast    (* ga_optimization_fast.py *)
| Full.   (* optimize_all_scenarios.py *)

Definition config_of (s : script) : ga_config :=
  match s with
  | Fast => fast_config
  | Full => full_config
  end.

Fixpoint insert_by_fit (r : individual) (l : list individual)
  : list individual :=
  match l with
  | [] => [r]
  | y :: l' => if xltb (fit y) (fit r) then y :: insert_by_fit r l'
               else r :: y :: l'
  end.

Definition sort_by_fit (l : list individual) : list individual :=
  fold_right insert_by_fit [] l.

Section Function.

Variable float_pow : Q -> Q -> option Q.
Variable which : script.
Variable pairs : list pair.
Variable relays : list string.

(** [x ** N] for the positive exponent [N]. *)
Definition xpow (a : xfloat) : result xfloat :=
  match a with
  | Fin x => match float_pow x N with
             | Some v => Ok (Fin v)
             | None => Raise OverflowError
             end
  | PosInf | NegInf => Ok PosInf
  | NaN => Ok NaN
  end.

Definition iec_time (I PU TDS : xfloat) : result xfloat :=
  M <- xdiv I PU ;;
  p <- xpow M ;;
  q <- xdiv (Fin K) (xsub p (Fin 1.0)) ;;
  Ok (xmul TDS q).

(** [relay_time]: only the fast script has the handler. *)
Definition relay_time (I PU TDS : xfloat) : result xfloat :=
  if xleb I PU then Ok (Fin sentinel)
  else match iec_time I PU TDS, which with
       | Ok t, _ => Ok (xmin2 (xmax2 t (Fin 0.0)) (Fin sentinel))
       | Raise ZeroDivisionError, Fast => Ok (Fin sentinel)
       | Raise OverflowError, Fast => Ok (Fin sentinel)
       | Raise e, _ => Raise e
       end.

(** The loop that fills [IscMin], from [[float("inf")] * nR]. *)
Fixpoint isc_loop (ps : list pair) (isc : list xfloat)
  : result (list xfloat) :=
  match ps with
  | [] => Ok isc
  | p :: ps' =>
      mi <- dict_get (idx relays) (main_relay p) ;;
      bi <- dict_get (idx relays) (backup_relay p) ;;
      a <- getitem isc mi ;;
      isc1 <- setitem isc mi (xmin2 a (Fin (Ishc_main p))) ;;
      b <- getitem isc1 bi ;;
      isc2 <- setitem isc1 bi (xmin2 b (Fin (Ishc_backup p))) ;;
      isc_loop ps' isc2
  end.

Variable IscMin : list xfloat.

Definition xmin : list xfloat :=
  repeat (Fin MIN_TDS) (nR relays) ++ repeat (Fin MIN_PICKUP) (nR relays).
Definition xmax : list xfloat :=
  repeat (Fin MAX_TDS) (nR relays)
  ++ map (fun i => xmul (Fin MAX_PICKUP_FACTOR) i) IscMin.

Definition sample_gene (lo hi : xfloat) (r : Q) : xfloat :=
  xadd lo (xmul (Fin r) (xsub hi lo)).

Definition add_penalties (tmt tM tB : xfloat) : xfloat :=
  let tmt1 := if xltb (xsub tB tM) (Fin CTI)
              then xadd tmt (xsub (Fin CTI) (xsub tB tM)) else tmt in
  if xltb (Fin MAX_TIME) tM then xadd tmt1 (xsub tM (Fin MAX_TIME))
  else tmt1.

Fixpoint fitness_loop (ps : list pair) (individual : list xfloat)
         (tmt : xfloat) : result xfloat :=
  match ps with
  | [] => Ok tmt
  | p :: ps' =>
      let tds := firstn (nR relays) individual in
      let pu := skipn (nR relays) individual in
      mi <- dict_get (idx relays) (main_relay p) ;;
      bi <- dict_get (idx relays) (backup_relay p) ;;
      pum <- getitem pu mi ;;
      tdsm <- getitem tds mi ;;
      tM <- relay_time (Fin (Ishc_main p)) pum tdsm ;;
      pub <- getitem pu bi ;;
      tdsb <- getitem tds bi ;;
      tB <- relay_time (Fin (Ishc_backup p)) pub tdsb ;;
      fitness_loop ps' individual (add_penalties tmt tM tB)
  end.

Definition fitness (individual : list xfloat) : result xfloat :=
  fitness_loop pairs individual (Fin 0.0).

Definition random_individual (u : nat -> Q) : list xfloat :=
  map (fun j => sample_gene (nth j xmin NaN) (nth j xmax NaN) (u j))
      (seq 0 (Nv relays)).

Fixpoint initial_rows (rnd : rng) (ks : list nat)
  : result (list individual) :=
  match ks with
  | [] => Ok []
  | i :: ks' =>
      let g := random_individual (init_u rnd i) in
      f <- fitness g ;;
      rest <- initial_rows rnd ks' ;;
      Ok ({| genes := g; fit := f |} :: rest)
  end.

Definition initial_state (rnd : rng) : result state :=
  X0 <- initial_rows rnd (seq 0 (GA_Ni (config_of which))) ;;
  let X1 := sort_by_fit X0 in
  best <- getitem X1 0 ;;
  Ok {| X := X1; X_best := best; stall := 0 |}.

Fixpoint mutate (child : list xfloat) (ms : list (nat * Q))
  : result (list xfloat) :=
  match ms with
  | [] => Ok child
  | (m, r) :: ms' =>
      lo <- getitem xmin m ;;
      hi <- getitem xmax m ;;
      child' <- setitem child m (sample_gene lo hi r) ;;
      mutate child' ms'
  end.

Definition offspring (pop : list individual) (d : gen_draws)
  : result (list xfloat * xfloat) :=
  r1 <- getitem pop (s1 d) ;;
  r2 <- getitem pop (s2 d) ;;
  let P1 := genes r1 in
  let P2 := genes r2 in
  let H1 := firstn (cp d) P1 ++ skipn (cp d) P2 in
  let H2 := firstn (cp d) P2 ++ skipn (cp d) P1 in
  H1' <- mutate H1 (mut1 d) ;;
  H2' <- mutate H2 (mut2 d) ;;
  f1 <- fitness H1' ;;
  f2 <- fitness H2' ;;
  Ok (if xltb f2 f1 then (H2', f2) else (H1', f1)).

Definition near (child g : list xfloat) : bool :=
  forallb (fun j => xltb (xabs (xsub (nth j child NaN) (nth j g NaN)))
                         (Fin 1e-12))
          (seq 0 (Nv relays)).

Definition duplicate (child : list xfloat) (pop : list individual) : bool :=
  existsb (fun row => near child (genes row))
          (firstn (GA_Ni (config_of which)) pop).

Definition update_best (pop : list individual) (best : individual)
           (st : nat) : result state :=
  top <- getitem pop 0 ;;
  if xltb (fit top) (fit best)
  then Ok {| X := pop; X_best := top; stall := 0 |}
  else Ok {| X := pop; X_best := best; stall := S st |}.

(** The loop body: the fast script sorts and updates [X_best] and [stall]
    in every generation, the other one only after a replacement. *)
Definition generation (st : state) (d : gen_draws) : result state :=
  c <- offspring (X st) d ;;
  let child := fst c in
  let fchild := snd c in
  worst <- getlast (X st) ;;
  match which with
  | Fast =>
      X1 <- (if xltb fchild (fit worst)
             then if duplicate child (X st)
                  then Ok (X st)
                  else setlast (X st) {| genes := child; fit := fchild |}
             else Ok (X st)) ;;
      update_best (sort_by_fit X1) (X_best st) (stall st)
  | Full =>
      if xltb fchild (fit worst)
      then if duplicate child (X st)
           then Ok st
           else X1 <- setlast (X st) {| genes := child; fit := fchild |} ;;
                update_best (sort_by_fit X1) (X_best st) (stall st)
      else Ok st
  end.

Fixpoint evolve (rnd : rng) (fuel gen : nat) (st : state)
  : result (nat * state) :=
  match fuel with
  | O => Ok (pred gen, st)
  | S fuel' =>
      st' <- generation st (gen_d rnd gen) ;;
      if xeqb (fit (X_best st')) (Fin 0.0) then Ok (gen, st')
      else if (GA_iterno (config_of which) <=? stall st')%nat
           then Ok (gen, st')
           else evolve rnd fuel' (S gen) st'
  end.

Fixpoint extract (best : list xfloat) (rs : list nat)
         (acc : list (string * (xfloat * xfloat)))
  : result (list (string * (xfloat * xfloat))) :=
  match rs with
  | [] => Ok acc
  | r :: rs' =>
      name <- getitem relays r ;;
      t <- getitem (firstn (nR relays) best) r ;;
      p <- getitem (skipn (nR relays) best) r ;;
      extract best rs' (dict_set acc name (xround5 t, xround5 p))
  end.

End Function.

(** [genetic_algorithm_optimization(scenario_id, scenario_data)] of the
    fast script, [genetic_algorithm(scenarioID, scenarioData)] of the
    other. *)
Definition genetic_algorithm (float_pow : Q -> Q -> option Q)
           (which : script) (scenario : scenario_data) (rnd : rng)
  : result ga_return :=
  let pairs := data_pairs scenario in
  let relays := filter nonblank (data_relays scenario) in
  if (nR relays =? 0)%nat then Ok NoValidRelays
  else
    IscMin <- isc_loop relays pairs (repeat PosInf (nR relays)) ;;
    st0 <- initial_state float_pow which pairs relays IscMin rnd ;;
    fin <- evolve float_pow which pairs relays IscMin rnd
                  (GA_maxGen (config_of which)) 1 st0 ;;
    optimized <- extract relays (genes (X_best (snd fin)))
                         (seq 0 (nR relays)) [] ;;
    Ok (Finished (fst fin) (snd fin) optimized).

(** [validate_scenario_data] of the fast script: the validity flag. *)
Definition validate_scenario_data (scenario : scenario_data) : bool :=
  match data_pairs scenario, data_relays scenario with
  | [], _ => false
  | _, [] => false
  | ps, rs => negb (List.length ps <? 5)%nat && negb (List.length rs <? 3)%nat
  end.

(** The test that lets a scenario through to the optimisation function:
    [validate_scenario_data] in the fast script,
    [if not scenario_data["pairs"]] in the other. *)
Definition admitted (which : script) (scenario : scenario_data) : bool :=
  match which with
  | Fast => validate_scenario_data scenario
  | Full => match data_pairs scenario with
            | [] => false
            | _ => true
            end
  end.

(** The body of the loop over scenarios in [optimize_all_scenarios]. *)
Definition optimize_scenario (float_pow : Q -> Q -> option Q)
           (which : script) (scenario : scenario_data) (rnd : rng)
  : scenario_status :=
  if negb (admitted which scenario) then Skipped
  else match genetic_algorithm float_pow which scenario rnd with
       | Ok r => match returned r with
                 | [] => Failed
                 | relay_values => Success relay_values
                 end
       | Raise e => Error e
       end.

End Extended.

(** ** Predicates used to state the properties *)

(** A pair is coordinated by an individual: both operating times are
    computed, the backup trips at least [CTI] after the main relay, and
    the main relay trips within [MAX_TIME]. *)
Definition coordinated (relay_time : Q -> Q -> Q -> result Q)
           (relays : list string) (individual : list Q) (p : pair) : Prop :=
  exists tM tB,
    pair_times relay_time relays individual p = Ok (tM, tB)
    /\ CTI <= tB - tM /\ tM <= MAX_TIME.

(** The pairs only name relays of the scenario. *)
Definition pairs_known (pairs : list pair) (relays : list string) : Prop :=
  forall p, In p pairs ->
            In (main_relay p) relays /\ In (backup_relay p) relays.

(** The main relay of a pair does not see its fault: the fault current is
    at most the pickup gene of that relay. *)
Definition blind_main (relays : list string) (individual : list Q)
           (p : pair) : Prop :=
  exists mi pum,
    dict_get (idx relays) (main_relay p) = Ok mi
    /\ getitem (skipn (nR relays) individual) mi = Ok pum
    /\ Ishc_main p <= pum.

(** The population is in ascending order of fitness. *)
Definition fit_le (a b : individual) : Prop := fit a <= fit b.

Definition sorted (pop : list individual) : Prop := Sorted fit_le pop.

(** The population has [GA_Ni] rows of [Nv] genes. *)
Definition population_ok (cfg : ga_config) (relays : list string)
           (pop : list individual) : Prop :=
  List.length pop = GA_Ni cfg
  /\ Forall (fun r => List.length (genes r) = Nv relays) pop.

(** What [random.sample(range(Nv), GA_nMut)] and [random.random()]
    guarantee about the mutation draws of one child. *)
Definition muts_ok (cfg : ga_config) (relays : list string)
           (ms : list (nat * Q)) : Prop :=
  List.length ms = GA_nMut cfg
  /\ NoDup (map fst ms)
  /\ Forall (fun mr => (fst mr < Nv relays)%nat
                       /\ 0 <= snd mr /\ snd mr < 1) ms.

(** What the [random] module guarantees about the draws of a generation. *)
Definition draws_ok (cfg : ga_config) (relays : list string)
           (d : gen_draws) : Prop :=
  (s1 d < GA_Ni cfg)%nat /\ (s2 d < GA_Ni cfg)%nat /\ s1 d <> s2 d
  /\ (1 <= cp d)%nat /\ (cp d <= Nv relays - 1)%nat
  /\ muts_ok cfg relays (mut1 d) /\ muts_ok cfg relays (mut2 d).

(** The setting in which a generation runs: the closure variables as the
    function builds them, a full population, and admissible draws. *)
Definition step_ok (cfg : ga_config) (pairs : list pair)
           (relays : list string) (IscMin : list Q)
           (st : state) (d : gen_draws) : Prop :=
  pairs_known pairs relays
  /\ List.length IscMin = nR relays
  /\ population_ok cfg relays (X st)
  /\ draws_ok cfg relays d.

(** Gene [j] of an individual lies in [[xmin[j], xmax[j]]], for every [j]
    below [Nv]. *)
Definition in_bounds (relays : list string) (IscMin : list Q)
           (g : list Q) : Prop :=
  forall j, (j < Nv relays)%nat ->
            nth j (xmin relays) 0 <= nth j g 0
            /\ nth j g 0 <= nth j (xmax relays IscMin) 0.

Definition pop_in_bounds (relays : list string) (IscMin : list Q)
           (pop : list individual) : Prop :=
  Forall (fun r => in_bounds relays IscMin (genes r)) pop.

(** Every pickup interval is non-empty:
    [MIN_PICKUP <= MAX_PICKUP_FACTOR * IscMin[i]]. *)
Definition bounds_valid (IscMin : list Q) : Prop :=
  Forall (fun i => MIN_PICKUP <= MAX_PICKUP_FACTOR * i) IscMin.

(** No two rows at distinct positions have all their genes within
    [1e-12] of each other. *)
Definition no_near_duplicates (relays : list string)
           (pop : list individual) : Prop :=
  forall i k ri rk,
    i <> k -> nth_error pop i = Some ri -> nth_error pop k = Some rk ->
    near relays (genes ri) (genes rk) = false.

(** What [random.random()] guarantees about the draws of a run. *)
Definition rng_ok (cfg : ga_config) (relays : list string)
           (rnd : rng) : Prop :=
  (forall i j, 0 <= init_u rnd i j /\ init_u rnd i j < 1)
  /\ (forall g, draws_ok cfg relays (gen_d rnd g)).

(** A decision procedure for [no_near_duplicates]. *)
Fixpoint all_far (relays : list string) (pop : list individual) : bool :=
  match pop with
  | [] => true
  | r :: l =>
      forallb (fun y => negb (near relays (genes r) (genes y))) l
      && all_far relays l
  end.

(** ** Example data, used to instantiate the properties *)

Module Example.

(** A first-order stand-in for [x ** y]. *)
Definition linear_pow (x y : Q) : option Q := Some (1 + y * (x - 1)).

Definition relays : list string := ["R1"; "R2"]%string.

Definition pairs : list pair :=
  [ {| main_relay := "R1"; backup_relay := "R2";
       Ishc_main := 1000; Ishc_backup := 1000 |} ].

Definition IscMin : list Q := [1000; 1000].

(** [TDS = [0.05, 0.8]], [pickup = [100, 100]]. *)
Definition good_individual : list Q := [0.05; 0.8; 100; 100].

(** The pickup of R1 is above its fault current. *)
Definition blind_individual : list Q := [0.05; 0.8; 1200; 100].

(** A stream of draws that are all [0.0], with parents [0] and [1], cut
    point [1] and mutation positions [0] and [1]. *)
Definition zero_draws : gen_draws :=
  {| s1 := 0; s2 := 1; cp := 1;
     mut1 := [(0%nat, 0); (1%nat, 0)]; mut2 := [(0%nat, 0); (1%nat, 0)] |}.

Definition zero_rng : rng :=
  {| init_u := fun _ _ => 0; gen_d := fun _ => zero_draws |}.

(** The row that every initial individual becomes under [zero_rng]: all
    genes at their lower bound [0.05], fitness [0.2]. *)
Definition flat_row : individual :=
  Eval vm_compute in
    match initial_state (GaOptimizationFast.relay_time linear_pow)
                        fast_config pairs relays IscMin zero_rng with
    | Ok st => X_best st
    | Raise _ => {| genes := []; fit := 0 |}
    end.

Definition flat_state (n : nat) : state :=
  {| X := repeat flat_row 80; X_best := flat_row; stall := n |}.

(** A stream of varied draws. *)
Definition unit_draw (n : nat) : Q := Z.of_nat (n mod 97) # 97.

Definition varied_rng : rng :=
  {| init_u := fun i j => unit_draw (31 * i + 7 * j + 3);
     gen_d := fun g =>
       {| s1 := (7 * g) mod 80;
          s2 := (7 * g + 1) mod 80;
          cp := 1 + g mod 3;
          mut1 := [(g mod 4, unit_draw (5 * g + 1));
                   ((g + 1) mod 4, unit_draw (11 * g + 2))];
          mut2 := [((g + 2) mod 4, unit_draw (13 * g + 5));
                   ((g + 3) mod 4, unit_draw (17 * g + 7))] |} |}.

(** A stream whose [i]-th initial individual sits at the fraction
    [i / 97] of every interval. *)
Definition spread_rng : rng :=
  {| init_u := fun i _ => Z.of_nat (i mod 97) # 97;
     gen_d := fun _ => zero_draws |}.

(** The initial state of the fast script under [spread_rng]. *)
Definition spread_state : state :=
  Eval vm_compute in
    match initial_state (GaOptimizationFast.relay_time linear_pow)
                        fast_config pairs relays IscMin spread_rng with
    | Ok st => st
    | Raise _ => flat_state 0
    end.

(** A scenario with one relay and no pair. *)
Definition pairless_scenario : scenario_data :=
  {| data_pairs := []; data_relays := ["A"]%string |}.

(** A scenario whose only relay name is blank. *)
Definition blank_scenario : scenario_data :=
  {| data_pairs := pairs; data_relays := [" "]%string |}.

(** A scenario whose only fault current is [0.05]: the derived pickup
    ceiling [0.6 * 0.05 = 0.03] is below [MIN_PICKUP]. *)
Definition low_pairs : list pair :=
  [ {| main_relay := "R1"; backup_relay := "R2";
       Ishc_main := 0.05; Ishc_backup := 0.05 |} ].

Definition low_IscMin : list Q := [0.05; 0.05].

(** A stream whose initial draws are all [0.5]. *)
Definition half_rng : rng :=
  {| init_u := fun _ _ => 0.5; gen_d := fun _ => zero_draws |}.

End Example.

(** Every row carries the fitness of its own genes. *)
Definition rows_consistent (relay_time : Q -> Q -> Q -> result Q)
           (pairs : list pair) (relays : list string)
           (pop : list individual) : Prop :=
  Forall (fun r => fitness relay_time pairs relays (genes r) = Ok (fit r))
         pop.

(** The sizes of the scripts with a run of three generations, for
    examples. *)
Definition short_config : ga_config :=
  {| GA_Ni := 80; GA_iterno := 3; GA_maxGen := 3; GA_nMut := 2 |}.

(** ** Predicates on the fault currents *)

(** The pair [p] puts the fault current [c] on relay number [i]: as its
    main relay with [Ishc_main], or as its backup with [Ishc_backup]. *)
Definition current_at (relays : list string) (p : pair) (i : nat) (c : Q)
  : Prop :=
  (dict_get (idx relays) (main_relay p) = Ok i /\ c = Ishc_main p)
  \/ (dict_get (idx relays) (backup_relay p) = Ok i /\ c = Ishc_backup p).

(** Every fault current is positive. *)
Definition currents_positive (pairs : list pair) : Prop :=
  forall p, In p pairs -> 0 < Ishc_main p /\ 0 < Ishc_backup p.

(** Some pair names a relay that is not in the list. *)
Definition names_unknown_relay (pairs : list pair) (relays : list string)
  : Prop :=
  Exists (fun p => ~ In (main_relay p) relays
                   \/ ~ In (backup_relay p) relays) pairs.

(** A float that is a number or [inf]. *)
Definition numeric (a : Extended.xfloat) : Prop :=
  a = Extended.PosInf \/ exists q, a = Extended.Fin q.

(** [a] is the least of [a0] and the currents in [S]. *)
Definition least_of (a0 : Extended.xfloat) (S : Q -> Prop)
           (a : Extended.xfloat) : Prop :=
  (a = a0 \/ exists c, S c /\ a = Extended.Fin c)
  /\ Extended.xleb a a0 = true
  /\ forall c, S c -> Extended.xleb a (Extended.Fin c) = true.

(** A scenario whose only pair names a relay, B, that the relay list
    lacks. *)
Definition stray_scenario : scenario_data :=
  {| data_pairs := [ {| main_relay := "A"; backup_relay := "B";
                        Ishc_main := 1000; Ishc_backup := 1000 |} ];
     data_relays := ["A"]%string |}.

(** ** Loading the input: [get_numeric_field], [store_initial_setting]
    and [group_data_by_scenario]

    The functions that turn the list read by [json.load] into the
    scenarios handed to the optimisation function.  Strings are strings
    of ASCII characters, as for [nonblank].  [str] of a number or of a
    container, [float] of an integer and [float] of a string are
    parameters.  The fault labels that the fast script also collects are
    left out, except for the test that a label can enter a set. *)

Module Loader.

#[local] Unset Elimination Schemes.

(** A value as [json.load] returns it.  A dictionary is the list of its
    items; a look-up takes the first item with the key. *)
Inductive json : Type :=
| JNull
| JBool (b : bool)
| JInt (z : Z)
| JFloat (x : Extended.xfloat)
| JStr (s : string)
| JList (l : list json)
| JDict (d : list (string * json)).

#[local] Set Elimination Schemes.

(** The exceptions this code can raise. *)
Inductive exn : Type :=
| AttributeError
| TypeError
| OverflowError.

Inductive outcome (A : Type) : Type :=
| Done (a : A)
| Fails (e : exn).

Arguments Done {A} a.
Arguments Fails {A} e.

Definition bind {A B} (c : outcome A) (k : A -> outcome B) : outcome B :=
  match c with
  | Done a => k a
  | Fails e => Fails e
  end.

Notation "x <~ c ;; k" := (bind c (fun x => k))
  (at level 61, c at next level, right associativity).

(** [bool(v)]: [nan] and the infinities are true. *)
Definition truthy (v : json) : bool :=
  match v with
  | JNull => false
  | JBool b => b
  | JInt z => negb (z =? 0)%Z
  | JFloat x => negb (Extended.xeqb x (Extended.Fin 0))
  | JStr s => negb (s =? "")%string
  | JList l => match l with [] => false | _ => true end
  | JDict d => match d with [] => false | _ => true end
  end.

(** [k in d] and [d[k]] on the items of a dictionary. *)
Fixpoint lookup (d : list (string * json)) (k : string) : option json :=
  match d with
  | [] => None
  | (k', v) :: d' => if (k' =? k)%string then Some v else lookup d' k
  end.

(** [d.get(k, default)]. *)
Definition getd (d : list (string * json)) (k : string) (default : json)
  : json :=
  match lookup d k with
  | Some v => v
  | None => default
  end.

(** The receiver of a [.get]: anything but a dictionary has no such
    method. *)
Definition as_dict (v : json) : outcome (list (string * json)) :=
  match v with
  | JDict d => Done d
  | _ => Fails AttributeError
  end.

(** [s.strip()]. *)
Fixpoint lstrip (s : string) : string :=
  match s with
  | EmptyString => EmptyString
  | String c s' => if is_space c then lstrip s' else s
  end.

Fixpoint rstrip (s : string) : string :=
  match s with
  | EmptyString => EmptyString
  | String c s' =>
      match rstrip s' with
      | EmptyString => if is_space c then EmptyString
                       else String c EmptyString
      | r => String c r
      end
  end.

Definition strip (s : string) : string := rstrip (lstrip s).

(** [not s] for a string. *)
Definition is_empty (s : string) : bool := (s =? "")%string.

(** A value can be a dictionary key or a set element. *)
Definition hashable (v : json) : bool :=
  match v with
  | JList _ | JDict _ => false
  | _ => true
  end.

(** Equality of dictionary keys: strings among themselves; [True], [1]
    and [1.0] are one key; [json.load] builds one object for every [NaN]
    of its input, and an object is the same key as itself. *)
Definition number_of (v : json) : option Extended.xfloat :=
  match v with
  | JBool b => Some (Extended.Fin (if b then 1 else 0))
  | JInt z => Some (Extended.Fin (inject_Z z))
  | JFloat x => Some x
  | _ => None
  end.

Definition key_eqb (a b : json) : bool :=
  match a, b with
  | JStr s, JStr t => (s =? t)%string
  | JNull, JNull => true
  | _, _ => match number_of a, number_of b with
            | Some Extended.NaN, Some Extended.NaN => true
            | Some x, Some y => Extended.xeqb x y
            | _, _ => false
            end
  end.

(** An entry of [scenario_map[sid]["pairs"]]. *)
Record pair : Type := {
  main_relay : string;
  backup_relay : string;
  Ishc_main : Extended.xfloat;
  Ishc_backup : Extended.xfloat
}.

(** A value of [scenario_map]: ["pairs"], ["relays"] and
    ["initial_settings"], the latter from a relay name to
    [(TDS_initial, pickup_initial)]. *)
Record scenario : Type := {
  pairs : list pair;
  relays : list string;
  initial_settings :
    list (string * (option Extended.xfloat * option Extended.xfloat))
}.

Definition empty_scenario : scenario :=
  {| pairs := []; relays := []; initial_settings := [] |}.

(** [scenario_map]: the items in insertion order. *)
Definition scenario_map : Type := list (json * scenario).

(** [scenario_map[sid]], or the fresh value that
    [if sid not in scenario_map] stores first. *)
Fixpoint find_or_empty (m : scenario_map) (sid : json) : scenario :=
  match m with
  | [] => empty_scenario
  | (k, sc) :: m' => if key_eqb k sid then sc else find_or_empty m' sid
  end.

(** The map once the value of [sid] has become [sc]: in the place of
    the key when the map has it, as a new last item otherwise. *)
Fixpoint upsert (m : scenario_map) (sid : json) (sc : scenario)
  : scenario_map :=
  match m with
  | [] => [(sid, sc)]
  | (k, old) :: m' =>
      if key_eqb k sid then (k, sc) :: m' else (k, old) :: upsert m' sid sc
  end.

(** [if name not in relays: relays.append(name)]. *)
Definition add_relay (rs : list string) (name : string) : list string :=
  if existsb (String.eqb name) rs then rs else rs ++ [name].

(** [name in initial]. *)
Definition has_setting
           (initial : list (string * (option Extended.xfloat
                                      * option Extended.xfloat)))
           (name : string) : bool :=
  existsb (fun kv => (fst kv =? name)%string) initial.

Definition current_names : list string :=
  ["Ishc"; "I_shc"; "Isc"; "fault_current"]%string.

(** What [float(v)] does in [get_numeric_field]. *)
Inductive conversion : Type :=
| Value (x : Extended.xfloat)
| Unusable
| Overflow.

Section Functions.

(** [str(v)] for a number, a list or a dictionary. *)
Variable repr : json -> string.

(** [float(z)] for an integer: [None] stands for [OverflowError]. *)
Variable float_of_int : Z -> option Q.

(** [float(s)] for a string: [None] stands for [ValueError]. *)
Variable float_of_str : string -> option Extended.xfloat.

Variable which : Extended.script.

Definition str (v : json) : string :=
  match v with
  | JStr s => s
  | JNull => "None"
  | JBool true => "True"
  | JBool false => "False"
  | _ => repr v
  end.

(** [float(v)]: [TypeError] and [ValueError] make the value unusable. *)
Definition to_float (v : json) : conversion :=
  match v with
  | JNull => Unusable
  | JBool b => Value (Extended.Fin (if b then 1 else 0))
  | JInt z => match float_of_int z with
              | Some q => Value (Extended.Fin q)
              | None => Overflow
              end
  | JFloat x => Value x
  | JStr s => match float_of_str s with
              | Some x => Value x
              | None => Unusable
              end
  | JList _ | JDict _ => Unusable
  end.

(** [get_numeric_field(dct, names)]: the fast script catches
    [(ValueError, TypeError)], the other one everything. *)
Fixpoint get_numeric_field (dct : list (string * json))
         (names : list string) : outcome (option Extended.xfloat) :=
  match names with
  | [] => Done None
  | n :: names' =>
      match lookup dct n with
      | None => get_numeric_field dct names'
      | Some v =>
          match to_float v, which with
          | Value x, _ => Done (Some x)
          | Unusable, _ => get_numeric_field dct names'
          | Overflow, Extended.Fast => Fails OverflowError
          | Overflow, Extended.Full => get_numeric_field dct names'
          end
      end
  end.

(** [store_initial_setting(initial, relay_info)] of the fast script. *)
Definition store_initial_setting
           (initial : list (string * (option Extended.xfloat
                                      * option Extended.xfloat)))
           (relay_info : list (string * json))
  : outcome (list (string * (option Extended.xfloat
                             * option Extended.xfloat))) :=
  let name := strip (str (getd relay_info "relay" (JStr ""))) in
  if is_empty name || has_setting initial name then Done initial
  else
    tds <~ get_numeric_field relay_info ["TDS"; "tds"]%string ;;
    pu <~ get_numeric_field relay_info ["pick_up"; "pickup"]%string ;;
    match tds, pu with
    | None, None => Done initial
    | _, _ => Done (initial ++ [(name, (tds, pu))])
    end.

(** [not c] and [c <= 0] for an extracted current. *)
Definition zero (x : Extended.xfloat) : bool :=
  Extended.xeqb x (Extended.Fin 0).
Definition le_zero (x : Extended.xfloat) : bool :=
  Extended.xleb x (Extended.Fin 0).

(** The body of the loop of [group_data_by_scenario]: the new value of
    [scenario_map].  An exception abandons the whole function, so the
    updates made before it are not kept. *)
Definition group_entry (m : scenario_map) (entry : json)
  : outcome scenario_map :=
  e <~ as_dict entry ;;
  let sid := getd e "scenario_id" JNull in
  let main := getd e "main_relay" JNull in
  let backup := getd e "backup_relay" JNull in
  if negb (truthy sid) || negb (truthy main) || negb (truthy backup)
  then Done m
  else
    md <~ as_dict main ;;
    bd <~ as_dict backup ;;
    let mname := strip (str (getd md "relay" (JStr ""))) in
    let bname := strip (str (getd bd "relay" (JStr ""))) in
    if is_empty mname || is_empty bname then Done m
    else
      im <~ get_numeric_field md current_names ;;
      ib <~ get_numeric_field bd current_names ;;
      match im, ib with
      | Some cm, Some cb =>
          if zero cm || zero cb || le_zero cm || le_zero cb then Done m
          else if negb (hashable sid) then Fails TypeError
          else
            let sc := find_or_empty m sid in
            let ps := pairs sc ++ [ {| main_relay := mname;
                                       backup_relay := bname;
                                       Ishc_main := cm;
                                       Ishc_backup := cb |} ] in
            let rs := add_relay (add_relay (relays sc) mname) bname in
            match which with
            | Extended.Full =>
                Done (upsert m sid
                        {| pairs := ps; relays := rs;
                           initial_settings := initial_settings sc |})
            | Extended.Fast =>
                i1 <~ store_initial_setting (initial_settings sc) md ;;
                i2 <~ store_initial_setting i1 bd ;;
                if hashable (getd e "fault" (JStr "unknown"))
                then Done (upsert m sid
                             {| pairs := ps; relays := rs;
                                initial_settings := i2 |})
                else Fails TypeError
            end
      | _, _ => Done m
      end.

Fixpoint group_loop (data_array : list json) (m : scenario_map)
  : outcome scenario_map :=
  match data_array with
  | [] => Done m
  | entry :: rest => m' <~ group_entry m entry ;; group_loop rest m'
  end.

(** [group_data_by_scenario(data_array)]. *)
Definition group_data_by_scenario (data_array : list json)
  : outcome scenario_map :=
  group_loop data_array [].

End Functions.

End Loader.

(** ** Predicates on loaded scenarios *)

(** A current that passes [not c or c <= 0]: a positive number, [inf] or
    [nan]. *)
Definition current_kept (x : Extended.xfloat) : Prop :=
  Loader.zero x = false /\ Loader.le_zero x = false.

(** What the value under construction satisfies at every moment: the
    relay names are distinct; every pair has names of the relay list,
    with a character that is not white space, and currents that passed
    the test; every relay is named by a pair; the initial settings are
    one per name, for relays of the list, with a TDS or a pickup. *)
Definition scenario_inv (sc : Loader.scenario) : Prop :=
  NoDup (Loader.relays sc)
  /\ Forall (fun p => In (Loader.main_relay p) (Loader.relays sc)
                      /\ In (Loader.backup_relay p) (Loader.relays sc)
                      /\ nonblank (Loader.main_relay p) = true
                      /\ nonblank (Loader.backup_relay p) = true
                      /\ current_kept (Loader.Ishc_main p)
                      /\ current_kept (Loader.Ishc_backup p))
            (Loader.pairs sc)
  /\ (forall r, In r (Loader.relays sc) ->
                exists p, In p (Loader.pairs sc)
                          /\ (Loader.main_relay p = r
                              \/ Loader.backup_relay p = r))
  /\ NoDup (map fst (Loader.initial_settings sc))
  /\ Forall (fun kv => In (fst kv) (Loader.relays sc)
                       /\ (fst (snd kv) <> None \/ snd (snd kv) <> None))
            (Loader.initial_settings sc).

(** A value of the returned map has a pair besides. *)
Definition scenario_ok (sc : Loader.scenario) : Prop :=
  Loader.pairs sc <> [] /\ scenario_inv sc.

(** The scenario id and the pair that an entry contributes, when it is
    a dictionary that passes every test of the loop body. *)
Definition accepted_pair (repr : Loader.json -> string)
           (float_of_int : Z -> option Q)
           (float_of_str : string -> option Extended.xfloat)
           (which : Extended.script) (entry : Loader.json)
  : option (Loader.json * Loader.pair) :=
  match entry with
  | Loader.JDict e =>
      let sid := Loader.getd e "scenario_id" Loader.JNull in
      match Loader.getd e "main_relay" Loader.JNull,
            Loader.getd e "backup_relay" Loader.JNull with
      | Loader.JDict md, Loader.JDict bd =>
          let mname :=
            Loader.strip (Loader.str repr
                            (Loader.getd md "relay" (Loader.JStr ""))) in
          let bname :=
            Loader.strip (Loader.str repr
                            (Loader.getd bd "relay" (Loader.JStr ""))) in
          match Loader.get_numeric_field float_of_int float_of_str which
                                         md Loader.current_names,
                Loader.get_numeric_field float_of_int float_of_str which
                                         bd Loader.current_names with
          | Loader.Done (Some cm), Loader.Done (Some cb) =>
              if Loader.truthy sid
                 && Loader.truthy (Loader.JDict md)
                 && Loader.truthy (Loader.JDict bd)
                 && negb (Loader.is_empty mname)
                 && negb (Loader.is_empty bname)
                 && negb (Loader.zero cm) && negb (Loader.zero cb)
                 && negb (Loader.le_zero cm) && negb (Loader.le_zero cb)
              then Some (sid, {| Loader.main_relay := mname;
                                 Loader.backup_relay := bname;
                                 Loader.Ishc_main := cm;
                                 Loader.Ishc_backup := cb |})
              else None
          | _, _ => None
          end
      | _, _ => None
      end
  | _ => None
  end.

(** The value of a scenario once a pair has been appended and its two
    names tracked, with [initial] as the initial settings. *)
Definition with_pair (sc : Loader.scenario) (p : Loader.pair)
           (initial : list (string * (option Extended.xfloat
                                      * option Extended.xfloat)))
  : Loader.scenario :=
  {| Loader.pairs := Loader.pairs sc ++ [p];
     Loader.relays :=
       Loader.add_relay (Loader.add_relay (Loader.relays sc)
                                          (Loader.main_relay p))
                        (Loader.backup_relay p);
     Loader.initial_settings := initial |}.

(** The accepted entries of the input, in order, and those under one
    scenario id. *)
Definition accepted_pairs (repr : Loader.json -> string)
           (float_of_int : Z -> option Q)
           (float_of_str : string -> option Extended.xfloat)
           (which : Extended.script) (data_array : list Loader.json)
  : list (Loader.json * Loader.pair) :=
  flat_map (fun entry =>
              match accepted_pair repr float_of_int float_of_str which
                                  entry with
              | Some kp => [kp]
              | None => []
              end) data_array.

Definition pairs_of (sid : Loader.json)
           (l : list (Loader.json * Loader.pair)) : list Loader.pair :=
  map snd (filter (fun kp => Loader.key_eqb (fst kp) sid) l).

(** The names of a list of pairs, each at its first appearance, after
    those of [rs]. *)
Definition relays_of (ps : list Loader.pair) (rs : list string)
  : list string :=
  fold_left (fun rs p => Loader.add_relay
                           (Loader.add_relay rs (Loader.main_relay p))
                           (Loader.backup_relay p)) ps rs.

(** An entry of the expected shape: a dictionary whose scenario id can
    be a key, whose two relays are dictionaries or false as a condition,
    and whose fault label can enter a set. *)
Definition has_get (v : Loader.json) : bool :=
  match v with
  | Loader.JDict _ => true
  | _ => negb (Loader.truthy v)
  end.

Definition entry_typed (entry : Loader.json) : Prop :=
  exists e,
    entry = Loader.JDict e
    /\ Loader.hashable (Loader.getd e "scenario_id" Loader.JNull) = true
    /\ has_get (Loader.getd e "main_relay" Loader.JNull) = true
    /\ has_get (Loader.getd e "backup_relay" Loader.JNull) = true
    /\ Loader.hashable (Loader.getd e "fault" (Loader.JStr "unknown"))
       = true.

(** The pairs of a loaded scenario as the optimisation function is
    modelled to read them, when every current is a number. *)
Definition finite_pair (p : Loader.pair) : option pair :=
  match Loader.Ishc_main p, Loader.Ishc_backup p with
  | Extended.Fin a, Extended.Fin b =>
      Some {| main_relay := Loader.main_relay p;
              backup_relay := Loader.backup_relay p;
              Ishc_main := a; Ishc_backup := b |}
  | _, _ => None
  end.

Fixpoint finite_pairs (ps : list Loader.pair) : option (list pair) :=
  match ps with
  | [] => Some []
  | p :: ps' =>
      match finite_pair p, finite_pairs ps' with
      | Some q, Some qs => Some (q :: qs)
      | _, _ => None
      end
  end.

Definition to_scenario_data (sc : Loader.scenario) : option scenario_data :=
  match finite_pairs (Loader.pairs sc) with
  | Some ps => Some {| data_pairs := ps; data_relays := Loader.relays sc |}
  | None => None
  end.

(** An input of three entries for one scenario: two that are accepted
    and one whose backup current is zero. *)
Definition sample_entry (sid main backup : string) (im ib : Z)
  : Loader.json :=
  Loader.JDict
    [ ("scenario_id", Loader.JStr sid);
      ("main_relay",
       Loader.JDict [("relay", Loader.JStr main); ("Ishc", Loader.JInt im)]);
      ("backup_relay",
       Loader.JDict [("relay", Loader.JStr backup);
                     ("Ishc", Loader.JInt ib)]) ]%string.

Definition sample_input : list Loader.json :=
  [ sample_entry "scenario_1" " R1" "R2 " 1000 800;
    sample_entry "scenario_1" "R3" "R1" 500 0;
    sample_entry "scenario_1" "R2" "R3" 900 700 ]%string.

Definition sample_repr (v : Loader.json) : string := "".
Definition sample_float_of_int (z : Z) : option Q := Some (inject_Z z).
Definition sample_float_of_str (s : string) : option Extended.xfloat := None.

(** A scenario map as [group_data_by_scenario] returns it: every key is
    true as a condition, no two keys are equal, every value is a
    well-formed scenario. *)
Definition scenario_map_ok (m : Loader.scenario_map) : Prop :=
  Forall (fun ks => Loader.truthy (fst ks) = true
                    /\ Loader.hashable (fst ks) = true
                    /\ scenario_ok (snd ks)) m
  /\ ForallOrdPairs (fun a b => Loader.key_eqb (fst a) (fst b) = false) m.
(** ** The loop over the scenarios and its summary *)

Definition is_success (s : Extended.scenario_status) : bool :=
  match s with
  | Extended.Success _ => true
  | _ => false
  end.

(** [successful_optimizations / len(scenario_ids) * 100], the success
    rate that both scripts print after the loop. *)
Definition success_rate (statuses : list Extended.scenario_status)
  : result Q :=
  r <- truediv (inject_Z (Z.of_nat (List.length (filter is_success statuses))))
               (inject_Z (Z.of_nat (List.length statuses))) ;;
  Ok (r * 100).

(** [optimize_all_scenarios] from its loop on: [scenarios] are the
    values of the scenario map in the order of [scenario_ids], [rnds i]
    the draws that scenario [i] consumes; the result is the status of
    every scenario. *)
Definition optimize_all_scenarios (float_pow : Q -> Q -> option Q)
           (which : Extended.script) (scenarios : list scenario_data)
           (rnds : nat -> rng) : result (list Extended.scenario_status) :=
  let statuses :=
    map (fun ks => Extended.optimize_scenario float_pow which
                                              (snd ks) (rnds (fst ks)))
        (combine (seq 0 (List.length scenarios)) scenarios) in
  _ <- success_rate statuses ;;
  Ok statuses.

(** ** The order of the scenarios in the fast script

    [sorted(scenario_map.keys(), key=lambda x: int(x.split('_')[1]) if
    x.split('_')[1].isdigit() else 999)], for keys that are strings of
    ASCII characters. *)

(** [s.split('_')]. *)
Fixpoint split_underscore (s : string) : list string :=
  match s with
  | EmptyString => [EmptyString]
  | String c s' =>
      if Ascii.eqb c "_" then EmptyString :: split_underscore s'
      else match split_underscore s' with
           | [] => [String c EmptyString]
           | w :: ws => String c w :: ws
           end
  end.

Definition is_digit (c : ascii) : bool :=
  let n := nat_of_ascii c in ((48 <=? n) && (n <=? 57))%nat.

(** [s.isdigit()]: at least one character, and only digits. *)
Fixpoint all_digits (s : string) : bool :=
  match s with
  | EmptyString => true
  | String c s' => is_digit c && all_digits s'
  end.

Definition isdigit (s : string) : bool :=
  match s with
  | EmptyString => false
  | _ => all_digits s
  end.

(** [int(s)] for a string of digits. *)
Fixpoint int_digits (s : string) (acc : nat) : nat :=
  match s with
  | EmptyString => acc
  | String c s' => int_digits s' (10 * acc + (nat_of_ascii c - 48))
  end.

(** The sort key of a scenario id. *)
Definition order_key (x : string) : result nat :=
  part <- getitem (split_underscore x) 1 ;;
  if isdigit part then Ok (int_digits part 0) else Ok 999%nat.

(** The keys of all ids, computed before any comparison. *)
Fixpoint order_keys (ids : list string) : result (list (nat * string)) :=
  match ids with
  | [] => Ok []
  | x :: ids' =>
      k <- order_key x ;;
      rest <- order_keys ids' ;;
      Ok ((k, x) :: rest)
  end.

(** The stable sort on the keys. *)
Fixpoint insert_by_key (r : nat * string) (l : list (nat * string))
  : list (nat * string) :=
  match l with
  | [] => [r]
  | y :: l' => if (fst y <? fst r)%nat then y :: insert_by_key r l'
               else r :: y :: l'
  end.

Definition sort_by_key (l : list (nat * string)) : list (nat * string) :=
  fold_right insert_by_key [] l.

(** [scenario_ids]: the ids with their keys, in the order of the loop. *)
Definition scenario_order (ids : list string)
  : result (list (nat * string)) :=
  ks <- order_keys ids ;;
  Ok (sort_by_key ks).

(** The id has an underscore. *)
Fixpoint has_underscore (s : string) : bool :=
  match s with
  | EmptyString => false
  | String c s' => Ascii.eqb c "_" || has_underscore s'
  end.

(** ** Writing the settings back into the pairs

    The update of one relay dictionary of the input with the optimised
    settings of its scenario: lines 274-279 and 282-287 of
    optimize_all_scenarios.py, lines 507-514 and 518-525 of the fast
    script.  The function [time_iec] is a parameter. *)

Module WriteBack.

Import Loader.

(** [d[k] = v] on the items of a dictionary. *)
Fixpoint set_item (d : list (string * json)) (k : string) (v : json)
  : list (string * json) :=
  match d with
  | [] => [(k, v)]
  | (k', v') :: d' =>
      if (k' =? k)%string then (k', v) :: d' else (k', v') :: set_item d' k v
  end.

(** [name in optimized], then [optimized[name]], for the value [name]
    of [relay.get("relay")]: the keys are strings, and a list or a
    dictionary cannot be looked up. *)
Definition find_setting
           (optimized : list (string * (Extended.xfloat * Extended.xfloat)))
           (name : json)
  : outcome (option (Extended.xfloat * Extended.xfloat)) :=
  match name with
  | JStr s => match dict_get optimized s with
              | Py.Ok v => Done (Some v)
              | Py.Raise _ => Done None
              end
  | JList _ | JDict _ => Fails TypeError
  | _ => Done None
  end.

Section Update.

Variable float_of_int : Z -> option Q.
Variable float_of_str : string -> option Extended.xfloat.

(** [time_iec(I, PU, TDS)]. *)
Variable time_iec :
  option Extended.xfloat -> Extended.xfloat -> Extended.xfloat
  -> outcome Extended.xfloat.

Variable which : Extended.script.

(** The update of the relay dictionary [relay]; [optimized] maps a relay
    name to its [(TDS, pickup)]. *)
Definition update_relay
           (optimized : list (string * (Extended.xfloat * Extended.xfloat)))
           (relay : list (string * json))
  : outcome (list (string * json)) :=
  found <~ find_setting optimized (getd relay "relay" JNull) ;;
  match found with
  | None => Done relay
  | Some (tds, pu) =>
      match which with
      | Extended.Fast =>
          let d1 := set_item relay "pick_up" (JFloat pu) in
          let d2 := set_item d1 "TDS" (JFloat tds) in
          ishc <~ get_numeric_field float_of_int float_of_str which d2
                                    current_names ;;
          match ishc with
          | Some i =>
              if zero i then Done d2
              else t <~ time_iec (Some i) pu tds ;;
                   Done (set_item d2 "Time_out" (JFloat t))
          | None => Done d2
          end
      | Extended.Full =>
          let d1 := set_item relay "TDS" (JFloat tds) in
          let d2 := set_item d1 "pick_up" (JFloat pu) in
          ishc <~ get_numeric_field float_of_int float_of_str which d2
                                    current_names ;;
          t <~ time_iec ishc pu tds ;;
          Done (set_item d2 "Time_out" (JFloat t))
      end
  end.

End Update.

End WriteBack.

(** The keys are names as [group_data_by_scenario] files them. *)
Definition keys_stripped
           (optimized : list (string * (Extended.xfloat * Extended.xfloat)))
  : Prop :=
  Forall (fun kv => exists raw, fst kv = Loader.strip raw) optimized.

(** The relay dictionary [after] carries the settings [(tds, pu)] and
    otherwise the items of [before], but for the operating time. *)
Definition settings_written (before after : list (string * Loader.json))
           (tds pu : Extended.xfloat) : Prop :=
  Loader.lookup after "TDS" = Some (Loader.JFloat tds)
  /\ Loader.lookup after "pick_up" = Some (Loader.JFloat pu)
  /\ forall k, k <> "TDS"%string -> k <> "pick_up"%string ->
               k <> "Time_out"%string ->
               Loader.lookup after k = Loader.lookup before k.

(** A relay dictionary with the name R1 between blanks, and settings
    for R1. *)
Definition padded_relay : list (string * Loader.json) :=
  [("relay", Loader.JStr " R1 "); ("TDS", Loader.JFloat (Extended.Fin 0.5));
   ("Ishc", Loader.JInt 1000)]%string.

Definition sample_optimized
  : list (string * (Extended.xfloat * Extended.xfloat)) :=
  [("R1"%string, (Extended.Fin 0.1, Extended.Fin 100))].

Definition sample_time_iec (I : option Extended.xfloat)
           (PU TDS : Extended.xfloat) : Loader.outcome Extended.xfloat :=
  Loader.Done Extended.NaN.

(** ** The two embeddings side by side *)

(** The result of a computation under a function. *)
Definition rmap {A B} (f : A -> B) (r : result A) : result B :=
  match r with
  | Ok a => Ok (f a)
  | Raise e => Raise e
  end.

(** A row, and the variables of the loop, read in the extended floats. *)
Definition lift_individual (r : individual) : Extended.individual :=
  {| Extended.genes := map Extended.Fin (genes r);
     Extended.fit := Extended.Fin (fit r) |}.

Definition lift_state (st : state) : Extended.state :=
  {| Extended.X := map lift_individual (X st);
     Extended.X_best := lift_individual (X_best st);
     Extended.stall := stall st |}.

(** The nested function, the loop body and the search of either
    script. *)
Definition relay_time_of (which : Extended.script)
           (float_pow : Q -> Q -> option Q) : Q -> Q -> Q -> result Q :=
  match which with
  | Extended.Fast => GaOptimizationFast.relay_time float_pow
  | Extended.Full => OptimizeAllScenarios.relay_time float_pow
  end.

Definition generation_of (which : Extended.script)
           (float_pow : Q -> Q -> option Q) (pairs : list pair)
           (relays : list string) (IscMin : list Q)
  : state -> gen_draws -> result state :=
  match which with
  | Extended.Fast =>
      GaOptimizationFast.generation float_pow (Extended.config_of which)
                                    pairs relays IscMin
  | Extended.Full =>
      OptimizeAllScenarios.generation float_pow (Extended.config_of which)
                                      pairs relays IscMin
  end.

Definition evolve_of (which : Extended.script)
           (float_pow : Q -> Q -> option Q) (pairs : list pair)
           (relays : list string) (IscMin : list Q)
  : rng -> nat -> nat -> state -> result (nat * state) :=
  match which with
  | Extended.Fast =>
      GaOptimizationFast.evolve float_pow (Extended.config_of which)
                                pairs relays IscMin
  | Extended.Full =>
      OptimizeAllScenarios.evolve float_pow (Extended.config_of which)
                                  pairs relays IscMin
  end.

Definition search_of (which : Extended.script)
           (float_pow : Q -> Q -> option Q) (pairs : list pair)
           (relays : list string) (IscMin : list Q)
  : rng -> result (nat * state) :=
  match which with
  | Extended.Fast =>
      GaOptimizationFast.search float_pow (Extended.config_of which)
                                pairs relays IscMin
  | Extended.Full =>
      OptimizeAllScenarios.search float_pow (Extended.config_of which)
                                  pairs relays IscMin
  end.

(** Every row has [Nv] genes. *)
Definition rows_sized (relays : list string) (pop : list individual)
  : Prop :=
  Forall (fun r => List.length (genes r) = Nv relays) pop.

(** The rows and the best row have [Nv] genes. *)
Definition state_sized (relays : list string) (st : state) : Prop :=
  rows_sized relays (X st)
  /\ List.length (genes (X_best st)) = Nv relays.

(** Every value of the returned dictionary is a finite number. *)
Definition settings_finite
           (out : list (string * (Extended.xfloat * Extended.xfloat)))
  : Prop :=
  Forall (fun e => exists t p, snd e = (Extended.Fin t, Extended.Fin p)) out.

(** * Properties *)

Unset Implicit Arguments.

(** ** The error monad *)

Lemma bind_Ok {A B} (c : result A) (k : A -> result B) (b : B) :
  Py.bind c k = Ok b -> exists a, c = Ok a /\ k a = Ok b.
Proof.
  destruct c as [a|e]; simpl; intro H.
  - exists a. split; [reflexivity | exact H].
  - discriminate.
Qed.

Ltac inv_bind H :=
  let a := fresh "a" in
  let E := fresh "E" in
  apply bind_Ok in H; destruct H as (a & E & H).

Ltac inv_ok H := injection H as H; subst.

(** ** Comparisons and clamping *)

Lemma ltb_lt (x y : Q) : ltb x y = true <-> x < y.
Proof.
  unfold ltb. rewrite negb_true_iff.
  split; intro H.
  - apply Qnot_le_lt. intro L. apply Qle_bool_iff in L. congruence.
  - destruct (Qle_bool y x) eqn:E; [|reflexivity].
    apply Qle_bool_iff in E. lra.
Qed.

Lemma ltb_ge (x y : Q) : ltb x y = false <-> y <= x.
Proof.
  unfold ltb. rewrite negb_false_iff. apply Qle_bool_iff.
Qed.

Lemma ltb_irrefl (x : Q) : ltb x x = false.
Proof. apply ltb_ge. lra. Qed.

Lemma leb_le (x y : Q) : leb x y = true <-> x <= y.
Proof. apply Qle_bool_iff. Qed.

Lemma max2_spec (a b : Q) : a <= max2 a b /\ b <= max2 a b.
Proof.
  unfold max2. destruct (ltb a b) eqn:E.
  - apply ltb_lt in E. lra.
  - apply ltb_ge in E. lra.
Qed.

Lemma min2_le_r (a b : Q) : min2 a b <= b.
Proof.
  unfold min2. destruct (ltb b a) eqn:E.
  - lra.
  - apply ltb_ge in E. lra.
Qed.

Lemma min2_ge (a b c : Q) : c <= a -> c <= b -> c <= min2 a b.
Proof.
  unfold min2. destruct (ltb b a); auto.
Qed.

Lemma clamp_range (t : Q) :
  0 <= min2 (max2 t 0.0) sentinel /\ min2 (max2 t 0.0) sentinel <= sentinel.
Proof.
  split.
  - apply min2_ge.
    + destruct (max2_spec t 0.0) as [_ H]. lra.
    + unfold sentinel, MAX_TIME. lra.
  - apply min2_le_r.
Qed.

Lemma sentinel_value : sentinel == 100.
Proof. reflexivity. Qed.

(** ** The relay curve *)

Lemma relay_time_fast_below (float_pow : Q -> Q -> option Q) (I PU TDS : Q) :
  I <= PU -> GaOptimizationFast.relay_time float_pow I PU TDS = Ok sentinel.
Proof.
  intro H. apply leb_le in H. unfold GaOptimizationFast.relay_time.
  rewrite H. reflexivity.
Qed.

(** C5.  Whenever the fault current does not exceed the pickup,
    [relay_time] returns exactly [MAX_TIME * 10], in both scripts and
    whatever the time dial is. *)
Theorem relay_time_below_pickup
        (float_pow : Q -> Q -> option Q) (I PU TDS : Q) :
  I <= PU ->
  GaOptimizationFast.relay_time float_pow I PU TDS = Ok (MAX_TIME * 10.0)
  /\ OptimizeAllScenarios.relay_time float_pow I PU TDS = Ok (MAX_TIME * 10.0).
Proof.
  intro H. apply leb_le in H.
  unfold GaOptimizationFast.relay_time, OptimizeAllScenarios.relay_time.
  rewrite H. split; reflexivity.
Qed.

(** In ga_optimization_fast.py the handler turns every arithmetic failure
    into the sentinel: the function is total and its value lies in
    [[0, MAX_TIME * 10]]. *)
Lemma relay_time_fast_total
      (float_pow : Q -> Q -> option Q) (I PU TDS : Q) :
  exists t, GaOptimizationFast.relay_time float_pow I PU TDS = Ok t
            /\ 0 <= t /\ t <= MAX_TIME * 10.0.
Proof.
  assert (S : 0 <= sentinel /\ sentinel <= MAX_TIME * 10.0).
  { unfold sentinel, MAX_TIME. lra. }
  unfold GaOptimizationFast.relay_time.
  destruct (leb I PU).
  - exists sentinel. tauto.
  - unfold iec_time, truediv, pow.
    destruct (Qeq_bool PU 0); simpl.
    + exists sentinel. tauto.
    + destruct (float_pow (I / PU) N) as [p|]; simpl.
      * destruct (Qeq_bool (p - 1.0) 0); simpl.
        -- exists sentinel. tauto.
        -- eexists. split; [reflexivity|]. apply clamp_range.
      * exists sentinel. tauto.
Qed.

(** In optimize_all_scenarios.py a vanishing denominator escapes as an
    exception: a power that evaluates to [1] (as the rounded float power
    does just above the pickup) raises [ZeroDivisionError]. *)
Lemma relay_time_all_unit_power
      (float_pow : Q -> Q -> option Q) (I PU TDS p : Q) :
  PU < I -> ~ PU == 0 -> float_pow (I / PU) N = Some p -> p == 1 ->
  OptimizeAllScenarios.relay_time float_pow I PU TDS = Raise ZeroDivisionError.
Proof.
  intros Hlt Hnz Hp Hone.
  unfold OptimizeAllScenarios.relay_time.
  assert (L : leb I PU = false).
  { unfold leb. destruct (Qle_bool I PU) eqn:E; [|reflexivity].
    apply Qle_bool_iff in E. lra. }
  rewrite L. unfold iec_time, truediv, pow.
  assert (Z : Qeq_bool PU 0 = false).
  { destruct (Qeq_bool PU 0) eqn:E; [|reflexivity].
    apply Qeq_bool_iff in E. contradiction. }
  rewrite Z. simpl. rewrite Hp. simpl.
  assert (O : Qeq_bool (p - 1.0) 0 = true).
  { apply Qeq_bool_iff. rewrite Hone. reflexivity. }
  rewrite O. reflexivity.
Qed.

(** C6.  optimize_all_scenarios.py: [relay_time(1.0, 0.0, 0.5)] raises
    [ZeroDivisionError] instead of returning the sentinel, which is what
    the same call returns in ga_optimization_fast.py. *)
Theorem relay_time_all_raises (float_pow : Q -> Q -> option Q) :
  OptimizeAllScenarios.relay_time float_pow 1.0 0.0 0.5
  = Raise ZeroDivisionError
  /\ GaOptimizationFast.relay_time float_pow 1.0 0.0 0.5
     = Ok (MAX_TIME * 10.0).
Proof. split; reflexivity. Qed.

(** ** Lists and dictionaries *)

Lemma getitem_total {A} (l : list A) (i : nat) :
  (i < List.length l)%nat -> exists a, getitem l i = Ok a.
Proof.
  intro H. unfold getitem.
  destruct (nth_error l i) eqn:E.
  - eauto.
  - apply nth_error_None in E. lia.
Qed.

Lemma getitem_nth {A} (l : list A) (i : nat) (a d : A) :
  getitem l i = Ok a -> (i < List.length l)%nat /\ nth i l d = a.
Proof.
  unfold getitem. destruct (nth_error l i) eqn:E; [|discriminate].
  intro H. inv_ok H. split.
  - apply nth_error_Some. congruence.
  - apply nth_error_nth. exact E.
Qed.

Lemma dict_get_set_same {V} (d : list (string * V)) (k : string) (v : V) :
  dict_get (dict_set d k v) k = Ok v.
Proof.
  induction d as [|[k' v'] d IH]; simpl.
  - rewrite String.eqb_refl. reflexivity.
  - destruct (String.eqb k' k) eqn:E; simpl; rewrite E; auto.
Qed.

Lemma dict_get_set_other {V} (d : list (string * V)) (k k' : string) (v : V) :
  k <> k' -> dict_get (dict_set d k v) k' = dict_get d k'.
Proof.
  intro Hne.
  assert (F : String.eqb k k' = false) by (apply String.eqb_neq; exact Hne).
  induction d as [|[k0 v0] d IH]; simpl.
  - rewrite F. reflexivity.
  - destruct (String.eqb k0 k) eqn:E; simpl.
    + apply String.eqb_eq in E. subst k0. rewrite F. reflexivity.
    + rewrite IH. reflexivity.
Qed.

Lemma dict_fold_found (P : nat -> Prop) (l : list (string * nat)) :
  forall (d : list (string * nat)) (k : string),
    (forall kv, In kv l -> P (snd kv)) ->
    In k (map fst l) \/ (exists i, dict_get d k = Ok i /\ P i) ->
    exists i,
      dict_get (fold_left (fun d kv => dict_set d (fst kv) (snd kv)) l d) k
      = Ok i /\ P i.
Proof.
  induction l as [|[k0 v0] l IH]; intros d k HP H; simpl.
  - destruct H as [[]|H]. exact H.
  - apply IH.
    + intros kv Hin. apply HP. right. exact Hin.
    + destruct (string_dec k0 k) as [->|Hne].
      * right. exists v0. split.
        -- apply dict_get_set_same.
        -- apply (HP (k, v0)). left. reflexivity.
      * destruct H as [[H|H]|H].
        -- simpl in H. contradiction.
        -- left. exact H.
        -- right. rewrite dict_get_set_other by exact Hne. exact H.
Qed.

Lemma map_fst_combine_seq {A} (l : list A) (n : nat) :
  map fst (combine l (seq n (List.length l))) = l.
Proof.
  revert n. induction l as [|a l IH]; intro n; simpl; [reflexivity|].
  f_equal. apply IH.
Qed.

(** Every relay name has an index below [nR]. *)
Lemma idx_lookup (relays : list string) (k : string) :
  In k relays ->
  exists i, dict_get (idx relays) k = Ok i /\ (i < nR relays)%nat.
Proof.
  intro H. unfold idx.
  apply (dict_fold_found (fun i => (i < nR relays)%nat)).
  - intros [k0 i] Hin. apply in_combine_r in Hin.
    apply in_seq in Hin. simpl. lia.
  - left. unfold nR. rewrite map_fst_combine_seq. exact H.
Qed.

(** ** The fitness function *)

Section FitnessFacts.

Variable relay_time : Q -> Q -> Q -> result Q.
Variable relays : list string.
Variable individual : list Q.

Lemma add_penalties_ge (tmt tM tB : Q) : tmt <= add_penalties tmt tM tB.
Proof.
  unfold add_penalties.
  destruct (ltb (tB - tM) CTI) eqn:E1; destruct (ltb MAX_TIME tM) eqn:E2;
    try apply ltb_lt in E1; try apply ltb_lt in E2; lra.
Qed.

Lemma add_penalties_fix (tmt tM tB : Q) :
  add_penalties tmt tM tB == tmt <-> CTI <= tB - tM /\ tM <= MAX_TIME.
Proof.
  unfold add_penalties.
  destruct (ltb (tB - tM) CTI) eqn:E1; destruct (ltb MAX_TIME tM) eqn:E2;
    try apply ltb_lt in E1; try apply ltb_lt in E2;
    try apply ltb_ge in E1; try apply ltb_ge in E2;
    split; intro H; try lra.
Qed.

(** The accumulator only grows, and it is unchanged exactly when every
    remaining pair is coordinated. *)
Lemma fitness_loop_spec (ps : list pair) :
  forall tmt v,
    fitness_loop relay_time relays ps individual tmt = Ok v ->
    tmt <= v
    /\ (v == tmt <-> Forall (coordinated relay_time relays individual) ps).
Proof.
  induction ps as [|p ps IH]; intros tmt v H; simpl in H.
  - inv_ok H. split; [lra|]. split; intro; [constructor | reflexivity].
  - inv_bind H. destruct a as [tM tB]. simpl in H.
    destruct (IH _ _ H) as [Hle Hiff].
    pose proof (add_penalties_ge tmt tM tB) as Hge.
    pose proof (add_penalties_fix tmt tM tB) as Hfix.
    split; [lra|]. split.
    + intro Hv. constructor.
      * exists tM, tB. split; [exact E|]. apply Hfix. lra.
      * apply Hiff. lra.
    + intro HF. inversion HF as [|? ? Hp Hps]; subst.
      destruct Hp as (tM' & tB' & E' & Hc).
      rewrite E in E'. inv_ok E'.
      apply Hfix in Hc. apply Hiff in Hps. lra.
Qed.

(** Whenever [fitness] returns, its value is non-negative, and it is
    zero exactly when every pair is coordinated. *)
Lemma fitness_spec (pairs : list pair) (v : Q) :
  fitness relay_time pairs relays individual = Ok v ->
  0 <= v
  /\ (v == 0 <-> Forall (coordinated relay_time relays individual) pairs).
Proof.
  intro H. apply fitness_loop_spec in H. destruct H as [Hle Hiff].
  split; [lra|]. rewrite <- Hiff. split; intro E; rewrite E; reflexivity.
Qed.

Hypothesis relay_time_total :
  forall I PU TDS, exists t, relay_time I PU TDS = Ok t.
Hypothesis individual_length : List.length individual = Nv relays.

Lemma pair_times_total (p : pair) :
  In (main_relay p) relays -> In (backup_relay p) relays ->
  exists t, pair_times relay_time relays individual p = Ok t.
Proof.
  intros Hm Hb. unfold pair_times.
  destruct (idx_lookup _ _ Hm) as (mi & Em & Lm).
  destruct (idx_lookup _ _ Hb) as (bi & Eb & Lb).
  rewrite Em, Eb. simpl.
  assert (Lf : List.length (firstn (nR relays) individual) = nR relays).
  { rewrite length_firstn, individual_length. unfold Nv. lia. }
  assert (Ls : List.length (skipn (nR relays) individual) = nR relays).
  { rewrite length_skipn, individual_length. unfold Nv. lia. }
  destruct (@getitem_total _ (skipn (nR relays) individual) mi) as [pum ->];
    [lia|].
  destruct (@getitem_total _ (firstn (nR relays) individual) mi) as [tdsm ->];
    [lia|].
  simpl.
  destruct (relay_time_total (Ishc_main p) pum tdsm) as [tM ->]. simpl.
  destruct (@getitem_total _ (skipn (nR relays) individual) bi) as [pub ->];
    [lia|].
  destruct (@getitem_total _ (firstn (nR relays) individual) bi) as [tdsb ->];
    [lia|].
  simpl.
  destruct (relay_time_total (Ishc_backup p) pub tdsb) as [tB ->]. simpl.
  eauto.
Qed.

Lemma fitness_loop_total (ps : list pair) :
  pairs_known ps relays ->
  forall tmt, exists v,
      fitness_loop relay_time relays ps individual tmt = Ok v.
Proof.
  induction ps as [|p ps IH]; intros Hk tmt; simpl.
  - eauto.
  - destruct (Hk p (or_introl eq_refl)) as [Hm Hb].
    destruct (pair_times_total p Hm Hb) as [t ->]. simpl.
    apply IH. intros q Hq. apply Hk. right. exact Hq.
Qed.

Lemma fitness_total (pairs : list pair) :
  pairs_known pairs relays ->
  exists v, fitness relay_time pairs relays individual = Ok v.
Proof.
  intro Hk. apply fitness_loop_total. exact Hk.
Qed.

End FitnessFacts.

Lemma relay_time_fast_returns (float_pow : Q -> Q -> option Q) (I PU TDS : Q) :
  exists t, GaOptimizationFast.relay_time float_pow I PU TDS = Ok t.
Proof.
  destruct (relay_time_fast_total float_pow I PU TDS) as (t & E & _).
  eauto.
Qed.

Lemma example_pairs_known : pairs_known Example.pairs Example.relays.
Proof.
  intros p [<-|[]]. simpl. split.
  - left. reflexivity.
  - right. left. reflexivity.
Defined.

(** C1.  For an individual of [Nv] genes and pairs that name relays of the
    scenario, [fitness] returns a value [>= 0], and that value is [0]
    exactly when every pair has [tB - tM >= CTI] and [tM <= MAX_TIME]. *)
Theorem fitness_nonneg_zero_iff
        (float_pow : Q -> Q -> option Q)
        (pairs : list pair) (relays : list string) (individual : list Q) :
  List.length individual = Nv relays ->
  pairs_known pairs relays ->
  exists v,
    GaOptimizationFast.fitness float_pow pairs relays individual = Ok v
    /\ 0 <= v
    /\ (v == 0 <->
        Forall (coordinated (GaOptimizationFast.relay_time float_pow)
                            relays individual) pairs).
Proof.
  intros Hlen Hk.
  destruct (@fitness_total (GaOptimizationFast.relay_time float_pow)
              relays individual (relay_time_fast_returns float_pow)
              Hlen pairs Hk) as [v Hv].
  exists v. split; [exact Hv|]. apply fitness_spec. exact Hv.
Qed.

Lemma fitness_nonneg_zero_iff_witness :
  List.length Example.good_individual = Nv Example.relays
  /\ pairs_known Example.pairs Example.relays
  /\ exists v,
      GaOptimizationFast.fitness Example.linear_pow Example.pairs
                                 Example.relays Example.good_individual = Ok v
      /\ 0 <= v
      /\ (v == 0 <->
          Forall (coordinated
                    (GaOptimizationFast.relay_time Example.linear_pow)
                    Example.relays Example.good_individual) Example.pairs).
Proof.
  split; [reflexivity|]. split; [exact example_pairs_known|].
  apply fitness_nonneg_zero_iff; [reflexivity | exact example_pairs_known].
Defined.

Section BlindRelay.

Variable relay_time : Q -> Q -> Q -> result Q.
Variable relays : list string.
Variable individual : list Q.

Hypothesis relay_time_below :
  forall I PU TDS, I <= PU -> relay_time I PU TDS = Ok sentinel.

Lemma add_penalties_sentinel (tmt tB : Q) :
  tmt + (sentinel - MAX_TIME) <= add_penalties tmt sentinel tB.
Proof.
  unfold add_penalties.
  assert (L : ltb MAX_TIME sentinel = true) by reflexivity.
  rewrite L.
  destruct (ltb (tB - sentinel) CTI) eqn:E1.
  - apply ltb_lt in E1. lra.
  - lra.
Qed.

Lemma blind_main_time (p : pair) (tM tB : Q) :
  blind_main relays individual p ->
  pair_times relay_time relays individual p = Ok (tM, tB) ->
  tM = sentinel.
Proof.
  intros (mi & pum & Hmi & Hpum & Hle) E.
  unfold pair_times in E. rewrite Hmi in E. simpl in E.
  inv_bind E. rewrite Hpum in E. simpl in E.
  inv_bind E. rewrite relay_time_below in E by exact Hle. simpl in E.
  inv_bind E. inv_bind E. inv_bind E. inv_ok E. reflexivity.
Qed.

Lemma fitness_loop_blind (ps : list pair) :
  forall tmt v,
    fitness_loop relay_time relays ps individual tmt = Ok v ->
    Exists (blind_main relays individual) ps ->
    tmt + (sentinel - MAX_TIME) <= v.
Proof.
  induction ps as [|p ps IH]; intros tmt v H Hex.
  - inversion Hex.
  - simpl in H. inv_bind H. destruct a as [tM tB]. simpl in H.
    inversion Hex as [? ? Hb | ? ? Hb]; subst.
    + rewrite (blind_main_time p tM tB Hb E) in H.
      apply fitness_loop_spec in H. destruct H as [H _].
      pose proof (add_penalties_sentinel tmt tB). lra.
    + apply IH in H; [|exact Hb].
      pose proof (add_penalties_ge tmt tM tB). lra.
Qed.

End BlindRelay.

(** C10.  If the main relay of some pair has its fault current at or
    below the individual's pickup for it, [fitness] returns at least
    [MAX_TIME * 10 - MAX_TIME = 90]. *)
Theorem fitness_blind_main_relay
        (float_pow : Q -> Q -> option Q)
        (pairs : list pair) (relays : list string) (individual : list Q) :
  List.length individual = Nv relays ->
  pairs_known pairs relays ->
  Exists (blind_main relays individual) pairs ->
  exists v,
    GaOptimizationFast.fitness float_pow pairs relays individual = Ok v
    /\ MAX_TIME * 10.0 - MAX_TIME <= v
    /\ 90.0 <= v.
Proof.
  intros Hlen Hk Hex.
  destruct (@fitness_total (GaOptimizationFast.relay_time float_pow)
              relays individual (relay_time_fast_returns float_pow)
              Hlen pairs Hk) as [v Hv].
  exists v. split; [exact Hv|].
  assert (B : 0.0 + (sentinel - MAX_TIME) <= v).
  { apply (@fitness_loop_blind (GaOptimizationFast.relay_time float_pow)
             relays individual) with (ps := pairs).
    - intros I PU TDS Hle.
      apply (relay_time_fast_below float_pow I PU TDS Hle).
    - exact Hv.
    - exact Hex. }
  unfold sentinel, MAX_TIME in *. split; lra.
Qed.

Lemma example_blind :
  Exists (blind_main Example.relays Example.blind_individual) Example.pairs.
Proof.
  left. exists 0%nat, 1200. repeat split; simpl. discriminate.
Defined.

Lemma fitness_blind_main_relay_witness :
  List.length Example.blind_individual = Nv Example.relays
  /\ pairs_known Example.pairs Example.relays
  /\ Exists (blind_main Example.relays Example.blind_individual)
            Example.pairs
  /\ exists v,
      GaOptimizationFast.fitness Example.linear_pow Example.pairs
                                 Example.relays Example.blind_individual
      = Ok v
      /\ MAX_TIME * 10.0 - MAX_TIME <= v
      /\ 90.0 <= v.
Proof.
  split; [reflexivity|]. split; [exact example_pairs_known|].
  split; [exact example_blind|].
  apply fitness_blind_main_relay;
    [reflexivity | exact example_pairs_known | exact example_blind].
Defined.

(** ** Sorting by fitness *)

Lemma insert_by_fit_perm (r : individual) (l : list individual) :
  Permutation (insert_by_fit r l) (r :: l).
Proof.
  induction l as [|y l IH]; simpl.
  - apply Permutation_refl.
  - destruct (ltb (fit y) (fit r)).
    + eapply perm_trans; [apply perm_skip, IH | apply perm_swap].
    + apply Permutation_refl.
Qed.

Lemma sort_by_fit_perm (l : list individual) : Permutation (sort_by_fit l) l.
Proof.
  induction l as [|r l IH]; simpl.
  - apply perm_nil.
  - eapply perm_trans; [apply insert_by_fit_perm | apply perm_skip, IH].
Qed.

Lemma sort_by_fit_length (l : list individual) :
  List.length (sort_by_fit l) = List.length l.
Proof. apply Permutation_length, sort_by_fit_perm. Qed.

Lemma sort_by_fit_Forall (P : individual -> Prop) (l : list individual) :
  Forall P l -> Forall P (sort_by_fit l).
Proof.
  intro H. eapply Permutation_Forall; [|exact H].
  apply Permutation_sym, sort_by_fit_perm.
Qed.

Lemma insert_by_fit_sorted (r : individual) (l : list individual) :
  sorted l -> sorted (insert_by_fit r l).
Proof.
  unfold sorted. induction l as [|y l IH]; intro H; simpl.
  - repeat constructor.
  - inversion H as [|? ? Hs Hh]; subst.
    destruct (ltb (fit y) (fit r)) eqn:E.
    + constructor; [apply IH; exact Hs|].
      destruct l as [|z l]; simpl.
      * constructor. unfold fit_le. apply ltb_lt in E. lra.
      * destruct (ltb (fit z) (fit r)).
        -- inversion Hh; subst. constructor. assumption.
        -- constructor. unfold fit_le. apply ltb_lt in E. lra.
    + constructor; [exact H|]. constructor.
      unfold fit_le. apply ltb_ge in E. exact E.
Qed.

Lemma sort_by_fit_sorted (l : list individual) : sorted (sort_by_fit l).
Proof.
  induction l as [|r l IH]; simpl.
  - constructor.
  - apply insert_by_fit_sorted. exact IH.
Qed.

(** A stable sort leaves a sorted population as it is. *)
Lemma sort_by_fit_id (l : list individual) : sorted l -> sort_by_fit l = l.
Proof.
  unfold sorted. induction l as [|r l IH]; intro H; simpl.
  - reflexivity.
  - inversion H as [|? ? Hs Hh]; subst. rewrite (IH Hs).
    destruct l as [|y l]; simpl; [reflexivity|].
    inversion Hh as [|? ? Hle]; subst. unfold fit_le in Hle.
    assert (E : ltb (fit y) (fit r) = false) by (apply ltb_ge; exact Hle).
    rewrite E. reflexivity.
Qed.

Lemma last_cons_shift {A} (l : list A) (a b : A) :
  last (b :: l) a = last l b.
Proof.
  revert a b. induction l as [|c l IH]; intros a b; [reflexivity|].
  change (last (b :: c :: l) a) with (last (c :: l) a).
  rewrite (IH a c), (IH b c). reflexivity.
Qed.

(** In a sorted population the last row has the largest fitness. *)
Lemma sorted_last_worst (l : list individual) (worst : individual) :
  sorted l -> getlast l = Ok worst ->
  Forall (fun r => fit r <= fit worst) l.
Proof.
  unfold sorted. intros Hs Hl.
  assert (T : Relations_1.Transitive fit_le).
  { intros a b c. unfold fit_le. lra. }
  apply (Sorted_StronglySorted T) in Hs.
  destruct l as [|a l]; [discriminate|]. simpl in Hl. inv_ok Hl.
  revert a Hs. induction l as [|b l IH]; intros a Hs.
  - simpl. constructor; [lra | constructor].
  - inversion Hs as [|? ? Hs' Ha]; subst.
    specialize (IH b Hs').
    rewrite last_cons_shift.
    constructor; [|exact IH].
    inversion IH as [|? ? Hb _]; subst.
    inversion Ha as [|? ? Hab _]; subst. unfold fit_le in Hab. lra.
Qed.

(** ** Crossover and mutation keep the gene count *)

Lemma xmin_length (relays : list string) :
  List.length (xmin relays) = Nv relays.
Proof.
  unfold xmin, Nv. rewrite length_app, !repeat_length. lia.
Qed.

Lemma xmax_length (relays : list string) (IscMin : list Q) :
  List.length IscMin = nR relays ->
  List.length (xmax relays IscMin) = Nv relays.
Proof.
  intro H. unfold xmax, Nv.
  rewrite length_app, repeat_length, length_map, H. lia.
Qed.

Lemma setitem_total {A} (l : list A) (i : nat) (v : A) :
  (i < List.length l)%nat -> exists l', setitem l i v = Ok l'.
Proof.
  revert i. induction l as [|a l IH]; intros i H; simpl in H; [lia|].
  destruct i as [|i]; simpl.
  - eauto.
  - destruct (IH i) as [l' ->]; [lia|]. simpl. eauto.
Qed.

Lemma setitem_length {A} (l l' : list A) (i : nat) (v : A) :
  setitem l i v = Ok l' -> List.length l' = List.length l.
Proof.
  revert i l'. induction l as [|a l IH]; intros i l' H; simpl in H.
  - discriminate.
  - destruct i as [|i].
    + inv_ok H. reflexivity.
    + inv_bind H. inv_ok H. simpl. f_equal. eapply IH. exact E.
Qed.

Lemma setitem_nth {A} (l l' : list A) (i j : nat) (v d : A) :
  setitem l i v = Ok l' ->
  nth j l' d = if (j =? i)%nat then v else nth j l d.
Proof.
  revert i j l'. induction l as [|a l IH]; intros i j l' H; simpl in H.
  - discriminate.
  - destruct i as [|i].
    + inv_ok H. destruct j; reflexivity.
    + inv_bind H. inv_ok H. destruct j as [|j]; simpl; [reflexivity|].
      apply IH. exact E.
Qed.

Lemma crossover_length (P1 P2 : list Q) (c n : nat) :
  List.length P1 = n -> List.length P2 = n -> (c <= n)%nat ->
  List.length (firstn c P1 ++ skipn c P2) = n.
Proof.
  intros H1 H2 Hc. rewrite length_app, length_firstn, length_skipn. lia.
Qed.

Lemma crossover_nth (P1 P2 : list Q) (c j : nat) :
  (c <= List.length P1)%nat ->
  nth j (firstn c P1 ++ skipn c P2) 0
  = if (j <? c)%nat then nth j P1 0 else nth j P2 0.
Proof.
  intro Hc.
  assert (L : List.length (firstn c P1) = c)
    by (rewrite length_firstn; lia).
  destruct (j <? c)%nat eqn:E.
  - pose proof E as E'. apply Nat.ltb_lt in E'.
    rewrite app_nth1 by lia. rewrite nth_firstn, E. reflexivity.
  - apply Nat.ltb_ge in E. rewrite app_nth2 by lia. rewrite L.
    rewrite nth_skipn. f_equal. lia.
Qed.

Section MutationFacts.

Variable relays : list string.
Variable IscMin : list Q.
Hypothesis IscMin_length : List.length IscMin = nR relays.

Lemma mutate_total (ms : list (nat * Q)) :
  Forall (fun mr => (fst mr < Nv relays)%nat) ms ->
  forall child, List.length child = Nv relays ->
                exists child', mutate relays IscMin child ms = Ok child'.
Proof.
  induction ms as [|[m r] ms IH]; intros Hms child Hlen; simpl.
  - eauto.
  - inversion Hms as [|? ? Hm Hms']; subst. simpl in Hm.
    destruct (@getitem_total _ (xmin relays) m) as [lo ->];
      [rewrite xmin_length; exact Hm|].
    destruct (@getitem_total _ (xmax relays IscMin) m) as [hi ->];
      [rewrite xmax_length by exact IscMin_length; exact Hm|].
    simpl.
    destruct (@setitem_total _ child m (sample_gene lo hi r)) as [c' Ec];
      [lia|].
    rewrite Ec. simpl. apply IH; [exact Hms'|].
    rewrite (setitem_length _ _ _ _ Ec). exact Hlen.
Qed.

Lemma mutate_length (ms : list (nat * Q)) :
  forall child child',
    mutate relays IscMin child ms = Ok child' ->
    List.length child' = List.length child.
Proof.
  induction ms as [|[m r] ms IH]; intros child child' H; simpl in H.
  - inv_ok H. reflexivity.
  - inv_bind H. inv_bind H. inv_bind H.
    rewrite (IH _ _ H). eapply setitem_length. exact E1.
Qed.

End MutationFacts.

Lemma muts_ok_positions (cfg : ga_config) (relays : list string)
      (ms : list (nat * Q)) :
  muts_ok cfg relays ms -> Forall (fun mr => (fst mr < Nv relays)%nat) ms.
Proof.
  intros (_ & _ & H). eapply Forall_impl; [|exact H].
  intros mr [Hm _]. exact Hm.
Qed.

Lemma population_row (cfg : ga_config) (relays : list string)
      (pop : list individual) (i : nat) :
  population_ok cfg relays pop -> (i < GA_Ni cfg)%nat ->
  exists r, getitem pop i = Ok r /\ List.length (genes r) = Nv relays.
Proof.
  intros [Hlen Hrows] Hi.
  destruct (@getitem_total _ pop i) as [r Er]; [lia|].
  exists r. split; [exact Er|].
  rewrite Forall_forall in Hrows. apply Hrows.
  unfold getitem in Er. destruct (nth_error pop i) eqn:E; [|discriminate].
  inv_ok Er. eapply nth_error_In. exact E.
Qed.

(** ** One generation *)

Lemma getlast_total {A} (l : list A) :
  (0 < List.length l)%nat -> exists a, getlast l = Ok a.
Proof.
  destruct l as [|a l]; simpl; intro H; [lia | eauto].
Qed.

Lemma setlast_spec {A} (l : list A) (a v : A) :
  getlast l = Ok a -> setlast l v = Ok (removelast l ++ [v]).
Proof.
  destruct l; [discriminate | reflexivity].
Qed.

Lemma removelast_cons_length {A} (l : list A) (a : A) :
  List.length (removelast (a :: l)) = List.length l.
Proof.
  revert a. induction l as [|b l IH]; intro a; [reflexivity|].
  change (removelast (a :: b :: l)) with (a :: removelast (b :: l)).
  cbn [List.length]. rewrite IH. reflexivity.
Qed.

Lemma removelast_app_length {A} (l : list A) (v : A) :
  (0 < List.length l)%nat ->
  List.length (removelast l ++ [v]) = List.length l.
Proof.
  intro H. destruct l as [|a l]; [simpl in H; lia|].
  rewrite length_app, removelast_cons_length. simpl. lia.
Qed.

Lemma removelast_Forall {A} (P : A -> Prop) (l : list A) :
  Forall P l -> Forall P (removelast l).
Proof.
  induction l as [|a l IH]; intro H; [constructor|].
  inversion H; subst. destruct l as [|b l]; [constructor|].
  change (removelast (a :: b :: l)) with (a :: removelast (b :: l)).
  constructor; [assumption | apply IH; assumption].
Qed.

Lemma update_best_spec (pop : list individual) (best : individual)
      (n : nat) (st' : state) :
  update_best pop best n = Ok st' ->
  exists top,
    getitem pop 0 = Ok top
    /\ X st' = pop
    /\ ((fit top < fit best /\ X_best st' = top /\ stall st' = 0%nat)
        \/ (fit best <= fit top /\ X_best st' = best
            /\ stall st' = S n)).
Proof.
  unfold update_best. intro H. inv_bind H. exists a. split; [exact E|].
  destruct (ltb (fit a) (fit best)) eqn:L; inv_ok H; simpl.
  - apply ltb_lt in L. split; [reflexivity|]. left. auto.
  - apply ltb_ge in L. split; [reflexivity|]. right. auto.
Qed.

Lemma update_best_total (pop : list individual) (best : individual)
      (n : nat) :
  (0 < List.length pop)%nat -> exists st', update_best pop best n = Ok st'.
Proof.
  intro H. unfold update_best.
  destruct (@getitem_total _ pop 0%nat H) as [top ->]. simpl.
  destruct (ltb (fit top) (fit best)); eauto.
Qed.

Section OffspringFacts.

Variable relay_time : Q -> Q -> Q -> result Q.
Variable cfg : ga_config.
Variable pairs : list pair.
Variable relays : list string.
Variable IscMin : list Q.

(** The child offered for replacement has [Nv] genes and its own fitness. *)
Lemma offspring_child (pop : list individual) (d : gen_draws)
      (child : list Q) (fchild : Q) :
  population_ok cfg relays pop ->
  (cp d <= Nv relays)%nat ->
  offspring relay_time pairs relays IscMin pop d = Ok (child, fchild) ->
  List.length child = Nv relays
  /\ fitness relay_time pairs relays child = Ok fchild.
Proof.
  intros [_ Hrows] Hcp H. unfold offspring in H.
  inv_bind H. inv_bind H. inv_bind H. inv_bind H. inv_bind H. inv_bind H.
  rename a into r1, a0 into r2, a1 into H1, a2 into H2, a3 into f1,
    a4 into f2.
  assert (L : forall r i, getitem pop i = Ok r ->
                          List.length (genes r) = Nv relays).
  { intros r i G. rewrite Forall_forall in Hrows. apply Hrows.
    unfold getitem in G. destruct (nth_error pop i) eqn:En; [|discriminate].
    inv_ok G. eapply nth_error_In. exact En. }
  pose proof (L _ _ E) as L1. pose proof (L _ _ E0) as L2.
  apply mutate_length in E1. apply mutate_length in E2.
  rewrite (crossover_length _ _ (cp d) (Nv relays) L1 L2 Hcp) in E1.
  rewrite (crossover_length _ _ (cp d) (Nv relays) L2 L1 Hcp) in E2.
  destruct (ltb f2 f1); inv_ok H; auto.
Qed.

Hypothesis relay_time_total :
  forall I PU TDS, exists t, relay_time I PU TDS = Ok t.

Lemma offspring_total (st : state) (d : gen_draws) :
  step_ok cfg pairs relays IscMin st d ->
  exists child fchild,
    offspring relay_time pairs relays IscMin (X st) d = Ok (child, fchild).
Proof.
  intros (Hk & HI & Hpop & Hd).
  destruct Hd as (Hs1 & Hs2 & _ & _ & Hcp & Hm1 & Hm2).
  destruct (population_row cfg relays (X st) (s1 d) Hpop Hs1)
    as (r1 & E1 & L1).
  destruct (population_row cfg relays (X st) (s2 d) Hpop Hs2)
    as (r2 & E2 & L2).
  unfold offspring. rewrite E1, E2. simpl.
  assert (Hc : (cp d <= Nv relays)%nat) by lia.
  destruct (mutate_total relays IscMin HI (mut1 d)
              (muts_ok_positions _ _ _ Hm1)
              (firstn (cp d) (genes r1) ++ skipn (cp d) (genes r2))
              (crossover_length _ _ _ _ L1 L2 Hc)) as [H1 M1].
  destruct (mutate_total relays IscMin HI (mut2 d)
              (muts_ok_positions _ _ _ Hm2)
              (firstn (cp d) (genes r2) ++ skipn (cp d) (genes r1))
              (crossover_length _ _ _ _ L2 L1 Hc)) as [H2 M2].
  rewrite M1, M2. simpl.
  pose proof (mutate_length relays IscMin _ _ _ M1) as LH1.
  pose proof (mutate_length relays IscMin _ _ _ M2) as LH2.
  rewrite (crossover_length _ _ _ _ L1 L2 Hc) in LH1.
  rewrite (crossover_length _ _ _ _ L2 L1 Hc) in LH2.
  destruct (@fitness_total relay_time relays H1 relay_time_total LH1
              pairs Hk) as [f1 F1].
  destruct (@fitness_total relay_time relays H2 relay_time_total LH2
              pairs Hk) as [f2 F2].
  rewrite F1, F2. simpl.
  destruct (ltb f2 f1); eauto.
Qed.

End OffspringFacts.

Section FastGeneration.

Variable float_pow : Q -> Q -> option Q.
Variable cfg : ga_config.
Variable pairs : list pair.
Variable relays : list string.
Variable IscMin : list Q.

Lemma generation_fast_unfold (st : state) (d : gen_draws)
      (child : list Q) (fchild : Q) (worst : individual) :
  offspring (GaOptimizationFast.relay_time float_pow) pairs relays IscMin
            (X st) d = Ok (child, fchild) ->
  getlast (X st) = Ok worst ->
  GaOptimizationFast.generation float_pow cfg pairs relays IscMin st d
  = update_best
      (sort_by_fit
         (if ltb fchild (fit worst)
          then if duplicate cfg relays child (X st)
               then X st
               else removelast (X st) ++ [{| genes := child; fit := fchild |}]
          else X st))
      (X_best st) (stall st).
Proof.
  intros Ho Hw. unfold GaOptimizationFast.generation.
  rewrite Ho. simpl. rewrite Hw. simpl.
  destruct (ltb fchild (fit worst)); [|reflexivity].
  destruct (duplicate cfg relays child (X st)); [reflexivity|].
  rewrite (setlast_spec _ _ _ Hw). reflexivity.
Qed.

(** A generation of the fast script always completes, and leaves a full
    population of [Nv]-gene rows behind. *)
Lemma generation_fast_total (st : state) (d : gen_draws) :
  step_ok cfg pairs relays IscMin st d ->
  exists child fchild worst st',
    offspring (GaOptimizationFast.relay_time float_pow) pairs relays IscMin
              (X st) d = Ok (child, fchild)
    /\ getlast (X st) = Ok worst
    /\ GaOptimizationFast.generation float_pow cfg pairs relays IscMin st d
       = Ok st'
    /\ population_ok cfg relays (X st').
Proof.
  intro Hok.
  destruct (offspring_total (GaOptimizationFast.relay_time float_pow)
              cfg pairs relays IscMin (relay_time_fast_returns float_pow)
              st d Hok) as (child & fchild & Ho).
  destruct Hok as (Hk & HI & Hpop & Hd).
  destruct Hd as (Hs1 & Hs2 & _ & _ & Hcp & _).
  assert (Hc : (cp d <= Nv relays)%nat) by lia.
  destruct (offspring_child _ cfg _ _ _ _ _ _ _ Hpop Hc Ho) as [Lc _].
  destruct Hpop as [Hlen Hrows].
  assert (Hpos : (0 < List.length (X st))%nat) by lia.
  destruct (getlast_total (X st) Hpos) as [worst Hw].
  exists child, fchild, worst.
  rewrite (generation_fast_unfold st d child fchild worst Ho Hw).
  set (X1 := if ltb fchild (fit worst)
             then if duplicate cfg relays child (X st)
                  then X st
                  else removelast (X st)
                         ++ [{| genes := child; fit := fchild |}]
             else X st).
  assert (P1 : population_ok cfg relays X1).
  { unfold X1. destruct (ltb fchild (fit worst)); [|split; assumption].
    destruct (duplicate cfg relays child (X st)); [split; assumption|].
    split.
    - rewrite removelast_app_length by exact Hpos. exact Hlen.
    - apply Forall_app. split.
      + apply removelast_Forall. exact Hrows.
      + constructor; [exact Lc | constructor]. }
  destruct P1 as [Hlen1 Hrows1].
  destruct (update_best_total (sort_by_fit X1) (X_best st) (stall st))
    as [st' Hu].
  { rewrite sort_by_fit_length. lia. }
  exists st'. repeat split; try assumption.
  - destruct (update_best_spec _ _ _ _ Hu) as (_ & _ & -> & _).
    rewrite sort_by_fit_length. exact Hlen1.
  - destruct (update_best_spec _ _ _ _ Hu) as (_ & _ & -> & _).
    apply sort_by_fit_Forall. exact Hrows1.
Qed.

End FastGeneration.

(** C2.  In a generation of the fast script, started on a sorted
    population: when the better child is strictly fitter than the worst row
    and is not a near-duplicate of any row, the new population is the old
    one with its last (worst) row replaced by the child, sorted again; in
    every other case the population is unchanged; its size stays [GA_Ni],
    and it is sorted again for the next generation. *)
Theorem replacement_gate
        (float_pow : Q -> Q -> option Q) (cfg : ga_config)
        (pairs : list pair) (relays : list string) (IscMin : list Q)
        (st : state) (d : gen_draws) :
  step_ok cfg pairs relays IscMin st d ->
  sorted (X st) ->
  exists child fchild worst st',
    offspring (GaOptimizationFast.relay_time float_pow) pairs relays IscMin
              (X st) d = Ok (child, fchild)
    /\ getlast (X st) = Ok worst
    /\ Forall (fun r => fit r <= fit worst) (X st)
    /\ GaOptimizationFast.generation float_pow cfg pairs relays IscMin st d
       = Ok st'
    /\ (fchild < fit worst /\ duplicate cfg relays child (X st) = false ->
        X st' = sort_by_fit (removelast (X st)
                               ++ [{| genes := child; fit := fchild |}]))
    /\ (~ (fchild < fit worst /\ duplicate cfg relays child (X st) = false)
        -> X st' = X st)
    /\ List.length (X st') = GA_Ni cfg
    /\ sorted (X st').
Proof.
  intros Hok Hs.
  destruct (generation_fast_total float_pow cfg pairs relays IscMin st d Hok)
    as (child & fchild & worst & st' & Ho & Hw & Hg & Hpop').
  exists child, fchild, worst, st'.
  split; [exact Ho|]. split; [exact Hw|].
  split; [apply sorted_last_worst; assumption|].
  split; [exact Hg|].
  rewrite (generation_fast_unfold float_pow cfg pairs relays IscMin
             st d child fchild worst Ho Hw) in Hg.
  destruct (update_best_spec _ _ _ _ Hg) as (_ & _ & HX & _).
  split; [|split].
  - intros [Hlt Hdup]. apply ltb_lt in Hlt.
    rewrite Hlt, Hdup in HX. exact HX.
  - intro Hn. rewrite HX.
    destruct (ltb fchild (fit worst)) eqn:L.
    + destruct (duplicate cfg relays child (X st)) eqn:D.
      * apply sort_by_fit_id. exact Hs.
      * exfalso. apply Hn. split; [apply ltb_lt; exact L | reflexivity].
    + apply sort_by_fit_id. exact Hs.
  - destruct Hpop' as [Hlen _]. split; [exact Hlen|].
    rewrite HX. apply sort_by_fit_sorted.
Qed.

Lemma generation_fast_best
      (float_pow : Q -> Q -> option Q) (cfg : ga_config)
      (pairs : list pair) (relays : list string) (IscMin : list Q)
      (st : state) (d : gen_draws) (st' : state) :
  step_ok cfg pairs relays IscMin st d ->
  GaOptimizationFast.generation float_pow cfg pairs relays IscMin st d
  = Ok st' ->
  fit (X_best st') <= fit (X_best st)
  /\ (X_best st' = X_best st
      \/ (getitem (X st') 0 = Ok (X_best st')
          /\ fit (X_best st') < fit (X_best st))).
Proof.
  intros Hok Hg.
  destruct (generation_fast_total float_pow cfg pairs relays IscMin st d Hok)
    as (child & fchild & worst & st1 & Ho & Hw & _ & _).
  rewrite (generation_fast_unfold float_pow cfg pairs relays IscMin
             st d child fchild worst Ho Hw) in Hg.
  destruct (update_best_spec _ _ _ _ Hg) as (top & Ht & HX & Hcase).
  destruct Hcase as [(Hlt & Hb & _) | (Hge & Hb & _)].
  - rewrite Hb. split; [lra|]. right. rewrite HX. split; assumption.
  - rewrite Hb. split; [lra|]. left. reflexivity.
Qed.

(** C3.  A generation of the fast script never raises the fitness of
    [X_best]: either [X_best] is kept, or it becomes the first row of the
    sorted population, whose fitness is strictly lower. *)
Theorem best_fitness_nonincreasing
        (float_pow : Q -> Q -> option Q) (cfg : ga_config)
        (pairs : list pair) (relays : list string) (IscMin : list Q)
        (st : state) (d : gen_draws) :
  step_ok cfg pairs relays IscMin st d ->
  exists st',
    GaOptimizationFast.generation float_pow cfg pairs relays IscMin st d
    = Ok st'
    /\ fit (X_best st') <= fit (X_best st)
    /\ (X_best st' = X_best st
        \/ (getitem (X st') 0 = Ok (X_best st')
            /\ fit (X_best st') < fit (X_best st))).
Proof.
  intro Hok.
  destruct (generation_fast_total float_pow cfg pairs relays IscMin st d Hok)
    as (child & fchild & worst & st' & _ & _ & Hg & _).
  exists st'. split; [exact Hg|].
  apply (generation_fast_best float_pow cfg pairs relays IscMin st d st'
           Hok Hg).
Qed.

(** In the fast script the stall counter is updated in every generation:
    reset to [0] when the first row of the sorted population improves on
    [X_best], incremented by one otherwise. *)
Lemma stall_every_generation_fast
      (float_pow : Q -> Q -> option Q) (cfg : ga_config)
      (pairs : list pair) (relays : list string) (IscMin : list Q)
      (st : state) (d : gen_draws) :
  step_ok cfg pairs relays IscMin st d ->
  exists st' top,
    GaOptimizationFast.generation float_pow cfg pairs relays IscMin st d
    = Ok st'
    /\ getitem (X st') 0 = Ok top
    /\ (fit top < fit (X_best st) ->
        X_best st' = top /\ stall st' = 0%nat)
    /\ (~ fit top < fit (X_best st) ->
        X_best st' = X_best st /\ stall st' = S (stall st)).
Proof.
  intro Hok.
  destruct (generation_fast_total float_pow cfg pairs relays IscMin st d Hok)
    as (child & fchild & worst & st' & Ho & Hw & Hg & _).
  exists st'.
  rewrite (generation_fast_unfold float_pow cfg pairs relays IscMin
             st d child fchild worst Ho Hw) in Hg.
  destruct (update_best_spec _ _ _ _ Hg) as (top & Ht & HX & Hcase).
  exists top. rewrite HX.
  rewrite <- (generation_fast_unfold float_pow cfg pairs relays IscMin
                st d child fchild worst Ho Hw) in Hg.
  split; [exact Hg|]. split; [exact Ht|].
  destruct Hcase as [(Hlt & Hb & Hs) | (Hge & Hb & Hs)]; split; intro H;
    try (split; assumption); exfalso; lra.
Qed.

(** ** Genes stay within their bounds *)

Lemma sample_gene_range (lo hi r : Q) :
  lo <= hi -> 0 <= r -> r <= 1 ->
  lo <= sample_gene lo hi r /\ sample_gene lo hi r <= hi.
Proof.
  intros Hb H0 H1. unfold sample_gene.
  assert (P : 0 <= r * (hi - lo)) by (apply Qmult_le_0_compat; lra).
  assert (U : 0 <= (1 - r) * (hi - lo)) by (apply Qmult_le_0_compat; lra).
  split; [lra|].
  assert (E : hi - (lo + r * (hi - lo)) == (1 - r) * (hi - lo)) by ring.
  lra.
Qed.

Lemma nth_map_lt {A B} (f : A -> B) (l : list A) (k : nat) (dA : A) (dB : B) :
  (k < List.length l)%nat -> nth k (map f l) dB = f (nth k l dA).
Proof.
  intro H. rewrite (nth_indep _ dB (f dA)) by (rewrite length_map; exact H).
  apply map_nth.
Qed.

Section BoundsFacts.

Variable relays : list string.
Variable IscMin : list Q.
Hypothesis IscMin_length : List.length IscMin = nR relays.
Hypothesis IscMin_valid : bounds_valid IscMin.

Lemma xmin_le_xmax (j : nat) :
  (j < Nv relays)%nat ->
  nth j (xmin relays) 0 <= nth j (xmax relays IscMin) 0.
Proof.
  intro Hj. unfold xmin, xmax, Nv in *.
  destruct (Nat.lt_ge_cases j (nR relays)) as [L|G].
  - rewrite !app_nth1 by (rewrite repeat_length; exact L).
    rewrite !nth_repeat_lt by exact L. unfold MIN_TDS, MAX_TDS. lra.
  - rewrite !app_nth2 by (rewrite repeat_length; exact G).
    rewrite !repeat_length.
    rewrite nth_repeat_lt by lia.
    rewrite (nth_map_lt _ _ _ 0) by lia.
    unfold bounds_valid in IscMin_valid. rewrite Forall_forall in IscMin_valid.
    apply IscMin_valid. apply nth_In. lia.
Qed.

(** Every initial individual lies within the bounds. *)
Lemma random_individual_in_bounds (u : nat -> Q) :
  (forall j, 0 <= u j /\ u j < 1) ->
  in_bounds relays IscMin (random_individual relays IscMin u).
Proof.
  intros Hu j Hj. unfold random_individual.
  rewrite (nth_map_lt _ _ _ 0%nat) by (rewrite length_seq; exact Hj).
  rewrite seq_nth by exact Hj. simpl.
  destruct (Hu j) as [H0 H1].
  apply sample_gene_range; [apply xmin_le_xmax; exact Hj | lra | lra].
Qed.

(** Crossover of two in-bounds parents is in bounds. *)
Lemma crossover_in_bounds (P1 P2 : list Q) (c : nat) :
  (c <= List.length P1)%nat ->
  in_bounds relays IscMin P1 -> in_bounds relays IscMin P2 ->
  in_bounds relays IscMin (firstn c P1 ++ skipn c P2).
Proof.
  intros Hc B1 B2 j Hj. rewrite crossover_nth by exact Hc.
  destruct (j <? c)%nat; [apply B1 | apply B2]; exact Hj.
Qed.

(** Mutation resets genes to values within the bounds. *)
Lemma mutate_in_bounds (ms : list (nat * Q)) :
  Forall (fun mr => (fst mr < Nv relays)%nat
                    /\ 0 <= snd mr /\ snd mr < 1) ms ->
  forall child child',
    in_bounds relays IscMin child ->
    mutate relays IscMin child ms = Ok child' ->
    in_bounds relays IscMin child'.
Proof.
  induction ms as [|[m r] ms IH]; intros Hms child child' B H; simpl in H.
  - inv_ok H. exact B.
  - inversion Hms as [|? ? [Hm [H0 H1]] Hms']; subst. simpl in Hm, H0, H1.
    inv_bind H. inv_bind H. inv_bind H.
    rename a into lo, a0 into hi, a1 into c1.
    apply (IH Hms' c1 child'); [|exact H].
    intros j Hj. rewrite (setitem_nth _ _ _ j _ 0 E1).
    destruct (j =? m)%nat eqn:Ej.
    + apply Nat.eqb_eq in Ej. subst j.
      destruct (getitem_nth _ _ _ 0 E) as [_ <-].
      destruct (getitem_nth _ _ _ 0 E0) as [_ <-].
      apply sample_gene_range; [apply xmin_le_xmax; exact Hm | lra | lra].
    + apply B. exact Hj.
Qed.

End BoundsFacts.

(** ** Initialisation *)

Lemma random_individual_length (relays : list string) (IscMin : list Q)
      (u : nat -> Q) :
  List.length (random_individual relays IscMin u) = Nv relays.
Proof.
  unfold random_individual. rewrite length_map, length_seq. reflexivity.
Qed.

Section InitialFacts.

Variable relay_time : Q -> Q -> Q -> result Q.
Variable cfg : ga_config.
Variable pairs : list pair.
Variable relays : list string.
Variable IscMin : list Q.
Variable rnd : rng.

(** Each initial row holds the genes drawn for it. *)
Lemma initial_rows_genes (ks : list nat) :
  forall rows,
    initial_rows relay_time pairs relays IscMin rnd ks = Ok rows ->
    map genes rows
    = map (fun i => random_individual relays IscMin (init_u rnd i)) ks.
Proof.
  induction ks as [|i ks IH]; intros rows H; simpl in H.
  - inv_ok H. reflexivity.
  - inv_bind H. inv_bind H. inv_ok H. simpl. f_equal. apply IH. exact E0.
Qed.

Hypothesis relay_time_total :
  forall I PU TDS, exists t, relay_time I PU TDS = Ok t.
Hypothesis pairs_ok : pairs_known pairs relays.

Lemma initial_rows_total (ks : list nat) :
  exists rows, initial_rows relay_time pairs relays IscMin rnd ks = Ok rows.
Proof.
  induction ks as [|i ks [rows IH]]; simpl.
  - eauto.
  - destruct (@fitness_total relay_time relays
                (random_individual relays IscMin (init_u rnd i))
                relay_time_total
                (random_individual_length relays IscMin (init_u rnd i))
                pairs pairs_ok) as [f ->].
    simpl. rewrite IH. simpl. eauto.
Qed.

(** Initialisation completes with a full, sorted population whose rows
    carry the drawn genes, and [X_best] is one of them. *)
Lemma initial_state_total :
  (0 < GA_Ni cfg)%nat ->
  exists st0,
    initial_state relay_time cfg pairs relays IscMin rnd = Ok st0
    /\ population_ok cfg relays (X st0)
    /\ sorted (X st0)
    /\ Forall (fun r => exists i,
                   genes r = random_individual relays IscMin (init_u rnd i))
              (X st0)
    /\ In (X_best st0) (X st0)
    /\ stall st0 = 0%nat.
Proof.
  intro Hpos. unfold initial_state.
  destruct (initial_rows_total (seq 0 (GA_Ni cfg))) as [rows Hr].
  rewrite Hr. simpl.
  pose proof (initial_rows_genes _ _ Hr) as Hg.
  assert (Hlen : List.length rows = GA_Ni cfg).
  { rewrite <- (length_map genes), Hg, length_map, length_seq. reflexivity. }
  assert (Hrows : Forall (fun r => exists i,
                    genes r = random_individual relays IscMin (init_u rnd i))
                         rows).
  { rewrite Forall_forall. intros r Hin.
    apply (in_map genes) in Hin. rewrite Hg in Hin.
    apply in_map_iff in Hin. destruct Hin as (i & Hi & _). eauto. }
  destruct (@getitem_total _ (sort_by_fit rows) 0%nat) as [best Hb].
  { rewrite sort_by_fit_length. lia. }
  rewrite Hb. simpl. eexists. split; [reflexivity|]. simpl.
  split; [|split; [|split; [|split]]].
  - split.
    + rewrite sort_by_fit_length. exact Hlen.
    + apply sort_by_fit_Forall. eapply Forall_impl; [|exact Hrows].
      intros r [i ->]. apply random_individual_length.
  - apply sort_by_fit_sorted.
  - apply sort_by_fit_Forall. exact Hrows.
  - unfold getitem in Hb.
    destruct (nth_error (sort_by_fit rows) 0) eqn:En; [|discriminate].
    inv_ok Hb. eapply nth_error_In. exact En.
  - reflexivity.
Qed.

End InitialFacts.

(** ** Invariants of a run of the fast script *)

Section FastRun.

Variable float_pow : Q -> Q -> option Q.
Variable cfg : ga_config.
Variable pairs : list pair.
Variable relays : list string.
Variable IscMin : list Q.
Variable rnd : rng.

Hypothesis pairs_ok : pairs_known pairs relays.
Hypothesis IscMin_length : List.length IscMin = nR relays.
Hypothesis rnd_ok : rng_ok cfg relays rnd.

Lemma run_step_ok (st : state) (g : nat) :
  population_ok cfg relays (X st) ->
  step_ok cfg pairs relays IscMin st (gen_d rnd g).
Proof.
  intro Hpop. destruct rnd_ok as [_ Hd].
  split; [exact pairs_ok|]. split; [exact IscMin_length|].
  split; [exact Hpop | apply Hd].
Qed.

(** A property of states that every generation preserves holds after any
    number of generations, and the loop always completes. *)
Lemma evolve_fast_invariant (Inv : state -> Prop) :
  (forall st d st',
      step_ok cfg pairs relays IscMin st d -> Inv st ->
      GaOptimizationFast.generation float_pow cfg pairs relays IscMin st d
      = Ok st' -> Inv st') ->
  forall fuel gen st,
    population_ok cfg relays (X st) -> Inv st ->
    exists g st',
      GaOptimizationFast.evolve float_pow cfg pairs relays IscMin
                                rnd fuel gen st = Ok (g, st')
      /\ population_ok cfg relays (X st') /\ Inv st'.
Proof.
  intros Hpres fuel. induction fuel as [|fuel IH]; intros gen st Hpop Hinv.
  - simpl. eauto.
  - simpl.
    pose proof (run_step_ok st gen Hpop) as Hok.
    destruct (generation_fast_total float_pow cfg pairs relays IscMin
                st (gen_d rnd gen) Hok)
      as (child & fchild & worst & st1 & _ & _ & Hg & Hpop1).
    rewrite Hg. simpl.
    pose proof (Hpres _ _ _ Hok Hinv Hg) as Hinv1.
    destruct (Qeq_bool (fit (X_best st1)) 0.0); [eauto|].
    destruct (GA_iterno cfg <=? stall st1)%nat; [eauto|].
    apply IH; assumption.
Qed.

End FastRun.

Section FastBounds.

Variable float_pow : Q -> Q -> option Q.
Variable cfg : ga_config.
Variable pairs : list pair.
Variable relays : list string.
Variable IscMin : list Q.

Hypothesis IscMin_valid : bounds_valid IscMin.

Lemma getitem_Forall {A} (P : A -> Prop) (l : list A) (i : nat) (a : A) :
  Forall P l -> getitem l i = Ok a -> P a.
Proof.
  intros HF H. rewrite Forall_forall in HF. apply HF.
  unfold getitem in H. destruct (nth_error l i) eqn:E; [|discriminate].
  inv_ok H. eapply nth_error_In. exact E.
Qed.

(** The child offered for replacement lies within the bounds. *)
Lemma offspring_in_bounds (relay_time : Q -> Q -> Q -> result Q)
      (st : state) (d : gen_draws) (child : list Q) (fchild : Q) :
  step_ok cfg pairs relays IscMin st d ->
  pop_in_bounds relays IscMin (X st) ->
  offspring relay_time pairs relays IscMin (X st) d = Ok (child, fchild) ->
  in_bounds relays IscMin child.
Proof.
  intros (_ & HI & [_ Hrows] & Hd) HB H.
  destruct Hd as (_ & _ & _ & _ & Hcp & (_ & _ & Hm1) & (_ & _ & Hm2)).
  unfold offspring in H.
  inv_bind H. inv_bind H. inv_bind H. inv_bind H. inv_bind H. inv_bind H.
  rename a into r1, a0 into r2, a1 into H1, a2 into H2.
  pose proof (getitem_Forall _ _ _ _ Hrows E) as L1.
  pose proof (getitem_Forall _ _ _ _ Hrows E0) as L2.
  pose proof (getitem_Forall _ _ _ _ HB E) as B1.
  pose proof (getitem_Forall _ _ _ _ HB E0) as B2.
  cbv beta in L1, L2, B1, B2.
  assert (K1 : (cp d <= List.length (genes r1))%nat) by lia.
  assert (K2 : (cp d <= List.length (genes r2))%nat) by lia.
  assert (C1 : in_bounds relays IscMin H1).
  { apply (mutate_in_bounds relays IscMin HI IscMin_valid (mut1 d) Hm1
             _ _ (crossover_in_bounds relays IscMin _ _ (cp d) K1 B1 B2)
             E1). }
  assert (C2 : in_bounds relays IscMin H2).
  { apply (mutate_in_bounds relays IscMin HI IscMin_valid (mut2 d) Hm2
             _ _ (crossover_in_bounds relays IscMin _ _ (cp d) K2 B2 B1)
             E2). }
  destruct (ltb a4 a3); inv_ok H; assumption.
Qed.

(** A generation of the fast script keeps the population within the
    bounds. *)
Lemma generation_fast_in_bounds (st : state) (d : gen_draws) (st' : state) :
  step_ok cfg pairs relays IscMin st d ->
  pop_in_bounds relays IscMin (X st) ->
  GaOptimizationFast.generation float_pow cfg pairs relays IscMin st d
  = Ok st' ->
  pop_in_bounds relays IscMin (X st').
Proof.
  intros Hok HB Hg.
  destruct (generation_fast_total float_pow cfg pairs relays IscMin st d Hok)
    as (child & fchild & worst & st1 & Ho & Hw & Hg1 & _).
  clear Hg1.
  pose proof (offspring_in_bounds _ st d child fchild Hok HB Ho) as Bc.
  rewrite (generation_fast_unfold float_pow cfg pairs relays IscMin
             st d child fchild worst Ho Hw) in Hg.
  destruct (update_best_spec _ _ _ _ Hg) as (_ & _ & HX & _).
  rewrite HX. apply sort_by_fit_Forall.
  destruct (ltb fchild (fit worst)); [|exact HB].
  destruct (duplicate cfg relays child (X st)); [exact HB|].
  apply Forall_app. split.
  - apply removelast_Forall. exact HB.
  - constructor; [exact Bc | constructor].
Qed.

End FastBounds.

(** C4, as the code has it.  When every pickup interval is non-empty
    ([MIN_PICKUP <= MAX_PICKUP_FACTOR * IscMin[i]] for every relay), the
    initial population of the fast script and the population after any
    number of generations have every gene [j] within
    [[xmin[j], xmax[j]]]. *)
Theorem genes_within_bounds
        (float_pow : Q -> Q -> option Q) (cfg : ga_config)
        (pairs : list pair) (relays : list string) (IscMin : list Q)
        (rnd : rng) (fuel : nat) :
  pairs_known pairs relays ->
  List.length IscMin = nR relays ->
  bounds_valid IscMin ->
  rng_ok cfg relays rnd ->
  exists st0 gen st,
    initial_state (GaOptimizationFast.relay_time float_pow)
                  cfg pairs relays IscMin rnd = Ok st0
    /\ pop_in_bounds relays IscMin (X st0)
    /\ GaOptimizationFast.evolve float_pow cfg pairs relays IscMin
                                 rnd fuel 1 st0 = Ok (gen, st)
    /\ pop_in_bounds relays IscMin (X st).
Proof.
  intros Hk HI Hv Hrng.
  assert (Hpos : (0 < GA_Ni cfg)%nat).
  { destruct Hrng as [_ Hd]. destruct (Hd 0%nat) as (Hs1 & _). lia. }
  destruct (initial_state_total
              (GaOptimizationFast.relay_time float_pow) cfg pairs relays
              IscMin rnd (relay_time_fast_returns float_pow) Hk Hpos)
    as (st0 & H0 & Hpop0 & _ & Hgenes & _).
  assert (B0 : pop_in_bounds relays IscMin (X st0)).
  { eapply Forall_impl; [|exact Hgenes].
    intros r [i ->].
    apply (random_individual_in_bounds relays IscMin HI Hv).
    destruct Hrng as [Hu _]. apply Hu. }
  destruct (evolve_fast_invariant float_pow cfg pairs relays IscMin rnd
              Hk HI Hrng
              (fun st => pop_in_bounds relays IscMin (X st))
              (fun st d st' Hok Hin Hg =>
                 generation_fast_in_bounds float_pow cfg pairs relays
                   IscMin Hv st d st' Hok Hin Hg)
              fuel 1%nat st0 Hpop0 B0)
    as (gen & st & He & _ & B).
  exists st0, gen, st. auto.
Qed.

(** ** The example data are admissible *)

Lemma sorted_repeat (r : individual) (n : nat) : sorted (repeat r n).
Proof.
  unfold sorted. induction n as [|n IH]; simpl; [constructor|].
  constructor; [exact IH|].
  destruct n; simpl; constructor. unfold fit_le. lra.
Qed.

Lemma example_zero_muts_ok :
  muts_ok fast_config Example.relays [(0%nat, 0); (1%nat, 0)].
Proof.
  split; [reflexivity|]. split.
  - simpl. constructor.
    + simpl. intros [H|[]]. discriminate.
    + constructor; [simpl; tauto | constructor].
  - repeat constructor; simpl; try lia; lra.
Qed.

Lemma example_zero_draws_ok : draws_ok fast_config Example.relays Example.zero_draws.
Proof.
  unfold draws_ok. simpl.
  split; [lia|]. split; [lia|]. split; [lia|]. split; [lia|].
  split; [lia|]. split; exact example_zero_muts_ok.
Qed.

Lemma example_zero_rng_ok : rng_ok fast_config Example.relays Example.zero_rng.
Proof.
  split.
  - intros i j. simpl. lra.
  - intro g. exact example_zero_draws_ok.
Qed.

Lemma example_half_rng_ok : rng_ok fast_config Example.relays Example.half_rng.
Proof.
  split.
  - intros i j. simpl. lra.
  - intro g. exact example_zero_draws_ok.
Qed.

Lemma example_flat_population_ok (n : nat) :
  population_ok fast_config Example.relays (X (Example.flat_state n)).
Proof.
  split.
  - reflexivity.
  - unfold Example.flat_state, X. rewrite Forall_forall. intros r Hin.
    apply repeat_spec in Hin. subst r. reflexivity.
Qed.

Lemma example_step_ok (n : nat) :
  step_ok fast_config Example.pairs Example.relays Example.IscMin
          (Example.flat_state n) Example.zero_draws.
Proof.
  split; [exact example_pairs_known|]. split; [reflexivity|].
  split; [apply example_flat_population_ok | exact example_zero_draws_ok].
Qed.

Lemma example_bounds_valid : bounds_valid Example.IscMin.
Proof.
  unfold bounds_valid, Example.IscMin, MIN_PICKUP, MAX_PICKUP_FACTOR.
  repeat constructor; lra.
Qed.

Lemma low_pairs_known : pairs_known Example.low_pairs Example.relays.
Proof.
  intros p [<-|[]]. simpl. split.
  - left. reflexivity.
  - right. left. reflexivity.
Qed.

(** ** Instances of the properties of a generation *)

Lemma replacement_gate_witness :
  step_ok fast_config Example.pairs Example.relays Example.IscMin
          (Example.flat_state 0) Example.zero_draws
  /\ sorted (X (Example.flat_state 0))
  /\ exists child fchild worst st',
      offspring (GaOptimizationFast.relay_time Example.linear_pow)
                Example.pairs Example.relays Example.IscMin
                (X (Example.flat_state 0)) Example.zero_draws
      = Ok (child, fchild)
      /\ getlast (X (Example.flat_state 0)) = Ok worst
      /\ Forall (fun r => fit r <= fit worst) (X (Example.flat_state 0))
      /\ GaOptimizationFast.generation
           Example.linear_pow fast_config Example.pairs Example.relays
           Example.IscMin (Example.flat_state 0) Example.zero_draws = Ok st'
      /\ (fchild < fit worst
          /\ duplicate fast_config Example.relays child
                       (X (Example.flat_state 0)) = false ->
          X st' = sort_by_fit
                    (removelast (X (Example.flat_state 0))
                       ++ [{| genes := child; fit := fchild |}]))
      /\ (~ (fchild < fit worst
             /\ duplicate fast_config Example.relays child
                          (X (Example.flat_state 0)) = false) ->
          X st' = X (Example.flat_state 0))
      /\ List.length (X st') = GA_Ni fast_config
      /\ sorted (X st').
Proof.
  split; [apply example_step_ok|].
  split; [apply sorted_repeat|].
  apply replacement_gate; [apply example_step_ok | apply sorted_repeat].
Defined.

Lemma best_fitness_nonincreasing_witness :
  step_ok fast_config Example.pairs Example.relays Example.IscMin
          (Example.flat_state 0) Example.zero_draws
  /\ exists st',
      GaOptimizationFast.generation
        Example.linear_pow fast_config Example.pairs Example.relays
        Example.IscMin (Example.flat_state 0) Example.zero_draws = Ok st'
      /\ fit (X_best st') <= fit (X_best (Example.flat_state 0))
      /\ (X_best st' = X_best (Example.flat_state 0)
          \/ (getitem (X st') 0 = Ok (X_best st')
              /\ fit (X_best st') < fit (X_best (Example.flat_state 0)))).
Proof.
  split; [apply example_step_ok|].
  apply best_fitness_nonincreasing. apply example_step_ok.
Defined.

Lemma genes_within_bounds_witness :
  pairs_known Example.pairs Example.relays
  /\ List.length Example.IscMin = nR Example.relays
  /\ bounds_valid Example.IscMin
  /\ rng_ok fast_config Example.relays Example.zero_rng
  /\ exists st0 gen st,
      initial_state (GaOptimizationFast.relay_time Example.linear_pow)
                    fast_config Example.pairs Example.relays Example.IscMin
                    Example.zero_rng = Ok st0
      /\ pop_in_bounds Example.relays Example.IscMin (X st0)
      /\ GaOptimizationFast.evolve
           Example.linear_pow fast_config Example.pairs Example.relays
           Example.IscMin Example.zero_rng 5 1 st0 = Ok (gen, st)
      /\ pop_in_bounds Example.relays Example.IscMin (X st).
Proof.
  split; [exact example_pairs_known|]. split; [reflexivity|].
  split; [exact example_bounds_valid|].
  split; [exact example_zero_rng_ok|].
  apply genes_within_bounds;
    [exact example_pairs_known | reflexivity | exact example_bounds_valid
     | exact example_zero_rng_ok].
Defined.

(** With a fault current of [0.05] the derived pickup ceiling is
    [0.03 < MIN_PICKUP]; a draw of [0.5] then puts the pickup gene of R1
    at [0.04], above its upper bound, in every row of the initial
    population. *)
Lemma low_current_genes_out_of_bounds :
  pairs_known Example.low_pairs Example.relays
  /\ Extended.isc_loop Example.relays Example.low_pairs
                       (repeat Extended.PosInf 2)
     = Ok (map Extended.Fin Example.low_IscMin)
  /\ rng_ok fast_config Example.relays Example.half_rng
  /\ exists st0,
      initial_state (GaOptimizationFast.relay_time Example.linear_pow)
                    fast_config Example.low_pairs Example.relays
                    Example.low_IscMin Example.half_rng = Ok st0
      /\ ~ pop_in_bounds Example.relays Example.low_IscMin (X st0).
Proof.
  split; [exact low_pairs_known|]. split; [reflexivity|].
  split; [exact example_half_rng_ok|].
  assert (Hpos : (0 < GA_Ni fast_config)%nat) by (simpl; lia).
  assert (H2 : (2 < Nv Example.relays)%nat) by (unfold Nv, nR; simpl; lia).
  destruct (initial_state_total
              (GaOptimizationFast.relay_time Example.linear_pow)
              fast_config Example.low_pairs Example.relays
              Example.low_IscMin Example.half_rng
              (relay_time_fast_returns Example.linear_pow)
              low_pairs_known Hpos)
    as (st0 & H0 & [Hlen _] & _ & Hgenes & _).
  exists st0. split; [exact H0|].
  intro HB. destruct (X st0) as [|r rows]; [simpl in Hlen; discriminate|].
  inversion HB as [|? ? Hr _]; subst.
  inversion Hgenes as [|? ? [i Hi] _]; subst.
  rewrite Hi in Hr.
  destruct (Hr 2%nat H2) as [_ Hup].
  vm_compute in Hup. apply Hup. reflexivity.
Qed.

(** ** The generation of optimize_all_scenarios.py *)

Section AllGeneration.

Variable float_pow : Q -> Q -> option Q.
Variable cfg : ga_config.
Variable pairs : list pair.
Variable relays : list string.
Variable IscMin : list Q.

Lemma generation_all_unfold (st : state) (d : gen_draws)
      (child : list Q) (fchild : Q) (worst : individual) :
  offspring (OptimizeAllScenarios.relay_time float_pow) pairs relays IscMin
            (X st) d = Ok (child, fchild) ->
  getlast (X st) = Ok worst ->
  OptimizeAllScenarios.generation float_pow cfg pairs relays IscMin st d
  = if ltb fchild (fit worst) && negb (duplicate cfg relays child (X st))
    then update_best
           (sort_by_fit (removelast (X st)
                           ++ [{| genes := child; fit := fchild |}]))
           (X_best st) (stall st)
    else Ok st.
Proof.
  intros Ho Hw. unfold OptimizeAllScenarios.generation.
  rewrite Ho. simpl. rewrite Hw. simpl.
  destruct (ltb fchild (fit worst)); [|reflexivity].
  destruct (duplicate cfg relays child (X st)); [reflexivity|].
  simpl. rewrite (setlast_spec _ _ _ Hw). reflexivity.
Qed.

(** When nothing is replaced the whole state is left as it is: [stall] is
    not incremented. *)
Lemma generation_all_gate_closed (st : state) (d : gen_draws)
      (child : list Q) (fchild : Q) (worst : individual) :
  offspring (OptimizeAllScenarios.relay_time float_pow) pairs relays IscMin
            (X st) d = Ok (child, fchild) ->
  getlast (X st) = Ok worst ->
  ~ (fchild < fit worst /\ duplicate cfg relays child (X st) = false) ->
  OptimizeAllScenarios.generation float_pow cfg pairs relays IscMin st d
  = Ok st.
Proof.
  intros Ho Hw Hn.
  rewrite (generation_all_unfold st d child fchild worst Ho Hw).
  destruct (ltb fchild (fit worst)) eqn:L; [|reflexivity].
  destruct (duplicate cfg relays child (X st)) eqn:D; [reflexivity|].
  exfalso. apply Hn. split; [apply ltb_lt; exact L | reflexivity].
Qed.

(** Whenever a generation of this script returns, the fitness of [X_best]
    has not increased. *)
Lemma generation_all_best (st : state) (d : gen_draws) (st' : state) :
  OptimizeAllScenarios.generation float_pow cfg pairs relays IscMin st d
  = Ok st' ->
  fit (X_best st') <= fit (X_best st).
Proof.
  unfold OptimizeAllScenarios.generation. intro H.
  inv_bind H. inv_bind H.
  destruct (ltb (snd a) (fit a0)).
  - destruct (duplicate cfg relays (fst a) (X st)).
    + inv_ok H. lra.
    + inv_bind H.
      destruct (update_best_spec _ _ _ _ H)
        as (top & _ & _ & [(Hlt & -> & _) | (_ & -> & _)]); lra.
  - inv_ok H. lra.
Qed.

End AllGeneration.

(** C7.  optimize_all_scenarios.py, on the state reached after
    initialisation with draws that are all [0.0]: the better child is not
    fitter than the worst row, nothing is replaced, and the generation
    returns the state unchanged, with [stall] still [0]; the fast script
    moves [stall] to [1] on the same state and draws. *)
Theorem stall_frozen_without_replacement :
  initial_state (OptimizeAllScenarios.relay_time Example.linear_pow)
                full_config Example.pairs Example.relays Example.IscMin
                Example.zero_rng = Ok (Example.flat_state 0)
  /\ OptimizeAllScenarios.generation
       Example.linear_pow full_config Example.pairs Example.relays
       Example.IscMin (Example.flat_state 0) Example.zero_draws
     = Ok (Example.flat_state 0)
  /\ GaOptimizationFast.generation
       Example.linear_pow fast_config Example.pairs Example.relays
       Example.IscMin (Example.flat_state 0) Example.zero_draws
     = Ok (Example.flat_state 1).
Proof.
  split; [vm_compute; reflexivity|].
  split; vm_compute; reflexivity.
Qed.

(** ** Near-duplicates *)

Lemma near_sym (relays : list string) (a b : list Q) :
  near relays a b = near relays b a.
Proof.
  unfold near. induction (seq 0 (Nv relays)) as [|j l IH]; cbn [forallb].
  - reflexivity.
  - rewrite (Qabs_Qminus (nth j a 0) (nth j b 0)), IH. reflexivity.
Qed.

Section OrderedPairs.

Variable A : Type.
Variable R : A -> A -> Prop.
Hypothesis R_sym : forall a b, R a b -> R b a.

Lemma FOP_perm (l l' : list A) :
  Permutation l l' -> ForallOrdPairs R l -> ForallOrdPairs R l'.
Proof.
  induction 1 as [|x l l' Hp IH|x y l|l l' l'' _ IH1 _ IH2]; intro H.
  - exact H.
  - inversion H as [|? ? Hx Hl]; subst. constructor.
    + eapply Permutation_Forall; [exact Hp | exact Hx].
    + apply IH. exact Hl.
  - inversion H as [|? ? Hy Hxl]; subst.
    inversion Hxl as [|? ? Hx Hl]; subst.
    inversion Hy as [|? ? Hyx Hyl]; subst.
    constructor; [constructor; [apply R_sym; exact Hyx | exact Hx]|].
    constructor; assumption.
  - apply IH2, IH1, H.
Qed.

Lemma FOP_removelast (l : list A) :
  ForallOrdPairs R l -> ForallOrdPairs R (removelast l).
Proof.
  induction 1 as [|a l Ha Hl IH]; [constructor|].
  destruct l as [|b l]; [constructor|].
  change (removelast (a :: b :: l)) with (a :: removelast (b :: l)).
  constructor; [apply removelast_Forall; exact Ha | exact IH].
Qed.

Lemma FOP_snoc (l : list A) (c : A) :
  ForallOrdPairs R l -> Forall (fun y => R y c) l ->
  ForallOrdPairs R (l ++ [c]).
Proof.
  induction 1 as [|a l Ha Hl IH]; intro Hc; simpl.
  - repeat constructor.
  - inversion Hc as [|? ? Hac Hlc]; subst. constructor.
    + apply Forall_app. split; [exact Ha | constructor; [exact Hac|constructor]].
    + apply IH. exact Hlc.
Qed.

Lemma FOP_nth (l : list A) :
  ForallOrdPairs R l ->
  forall i k a b, i <> k -> nth_error l i = Some a ->
                  nth_error l k = Some b -> R a b.
Proof.
  induction 1 as [|x l Hx Hl IH]; intros i k a b Hne Hi Hk.
  - destruct i; discriminate.
  - rewrite Forall_forall in Hx.
    destruct i as [|i]; destruct k as [|k]; simpl in Hi, Hk.
    + congruence.
    + injection Hi as <-. apply Hx. eapply nth_error_In. exact Hk.
    + injection Hk as <-. apply R_sym, Hx. eapply nth_error_In. exact Hi.
    + apply (IH i k); [congruence | exact Hi | exact Hk].
Qed.

Lemma nth_FOP (l : list A) :
  (forall i k a b, i <> k -> nth_error l i = Some a ->
                   nth_error l k = Some b -> R a b) ->
  ForallOrdPairs R l.
Proof.
  induction l as [|x l IH]; intro H; [constructor|].
  constructor.
  - rewrite Forall_forall. intros y Hy.
    destruct (In_nth_error _ _ Hy) as [k Hk].
    apply (H 0%nat (S k)); [discriminate | reflexivity | exact Hk].
  - apply IH. intros i k a b Hne Hi Hk.
    apply (H (S i) (S k)); [congruence | exact Hi | exact Hk].
Qed.

End OrderedPairs.

Section FastDuplicates.

Variable float_pow : Q -> Q -> option Q.
Variable cfg : ga_config.
Variable pairs : list pair.
Variable relays : list string.
Variable IscMin : list Q.

Lemma far_sym (a b : individual) :
  near relays (genes a) (genes b) = false ->
  near relays (genes b) (genes a) = false.
Proof. intro H. rewrite near_sym. exact H. Qed.

Lemma no_near_duplicates_FOP (pop : list individual) :
  no_near_duplicates relays pop
  <-> ForallOrdPairs
        (fun a b => near relays (genes a) (genes b) = false) pop.
Proof.
  split; intro H.
  - apply nth_FOP. exact H.
  - intros i k ri rk.
    apply (FOP_nth _ _ far_sym pop H).
Qed.

(** A child that passed the duplicate test is far from every row. *)
Lemma duplicate_false_far (child : list Q) (pop : list individual) :
  List.length pop = GA_Ni cfg ->
  duplicate cfg relays child pop = false ->
  Forall (fun y => near relays (genes y) child = false) pop.
Proof.
  intros Hlen H. unfold duplicate in H.
  rewrite <- Hlen, firstn_all in H.
  rewrite Forall_forall. intros y Hy.
  rewrite near_sym.
  destruct (near relays child (genes y)) eqn:E; [|reflexivity].
  assert (T : existsb (fun row => near relays child (genes row)) pop = true).
  { apply existsb_exists. exists y. split; assumption. }
  congruence.
Qed.

(** A generation of the fast script never creates a near-duplicate. *)
Lemma generation_fast_no_duplicates (st : state) (d : gen_draws)
      (st' : state) :
  step_ok cfg pairs relays IscMin st d ->
  no_near_duplicates relays (X st) ->
  GaOptimizationFast.generation float_pow cfg pairs relays IscMin st d
  = Ok st' ->
  no_near_duplicates relays (X st').
Proof.
  intros Hok Hnd Hg.
  destruct (generation_fast_total float_pow cfg pairs relays IscMin st d Hok)
    as (child & fchild & worst & st1 & Ho & Hw & _ & _).
  rewrite (generation_fast_unfold float_pow cfg pairs relays IscMin
             st d child fchild worst Ho Hw) in Hg.
  destruct (update_best_spec _ _ _ _ Hg) as (_ & _ & HX & _).
  rewrite HX. apply no_near_duplicates_FOP.
  apply (FOP_perm _ _ far_sym) with
    (l := if ltb fchild (fit worst)
          then if duplicate cfg relays child (X st)
               then X st
               else removelast (X st)
                      ++ [{| genes := child; fit := fchild |}]
          else X st).
  { apply Permutation_sym, sort_by_fit_perm. }
  apply no_near_duplicates_FOP in Hnd.
  destruct (ltb fchild (fit worst)); [|exact Hnd].
  destruct (duplicate cfg relays child (X st)) eqn:D; [exact Hnd|].
  apply FOP_snoc.
  - apply FOP_removelast. exact Hnd.
  - apply removelast_Forall.
    destruct Hok as (_ & _ & [Hlen _] & _).
    apply (duplicate_false_far child (X st) Hlen D).
Qed.

End FastDuplicates.

(** C9, as the code has it.  In the fast script, if the sorted initial
    population has no two rows with all [Nv] genes within [1e-12] of each
    other, then neither has the population after any number of
    generations: no near-duplicate is ever let in.  The initial
    rows themselves are not tested. *)
Theorem no_duplicates_preserved
        (float_pow : Q -> Q -> option Q) (cfg : ga_config)
        (pairs : list pair) (relays : list string) (IscMin : list Q)
        (rnd : rng) (fuel : nat) (st0 : state) :
  pairs_known pairs relays ->
  List.length IscMin = nR relays ->
  rng_ok cfg relays rnd ->
  initial_state (GaOptimizationFast.relay_time float_pow)
                cfg pairs relays IscMin rnd = Ok st0 ->
  no_near_duplicates relays (X st0) ->
  exists gen st,
    GaOptimizationFast.evolve float_pow cfg pairs relays IscMin
                              rnd fuel 1 st0 = Ok (gen, st)
    /\ no_near_duplicates relays (X st).
Proof.
  intros Hk HI Hrng H0 Hnd.
  assert (Hpos : (0 < GA_Ni cfg)%nat).
  { destruct Hrng as [_ Hd]. destruct (Hd 0%nat) as (Hs1 & _). lia. }
  destruct (initial_state_total
              (GaOptimizationFast.relay_time float_pow) cfg pairs relays
              IscMin rnd (relay_time_fast_returns float_pow) Hk Hpos)
    as (st1 & H1 & Hpop0 & _).
  rewrite H0 in H1. injection H1 as <-.
  destruct (evolve_fast_invariant float_pow cfg pairs relays IscMin rnd
              Hk HI Hrng
              (fun st => no_near_duplicates relays (X st))
              (generation_fast_no_duplicates float_pow cfg pairs relays
                 IscMin)
              fuel 1%nat st0 Hpop0 Hnd)
    as (gen & st & He & _ & Hfin).
  exists gen, st. auto.
Qed.

Lemma all_far_spec (relays : list string) (pop : list individual) :
  all_far relays pop = true -> no_near_duplicates relays pop.
Proof.
  intro H. apply no_near_duplicates_FOP.
  induction pop as [|r l IH]; [constructor|].
  simpl in H. apply andb_true_iff in H. destruct H as [Hr Hl].
  constructor; [|apply IH; exact Hl].
  rewrite forallb_forall in Hr. rewrite Forall_forall. intros y Hy.
  specialize (Hr y Hy). apply negb_true_iff in Hr. exact Hr.
Qed.

Lemma example_spread_rng_ok :
  rng_ok fast_config Example.relays Example.spread_rng.
Proof.
  split.
  - intros i j. cbn [init_u Example.spread_rng].
    assert (M : (i mod 97 < 97)%nat) by (apply Nat.mod_upper_bound; lia).
    set (k := (i mod 97)%nat) in *.
    unfold Qle, Qlt. cbn [Qnum Qden]. lia.
  - intro g. exact example_zero_draws_ok.
Qed.

Lemma no_duplicates_preserved_witness :
  pairs_known Example.pairs Example.relays
  /\ List.length Example.IscMin = nR Example.relays
  /\ rng_ok fast_config Example.relays Example.spread_rng
  /\ initial_state (GaOptimizationFast.relay_time Example.linear_pow)
                   fast_config Example.pairs Example.relays Example.IscMin
                   Example.spread_rng = Ok Example.spread_state
  /\ no_near_duplicates Example.relays (X Example.spread_state)
  /\ exists gen st,
      GaOptimizationFast.evolve
        Example.linear_pow fast_config Example.pairs Example.relays
        Example.IscMin Example.spread_rng 5 1 Example.spread_state
      = Ok (gen, st)
      /\ no_near_duplicates Example.relays (X st).
Proof.
  assert (H0 : initial_state
                 (GaOptimizationFast.relay_time Example.linear_pow)
                 fast_config Example.pairs Example.relays Example.IscMin
                 Example.spread_rng = Ok Example.spread_state)
    by (vm_compute; reflexivity).
  assert (Hnd : no_near_duplicates Example.relays (X Example.spread_state))
    by (apply all_far_spec; vm_compute; reflexivity).
  split; [exact example_pairs_known|]. split; [reflexivity|].
  split; [exact example_spread_rng_ok|].
  split; [exact H0|]. split; [exact Hnd|].
  apply (no_duplicates_preserved
           Example.linear_pow fast_config Example.pairs Example.relays
           Example.IscMin Example.spread_rng 5 Example.spread_state
           example_pairs_known eq_refl example_spread_rng_ok H0 Hnd).
Defined.

(** Under draws that are all [0.0] the run of the fast script never
    changes its population. *)
Lemma flat_generation (n : nat) :
  GaOptimizationFast.generation
    Example.linear_pow fast_config Example.pairs Example.relays
    Example.IscMin (Example.flat_state n) Example.zero_draws
  = Ok (Example.flat_state (S n)).
Proof. vm_compute. reflexivity. Qed.

Lemma flat_evolve (fuel : nat) :
  forall gen n, exists g m,
      GaOptimizationFast.evolve
        Example.linear_pow fast_config Example.pairs Example.relays
        Example.IscMin Example.zero_rng fuel gen (Example.flat_state n)
      = Ok (g, Example.flat_state m).
Proof.
  induction fuel as [|fuel IH]; intros gen n.
  - simpl. eauto.
  - cbn [GaOptimizationFast.evolve].
    change (gen_d Example.zero_rng gen) with Example.zero_draws.
    rewrite flat_generation. cbn [Py.bind].
    assert (Z : Qeq_bool (fit (X_best (Example.flat_state (S n)))) 0.0
                = false) by reflexivity.
    rewrite Z.
    destruct (GA_iterno fast_config <=? stall (Example.flat_state (S n)))%nat;
      [eauto | apply IH].
Qed.

(** The run of the fast script on the example scenario, with draws that
    are all [0.0], ends with a population whose rows are all the same:
    initial rows are never tested for duplicates. *)
Lemma initial_duplicates_survive :
  pairs_known Example.pairs Example.relays
  /\ rng_ok fast_config Example.relays Example.zero_rng
  /\ exists gen st,
      GaOptimizationFast.search
        Example.linear_pow fast_config Example.pairs Example.relays
        Example.IscMin Example.zero_rng = Ok (gen, st)
      /\ ~ no_near_duplicates Example.relays (X st).
Proof.
  split; [exact example_pairs_known|].
  split; [exact example_zero_rng_ok|].
  unfold GaOptimizationFast.search.
  assert (H0 : initial_state
                 (GaOptimizationFast.relay_time Example.linear_pow)
                 fast_config Example.pairs Example.relays Example.IscMin
                 Example.zero_rng = Ok (Example.flat_state 0))
    by (vm_compute; reflexivity).
  rewrite H0. cbn [Py.bind].
  destruct (flat_evolve (GA_maxGen fast_config) 1 0) as (g & m & He).
  exists g, (Example.flat_state m). split; [exact He|].
  intro Hnd.
  assert (F : near Example.relays (genes Example.flat_row)
                   (genes Example.flat_row) = false).
  { apply (Hnd 0%nat 1%nat); [discriminate | reflexivity | reflexivity]. }
  vm_compute in F. discriminate.
Qed.

(** ** Scenarios without relays or without pairs *)

Lemma relay_time_below_pickup_witness :
  100 <= 200
  /\ GaOptimizationFast.relay_time Example.linear_pow 100 200 0.5
     = Ok (MAX_TIME * 10.0)
  /\ OptimizeAllScenarios.relay_time Example.linear_pow 100 200 0.5
     = Ok (MAX_TIME * 10.0).
Proof.
  assert (H : 100 <= 200) by lra.
  split; [exact H|].
  apply (relay_time_below_pickup Example.linear_pow 100 200 0.5 H).
Defined.


Lemma extended_guard (float_pow : Q -> Q -> option Q)
      (which : Extended.script) (scenario : scenario_data) (rnd : rng) :
  filter nonblank (data_relays scenario) = [] ->
  Extended.genetic_algorithm float_pow which scenario rnd
  = Ok Extended.NoValidRelays.
Proof.
  intro H. unfold Extended.genetic_algorithm. rewrite H. reflexivity.
Qed.

(** The guard is the only way to the empty dictionary: once it is
    passed, the function either raises or returns after the loop. *)
Lemma extended_guard_only (float_pow : Q -> Q -> option Q)
      (which : Extended.script) (scenario : scenario_data) (rnd : rng) :
  Extended.genetic_algorithm float_pow which scenario rnd
  = Ok Extended.NoValidRelays ->
  filter nonblank (data_relays scenario) = [].
Proof.
  unfold Extended.genetic_algorithm. unfold nR.
  destruct (filter nonblank (data_relays scenario)) as [|r rs];
    [reflexivity|].
  simpl. intro H.
  inv_bind H. inv_bind H. inv_bind H. inv_bind H. discriminate.
Qed.

(** C8, as the code has it.  A scenario with no valid relay makes the
    optimisation function of either script return the empty dictionary
    at its guard, before any population exists.  A scenario with no valid
    relay or with no pair gets no settings from the batch loop of either
    script: the loop skips it without calling the function, or files it
    as failed after the function returned at its guard. *)
Theorem empty_scenario_not_searched
        (float_pow : Q -> Q -> option Q) (which : Extended.script)
        (scenario : scenario_data) (rnd : rng) :
  filter nonblank (data_relays scenario) = [] \/ data_pairs scenario = [] ->
  (filter nonblank (data_relays scenario) = [] ->
   exists r,
     Extended.genetic_algorithm float_pow which scenario rnd = Ok r
     /\ Extended.returned r = [] /\ Extended.searched r = false)
  /\ (Extended.optimize_scenario float_pow which scenario rnd
      = Extended.Skipped
      \/ (Extended.optimize_scenario float_pow which scenario rnd
          = Extended.Failed
          /\ Extended.genetic_algorithm float_pow which scenario rnd
             = Ok Extended.NoValidRelays)).
Proof.
  intro H. split.
  - intro Hr. exists Extended.NoValidRelays.
    rewrite (extended_guard float_pow which scenario rnd Hr). auto.
  - unfold Extended.optimize_scenario.
    destruct (Extended.admitted which scenario) eqn:V;
      [|left; reflexivity].
    right. destruct H as [Hr | Hp].
    + rewrite (extended_guard float_pow which scenario rnd Hr). auto.
    + unfold Extended.admitted, Extended.validate_scenario_data in V.
      rewrite Hp in V. destruct which; discriminate.
Qed.

Lemma empty_scenario_not_searched_witness :
  (filter nonblank (data_relays Example.blank_scenario) = []
   \/ data_pairs Example.blank_scenario = [])
  /\ (filter nonblank (data_relays Example.blank_scenario) = [] ->
      exists r,
        Extended.genetic_algorithm
          Example.linear_pow Extended.Fast Example.blank_scenario
          Example.zero_rng = Ok r
        /\ Extended.returned r = [] /\ Extended.searched r = false)
  /\ (Extended.optimize_scenario
        Example.linear_pow Extended.Fast Example.blank_scenario
        Example.zero_rng = Extended.Skipped
      \/ (Extended.optimize_scenario
            Example.linear_pow Extended.Fast Example.blank_scenario
            Example.zero_rng = Extended.Failed
          /\ Extended.genetic_algorithm
               Example.linear_pow Extended.Fast Example.blank_scenario
               Example.zero_rng = Ok Extended.NoValidRelays)).
Proof.
  assert (H : filter nonblank (data_relays Example.blank_scenario) = []
              \/ data_pairs Example.blank_scenario = [])
    by (left; reflexivity).
  split; [exact H|].
  apply (empty_scenario_not_searched
           Example.linear_pow Extended.Fast Example.blank_scenario
           Example.zero_rng H).
Defined.

(** Called on a scenario with one relay and no pair, the optimisation
    function of either script passes its guard, initialises a population
    of [GA_Ni] rows whose pickup gene is [inf], runs one generation and
    returns a dictionary with an entry for the relay. *)
Lemma pairless_scenario_is_searched :
  data_pairs Example.pairless_scenario = []
  /\ rng_ok fast_config (data_relays Example.pairless_scenario)
            Example.half_rng
  /\ (exists st optimized,
         Extended.genetic_algorithm
           Example.linear_pow Extended.Fast Example.pairless_scenario
           Example.half_rng = Ok (Extended.Finished 1 st optimized)
         /\ List.length (Extended.X st) = 80%nat
         /\ optimized
            = [("A"%string, (Extended.Fin 0.42500, Extended.PosInf))])
  /\ (exists st optimized,
         Extended.genetic_algorithm
           Example.linear_pow Extended.Full Example.pairless_scenario
           Example.half_rng = Ok (Extended.Finished 1 st optimized)
         /\ List.length (Extended.X st) = 80%nat
         /\ optimized
            = [("A"%string, (Extended.Fin 0.42500, Extended.PosInf))]).
Proof.
  split; [reflexivity|]. split.
  - split.
    + intros i j. simpl. lra.
    + intro g. unfold draws_ok. simpl.
      split; [lia|]. split; [lia|]. split; [lia|]. split; [lia|].
      split; [lia|].
      assert (M : muts_ok fast_config ["A"%string] [(0%nat, 0); (1%nat, 0)]).
      { split; [reflexivity|]. split.
        - simpl. constructor.
          + simpl. intros [H|[]]. discriminate.
          + constructor; [simpl; tauto | constructor].
        - repeat constructor; simpl; try lia; lra. }
      split; exact M.
  - split; eexists; eexists; (split; [vm_compute; reflexivity|]);
      split; reflexivity.
Qed.

(** On the example scenario, where every relay has a pair, the extended
    function returns the rounded genes of the [X_best] that the search
    over rationals ends with. *)
Lemma extended_agrees_on_example :
  exists gen st st' optimized,
    GaOptimizationFast.search
      Example.linear_pow fast_config Example.pairs Example.relays
      Example.IscMin Example.varied_rng = Ok (gen, st)
    /\ Extended.genetic_algorithm
         Example.linear_pow Extended.Fast
         {| data_pairs := Example.pairs; data_relays := Example.relays |}
         Example.varied_rng = Ok (Extended.Finished gen st' optimized)
    /\ map Extended.xround5 (Extended.genes (Extended.X_best st'))
       = map (fun g => Extended.Fin (round5 g)) (genes (X_best st)).
Proof.
  eexists. eexists. eexists. eexists.
  split; [vm_compute; reflexivity|].
  split; [vm_compute; reflexivity|].
  vm_compute. reflexivity.
Qed.

(** Over a whole run of the fast script the fitness of [X_best] never
    exceeds the one it had after initialisation. *)
Lemma run_best_nonincreasing
      (float_pow : Q -> Q -> option Q) (cfg : ga_config)
      (pairs : list pair) (relays : list string) (IscMin : list Q)
      (rnd : rng) (fuel gen : nat) (st : state) :
  pairs_known pairs relays ->
  List.length IscMin = nR relays ->
  rng_ok cfg relays rnd ->
  population_ok cfg relays (X st) ->
  exists g st',
    GaOptimizationFast.evolve float_pow cfg pairs relays IscMin
                              rnd fuel gen st = Ok (g, st')
    /\ fit (X_best st') <= fit (X_best st).
Proof.
  intros Hk HI Hrng Hpop.
  destruct (evolve_fast_invariant float_pow cfg pairs relays IscMin rnd
              Hk HI Hrng
              (fun s => fit (X_best s) <= fit (X_best st)))
    with (fuel := fuel) (gen := gen) (st := st)
    as (g & st' & He & _ & Hle).
  - intros s d s' Hok Hinv Hg.
    destruct (generation_fast_best float_pow cfg pairs relays IscMin
                s d s' Hok Hg) as [Hle1 _].
    lra.
  - exact Hpop.
  - lra.
  - exists g, st'. auto.
Qed.

(** * Further properties of the two scripts *)

(** ** The index dictionary *)

Lemma dict_fold_sound (P : string -> nat -> Prop) (l : list (string * nat)) :
  forall d : list (string * nat),
    (forall kv, In kv l -> P (fst kv) (snd kv)) ->
    (forall k i, dict_get d k = Ok i -> P k i) ->
    forall k i,
      dict_get (fold_left (fun d kv => dict_set d (fst kv) (snd kv)) l d) k
      = Ok i -> P k i.
Proof.
  induction l as [|[k0 v0] l IH]; intros d Hl Hd k i H; simpl in H.
  - apply Hd. exact H.
  - apply (IH (dict_set d k0 v0)); [| |exact H].
    + intros kv Hin. apply Hl. right. exact Hin.
    + intros k' i' H'. destruct (string_dec k0 k') as [<-|Hne].
      * rewrite dict_get_set_same in H'. inv_ok H'.
        apply (Hl (k0, i')). left. reflexivity.
      * rewrite dict_get_set_other in H' by exact Hne. apply Hd. exact H'.
Qed.

Lemma dict_fold_missing (l : list (string * nat)) :
  forall (d : list (string * nat)) (k : string),
    ~ In k (map fst l) -> dict_get d k = Raise KeyError ->
    dict_get (fold_left (fun d kv => dict_set d (fst kv) (snd kv)) l d) k
    = Raise KeyError.
Proof.
  induction l as [|[k0 v0] l IH]; intros d k Hn Hd; simpl.
  - exact Hd.
  - apply IH.
    + intro H. apply Hn. right. exact H.
    + rewrite dict_get_set_other; [exact Hd|].
      intro E. apply Hn. left. exact E.
Qed.

Lemma in_combine_seq {A} (l : list A) (s i : nat) (a : A) :
  In (a, i) (combine l (seq s (List.length l))) ->
  nth_error l (i - s) = Some a /\ (s <= i)%nat.
Proof.
  revert s. induction l as [|b l IH]; intros s H; simpl in H; [contradiction|].
  destruct H as [H|H].
  - injection H as -> ->. rewrite Nat.sub_diag. split; [reflexivity | lia].
  - destruct (IH (S s) H) as [E L]. split; [|lia].
    replace (i - s)%nat with (S (i - S s)) by lia. exact E.
Qed.

Lemma idx_sound (relays : list string) (k : string) (i : nat) :
  dict_get (idx relays) k = Ok i -> nth_error relays i = Some k.
Proof.
  unfold idx.
  apply (dict_fold_sound (fun k i => nth_error relays i = Some k)).
  - intros [k0 i0] Hin. simpl. unfold nR in Hin.
    destruct (in_combine_seq relays 0 i0 k0 Hin) as [E _].
    rewrite Nat.sub_0_r in E. exact E.
  - intros k' i' H. discriminate.
Qed.

Lemma idx_missing (relays : list string) (k : string) :
  ~ In k relays -> dict_get (idx relays) k = Raise KeyError.
Proof.
  intro Hn. unfold idx. apply dict_fold_missing; [|reflexivity].
  unfold nR. rewrite map_fst_combine_seq. exact Hn.
Qed.

(** X1.  [idx] inverts [relays]: an index found for a name holds that
    name; a name that is not a relay raises [KeyError]; and when the names
    are distinct, the name at position [i] is mapped back to [i]. *)
Theorem idx_round_trip (relays : list string) :
  (forall k i, dict_get (idx relays) k = Ok i ->
               nth_error relays i = Some k /\ (i < nR relays)%nat)
  /\ (forall k, ~ In k relays -> dict_get (idx relays) k = Raise KeyError)
  /\ (NoDup relays ->
      forall i k, nth_error relays i = Some k ->
                  dict_get (idx relays) k = Ok i).
Proof.
  split; [|split].
  - intros k i H. pose proof (idx_sound relays k i H) as E.
    split; [exact E|]. unfold nR. apply nth_error_Some. congruence.
  - apply idx_missing.
  - intros Hnd i k E.
    destruct (idx_lookup relays k (nth_error_In _ _ E)) as (i' & E' & L).
    pose proof (idx_sound relays k i' E') as S.
    assert (i = i').
    { apply (proj1 (NoDup_nth_error relays) Hnd).
      - apply nth_error_Some. congruence.
      - congruence. }
    subst i'. exact E'.
Qed.

(** ** The cached fitness *)

Section CachedFitness.

Variable float_pow : Q -> Q -> option Q.
Variable cfg : ga_config.
Variable pairs : list pair.
Variable relays : list string.
Variable IscMin : list Q.

Lemma initial_rows_consistent (relay_time : Q -> Q -> Q -> result Q)
      (rnd : rng) (ks : list nat) :
  forall rows,
    initial_rows relay_time pairs relays IscMin rnd ks = Ok rows ->
    rows_consistent relay_time pairs relays rows.
Proof.
  induction ks as [|i ks IH]; intros rows H; simpl in H.
  - inv_ok H. constructor.
  - inv_bind H. inv_bind H. inv_ok H. constructor.
    + simpl. exact E.
    + apply IH. exact E0.
Qed.

Lemma initial_state_inv (relay_time : Q -> Q -> Q -> result Q)
      (rnd : rng) (st0 : state) :
  initial_state relay_time cfg pairs relays IscMin rnd = Ok st0 ->
  exists rows,
    initial_rows relay_time pairs relays IscMin rnd (seq 0 (GA_Ni cfg))
    = Ok rows
    /\ X st0 = sort_by_fit rows
    /\ getitem (X st0) 0 = Ok (X_best st0)
    /\ stall st0 = 0%nat.
Proof.
  unfold initial_state. intro H. inv_bind H. inv_bind H. inv_ok H.
  exists a. simpl. auto.
Qed.

Lemma getitem_In {A} (l : list A) (i : nat) (a : A) :
  getitem l i = Ok a -> In a l.
Proof.
  unfold getitem. destruct (nth_error l i) eqn:E; [|discriminate].
  intro H. inv_ok H. eapply nth_error_In. exact E.
Qed.

Lemma generation_fast_consistent (st : state) (d : gen_draws) (st' : state) :
  step_ok cfg pairs relays IscMin st d ->
  rows_consistent (GaOptimizationFast.relay_time float_pow) pairs relays
                  (X st)
  /\ fitness (GaOptimizationFast.relay_time float_pow) pairs relays
             (genes (X_best st)) = Ok (fit (X_best st)) ->
  GaOptimizationFast.generation float_pow cfg pairs relays IscMin st d
  = Ok st' ->
  rows_consistent (GaOptimizationFast.relay_time float_pow) pairs relays
                  (X st')
  /\ fitness (GaOptimizationFast.relay_time float_pow) pairs relays
             (genes (X_best st')) = Ok (fit (X_best st')).
Proof.
  intros Hok [HX Hb] Hg.
  destruct (generation_fast_total float_pow cfg pairs relays IscMin st d Hok)
    as (child & fchild & worst & st1 & Ho & Hw & _ & _).
  destruct Hok as (_ & _ & Hpop & Hd).
  destruct Hd as (_ & _ & _ & _ & Hcp & _).
  assert (Hc : (cp d <= Nv relays)%nat) by lia.
  destruct (offspring_child _ cfg _ _ _ _ _ _ _ Hpop Hc Ho) as [_ Fc].
  rewrite (generation_fast_unfold float_pow cfg pairs relays IscMin
             st d child fchild worst Ho Hw) in Hg.
  destruct (update_best_spec _ _ _ _ Hg) as (top & Ht & HX' & Hcase).
  assert (C : rows_consistent (GaOptimizationFast.relay_time float_pow)
                              pairs relays (X st')).
  { rewrite HX'. apply sort_by_fit_Forall.
    destruct (ltb fchild (fit worst)); [|exact HX].
    destruct (duplicate cfg relays child (X st)); [exact HX|].
    apply Forall_app. split.
    - apply removelast_Forall. exact HX.
    - constructor; [exact Fc | constructor]. }
  split; [exact C|].
  destruct Hcase as [(_ & -> & _) | (_ & -> & _)]; [|exact Hb].
  rewrite <- HX' in Ht. apply getitem_In in Ht.
  unfold rows_consistent in C. rewrite Forall_forall in C.
  apply C. exact Ht.
Qed.

End CachedFitness.

(** X2.  In a run of the fast script every row of the population, and
    [X_best], carries the fitness of its own genes, after initialisation
    and after any number of generations. *)
Theorem cached_fitness_consistent
        (float_pow : Q -> Q -> option Q) (cfg : ga_config)
        (pairs : list pair) (relays : list string) (IscMin : list Q)
        (rnd : rng) (fuel : nat) :
  pairs_known pairs relays ->
  List.length IscMin = nR relays ->
  rng_ok cfg relays rnd ->
  exists st0 gen st,
    initial_state (GaOptimizationFast.relay_time float_pow)
                  cfg pairs relays IscMin rnd = Ok st0
    /\ GaOptimizationFast.evolve float_pow cfg pairs relays IscMin
                                 rnd fuel 1 st0 = Ok (gen, st)
    /\ rows_consistent (GaOptimizationFast.relay_time float_pow)
                       pairs relays (X st)
    /\ fitness (GaOptimizationFast.relay_time float_pow) pairs relays
               (genes (X_best st)) = Ok (fit (X_best st)).
Proof.
  intros Hk HI Hrng.
  assert (Hpos : (0 < GA_Ni cfg)%nat).
  { destruct Hrng as [_ Hd]. destruct (Hd 0%nat) as (Hs1 & _). lia. }
  destruct (initial_state_total
              (GaOptimizationFast.relay_time float_pow) cfg pairs relays
              IscMin rnd (relay_time_fast_returns float_pow) Hk Hpos)
    as (st0 & H0 & Hpop0 & _ & _ & Hin & _).
  destruct (initial_state_inv cfg pairs relays IscMin _ rnd st0 H0)
    as (rows & Hr & HX & _).
  pose proof (initial_rows_consistent pairs relays IscMin _ rnd _ rows Hr)
    as C0.
  assert (CX : rows_consistent (GaOptimizationFast.relay_time float_pow)
                               pairs relays (X st0)).
  { rewrite HX. apply sort_by_fit_Forall. exact C0. }
  assert (Cb : fitness (GaOptimizationFast.relay_time float_pow) pairs
                       relays (genes (X_best st0)) = Ok (fit (X_best st0))).
  { unfold rows_consistent in CX. rewrite Forall_forall in CX.
    apply CX. exact Hin. }
  destruct (evolve_fast_invariant float_pow cfg pairs relays IscMin rnd
              Hk HI Hrng
              (fun s =>
                 rows_consistent (GaOptimizationFast.relay_time float_pow)
                                 pairs relays (X s)
                 /\ fitness (GaOptimizationFast.relay_time float_pow)
                            pairs relays (genes (X_best s))
                    = Ok (fit (X_best s)))
              (generation_fast_consistent float_pow cfg pairs relays IscMin)
              fuel 1%nat st0 Hpop0 (conj CX Cb))
    as (gen & st & He & _ & C & Cbest).
  exists st0, gen, st. auto.
Qed.

Lemma cached_fitness_consistent_witness :
  pairs_known Example.pairs Example.relays
  /\ List.length Example.IscMin = nR Example.relays
  /\ rng_ok fast_config Example.relays Example.spread_rng
  /\ exists st0 gen st,
      initial_state (GaOptimizationFast.relay_time Example.linear_pow)
                    fast_config Example.pairs Example.relays Example.IscMin
                    Example.spread_rng = Ok st0
      /\ GaOptimizationFast.evolve
           Example.linear_pow fast_config Example.pairs Example.relays
           Example.IscMin Example.spread_rng 5 1 st0 = Ok (gen, st)
      /\ rows_consistent (GaOptimizationFast.relay_time Example.linear_pow)
                         Example.pairs Example.relays (X st)
      /\ fitness (GaOptimizationFast.relay_time Example.linear_pow)
                 Example.pairs Example.relays (genes (X_best st))
         = Ok (fit (X_best st)).
Proof.
  split; [exact example_pairs_known|]. split; [reflexivity|].
  split; [exact example_spread_rng_ok|].
  apply cached_fitness_consistent;
    [exact example_pairs_known | reflexivity | exact example_spread_rng_ok].
Defined.

(** ** The best row stays first *)

Lemma sort_by_fit_snoc (l : list individual) (c : individual) :
  sort_by_fit (l ++ [c]) = fold_right insert_by_fit [c] l.
Proof.
  unfold sort_by_fit. rewrite fold_right_app. reflexivity.
Qed.

(** Sorting a sorted list extended with one row puts that row first only
    when it is strictly fitter than the old first row. *)
Lemma head_after_snoc (l : list individual) (c : individual) :
  sorted l ->
  hd_error (fold_right insert_by_fit [c] l)
  = Some (match l with
          | [] => c
          | a :: _ => if ltb (fit c) (fit a) then c else a
          end).
Proof.
  unfold sorted. induction l as [|y l IH]; intro Hs; [reflexivity|].
  inversion Hs as [|? ? Hs' Hh]; subst.
  specialize (IH Hs'). simpl.
  destruct (fold_right insert_by_fit [c] l) as [|h M] eqn:EM;
    [discriminate|].
  simpl in IH. injection IH as IH. simpl.
  destruct l as [|z l'].
  - subst h. destruct (ltb (fit c) (fit y)); reflexivity.
  - inversion Hh as [|? ? Hyz]; subst. unfold fit_le in Hyz.
    destruct (ltb (fit c) (fit z)) eqn:Ecz.
    + destruct (ltb (fit c) (fit y)); reflexivity.
    + apply ltb_ge in Ecz.
      assert (E1 : ltb (fit z) (fit y) = false) by (apply ltb_ge; exact Hyz).
      assert (E2 : ltb (fit c) (fit y) = false) by (apply ltb_ge; lra).
      rewrite E1, E2. reflexivity.
Qed.

Lemma sorted_removelast (l : list individual) :
  sorted l -> sorted (removelast l).
Proof.
  unfold sorted. induction l as [|a l IH]; intro H; [constructor|].
  inversion H as [|? ? Hs Hh]; subst.
  destruct l as [|b l]; [constructor|].
  change (removelast (a :: b :: l)) with (a :: removelast (b :: l)).
  constructor; [apply IH; exact Hs|].
  inversion Hh; subst.
  destruct l as [|c l]; simpl; constructor. assumption.
Qed.

Lemma getitem_0_hd {A} (l : list A) (a : A) :
  getitem l 0 = Ok a <-> hd_error l = Some a.
Proof.
  destruct l as [|b l]; simpl; unfold getitem; simpl.
  - split; discriminate.
  - split; intro H; injection H as ->; reflexivity.
Qed.

Section BestFirst.

Variable float_pow : Q -> Q -> option Q.
Variable cfg : ga_config.
Variable pairs : list pair.
Variable relays : list string.
Variable IscMin : list Q.

(** What a generation that returns has computed on its way. *)
Lemma generation_fast_inv (st : state) (d : gen_draws) (st' : state) :
  GaOptimizationFast.generation float_pow cfg pairs relays IscMin st d
  = Ok st' ->
  exists child fchild worst,
    offspring (GaOptimizationFast.relay_time float_pow) pairs relays IscMin
              (X st) d = Ok (child, fchild)
    /\ getlast (X st) = Ok worst.
Proof.
  unfold GaOptimizationFast.generation. intro H.
  inv_bind H. inv_bind H. destruct a as [child fchild].
  exists child, fchild, a0. split; assumption.
Qed.

Lemma generation_fast_keeps_first (st : state) (d : gen_draws)
      (st' : state) :
  getitem (X st) 0 = Ok (X_best st) /\ sorted (X st) ->
  GaOptimizationFast.generation float_pow cfg pairs relays IscMin st d
  = Ok st' ->
  getitem (X st') 0 = Ok (X_best st') /\ sorted (X st').
Proof.
  intros [Hfirst Hs] Hg.
  destruct (generation_fast_inv st d st' Hg)
    as (child & fchild & worst & Ho & Hw).
  rewrite (generation_fast_unfold float_pow cfg pairs relays IscMin
             st d child fchild worst Ho Hw) in Hg.
  destruct (update_best_spec _ _ _ _ Hg) as (top & Ht & HX' & Hcase).
  split; [|rewrite HX'; apply sort_by_fit_sorted].
  rewrite HX'.
  destruct Hcase as [(_ & -> & _) | (Hge & -> & _)]; [exact Ht|].
  destruct (ltb fchild (fit worst)) eqn:L;
    [|rewrite (sort_by_fit_id _ Hs) in *; exact Hfirst].
  destruct (duplicate cfg relays child (X st));
    [rewrite (sort_by_fit_id _ Hs) in *; exact Hfirst|].
  apply ltb_lt in L.
  rewrite sort_by_fit_snoc in *.
  pose proof (head_after_snoc (removelast (X st))
                {| genes := child; fit := fchild |}
                (sorted_removelast _ Hs)) as Hh.
  apply getitem_0_hd in Ht. rewrite Hh in Ht. injection Ht as Ht.
  apply getitem_0_hd. rewrite Hh. f_equal.
  apply getitem_0_hd in Hfirst.
  destruct (X st) as [|a l] eqn:EX; [discriminate|].
  simpl in Hfirst. injection Hfirst as Hfirst.
  destruct l as [|b l].
  - unfold getlast in Hw. simpl in Hw. injection Hw as Hw.
    simpl in Ht. rewrite <- Ht in Hge. simpl in Hge.
    rewrite <- Hfirst, Hw in Hge. lra.
  - change (removelast (a :: b :: l)) with (a :: removelast (b :: l)) in *.
    cbn [fit] in Ht |- *.
    destruct (ltb fchild (fit a)) eqn:La.
    + apply ltb_lt in La. rewrite <- Ht in Hge. simpl in Hge.
      rewrite <- Hfirst in Hge. lra.
    + exact Hfirst.
Qed.

Lemma generation_fast_best_first (st : state) (d : gen_draws) (st' : state) :
  step_ok cfg pairs relays IscMin st d ->
  getitem (X st) 0 = Ok (X_best st) /\ sorted (X st) ->
  GaOptimizationFast.generation float_pow cfg pairs relays IscMin st d
  = Ok st' ->
  getitem (X st') 0 = Ok (X_best st') /\ sorted (X st').
Proof.
  intros _. apply generation_fast_keeps_first.
Qed.

End BestFirst.

(** X3.  In a run of the fast script [X_best] is always the first row of
    the sorted population: the best individual is never lost. *)
Theorem best_is_first_row
        (float_pow : Q -> Q -> option Q) (cfg : ga_config)
        (pairs : list pair) (relays : list string) (IscMin : list Q)
        (rnd : rng) (fuel : nat) :
  pairs_known pairs relays ->
  List.length IscMin = nR relays ->
  rng_ok cfg relays rnd ->
  exists st0 gen st,
    initial_state (GaOptimizationFast.relay_time float_pow)
                  cfg pairs relays IscMin rnd = Ok st0
    /\ GaOptimizationFast.evolve float_pow cfg pairs relays IscMin
                                 rnd fuel 1 st0 = Ok (gen, st)
    /\ getitem (X st) 0 = Ok (X_best st)
    /\ sorted (X st).
Proof.
  intros Hk HI Hrng.
  assert (Hpos : (0 < GA_Ni cfg)%nat).
  { destruct Hrng as [_ Hd]. destruct (Hd 0%nat) as (Hs1 & _). lia. }
  destruct (initial_state_total
              (GaOptimizationFast.relay_time float_pow) cfg pairs relays
              IscMin rnd (relay_time_fast_returns float_pow) Hk Hpos)
    as (st0 & H0 & Hpop0 & Hs0 & _).
  destruct (initial_state_inv cfg pairs relays IscMin _ rnd st0 H0)
    as (rows & _ & _ & Hfirst & _).
  destruct (evolve_fast_invariant float_pow cfg pairs relays IscMin rnd
              Hk HI Hrng
              (fun s => getitem (X s) 0 = Ok (X_best s) /\ sorted (X s))
              (generation_fast_best_first float_pow cfg pairs relays IscMin)
              fuel 1%nat st0 Hpop0 (conj Hfirst Hs0))
    as (gen & st & He & _ & Hf & Hs).
  exists st0, gen, st. auto.
Qed.

Lemma best_is_first_row_witness :
  pairs_known Example.pairs Example.relays
  /\ List.length Example.IscMin = nR Example.relays
  /\ rng_ok fast_config Example.relays Example.spread_rng
  /\ exists st0 gen st,
      initial_state (GaOptimizationFast.relay_time Example.linear_pow)
                    fast_config Example.pairs Example.relays Example.IscMin
                    Example.spread_rng = Ok st0
      /\ GaOptimizationFast.evolve
           Example.linear_pow fast_config Example.pairs Example.relays
           Example.IscMin Example.spread_rng 5 1 st0 = Ok (gen, st)
      /\ getitem (X st) 0 = Ok (X_best st)
      /\ sorted (X st).
Proof.
  split; [exact example_pairs_known|]. split; [reflexivity|].
  split; [exact example_spread_rng_ok|].
  apply best_is_first_row;
    [exact example_pairs_known | reflexivity | exact example_spread_rng_ok].
Defined.

(** ** How a run of the fast script ends *)

Section FastStop.

Variable float_pow : Q -> Q -> option Q.
Variable cfg : ga_config.
Variable pairs : list pair.
Variable relays : list string.
Variable IscMin : list Q.
Variable rnd : rng.

(** A generation resets [stall] or adds one to it. *)
Lemma generation_fast_stall (st : state) (d : gen_draws) (st' : state) :
  GaOptimizationFast.generation float_pow cfg pairs relays IscMin st d
  = Ok st' ->
  (stall st' <= S (stall st))%nat.
Proof.
  unfold GaOptimizationFast.generation. intro H.
  inv_bind H. inv_bind H. inv_bind H.
  destruct (update_best_spec _ _ _ _ H) as (top & _ & _ & Hc).
  destruct Hc as [(_ & _ & ->) | (_ & _ & ->)]; lia.
Qed.

(** The loop leaves at a generation of its range; before the last one
    only through one of the two [break]s. *)
Lemma evolve_fast_stop (fuel : nat) :
  forall gen st g st',
    GaOptimizationFast.evolve float_pow cfg pairs relays IscMin
                              rnd (S fuel) gen st = Ok (g, st') ->
    (gen <= g <= gen + fuel)%nat
    /\ (stall st' <= stall st + S (g - gen))%nat
    /\ ((g < gen + fuel)%nat ->
        fit (X_best st') == 0 \/ (GA_iterno cfg <= stall st')%nat).
Proof.
  induction fuel as [|fuel IH]; intros gen st g st' H;
    cbn [GaOptimizationFast.evolve] in H; inv_bind H;
    pose proof (generation_fast_stall _ _ _ E) as Hst.
  - destruct (Qeq_bool (fit (X_best a)) 0.0);
      [|destruct (GA_iterno cfg <=? stall a)%nat];
      inv_ok H; cbn [pred];
      (split; [lia|]); (split; [lia|]); intro; lia.
  - destruct (Qeq_bool (fit (X_best a)) 0.0) eqn:Z.
    + inv_ok H. split; [lia|]. split; [lia|]. intros _. left.
      apply Qeq_bool_iff in Z. rewrite Z. reflexivity.
    + destruct (GA_iterno cfg <=? stall a)%nat eqn:S0.
      * inv_ok H. split; [lia|]. split; [lia|]. intros _. right.
        apply Nat.leb_le. exact S0.
      * change (GaOptimizationFast.evolve float_pow cfg pairs relays IscMin
                  rnd (S fuel) (S gen) a = Ok (g, st')) in H.
        destruct (IH _ _ _ _ H) as (Hg & Hs & Hb).
        split; [lia|]. split; [lia|]. intro L. apply Hb. lia.
Qed.

End FastStop.

(** X4.  A run of the fast script always ends, at a generation between 1
    and [GA_maxGen]; [stall] is at most the number of generations run;
    the run ends before generation [GA_maxGen] only with a best fitness
    of zero or a stall count of [GA_iterno]; and when [GA_iterno] is not
    below [GA_maxGen], as in both scripts, only with a best fitness of
    zero. *)
Theorem search_fast_stops
        (float_pow : Q -> Q -> option Q) (cfg : ga_config)
        (pairs : list pair) (relays : list string) (IscMin : list Q)
        (rnd : rng) :
  pairs_known pairs relays ->
  List.length IscMin = nR relays ->
  rng_ok cfg relays rnd ->
  (0 < GA_maxGen cfg)%nat ->
  exists g st,
    GaOptimizationFast.search float_pow cfg pairs relays IscMin rnd
    = Ok (g, st)
    /\ (1 <= g <= GA_maxGen cfg)%nat
    /\ (stall st <= g)%nat
    /\ ((g < GA_maxGen cfg)%nat ->
        fit (X_best st) == 0 \/ (GA_iterno cfg <= stall st)%nat)
    /\ ((GA_maxGen cfg <= GA_iterno cfg)%nat ->
        (g < GA_maxGen cfg)%nat -> fit (X_best st) == 0).
Proof.
  intros Hk HI Hrng Hmax.
  assert (Hpos : (0 < GA_Ni cfg)%nat).
  { destruct Hrng as [_ Hd]. destruct (Hd 0%nat) as (Hs1 & _). lia. }
  destruct (initial_state_total
              (GaOptimizationFast.relay_time float_pow) cfg pairs relays
              IscMin rnd (relay_time_fast_returns float_pow) Hk Hpos)
    as (st0 & H0 & Hpop0 & _ & _ & _ & Hstall).
  destruct (evolve_fast_invariant float_pow cfg pairs relays IscMin rnd
              Hk HI Hrng (fun _ => True) (fun _ _ _ _ _ _ => I)
              (GA_maxGen cfg) 1%nat st0 Hpop0 I)
    as (g & st & He & _ & _).
  exists g, st. unfold GaOptimizationFast.search. rewrite H0.
  cbn [bind]. split; [exact He|].
  destruct (GA_maxGen cfg) as [|m] eqn:Em; [lia|].
  destruct (evolve_fast_stop float_pow cfg pairs relays IscMin rnd
              m _ _ _ _ He) as (Hg & Hs & Hb).
  rewrite Hstall in Hs.
  split; [lia|]. split; [lia|]. split.
  - intro L. apply Hb. lia.
  - intros Hle L. destruct Hb as [Hz | Hst]; [lia | exact Hz | lia].
Qed.

Lemma search_fast_stops_witness :
  pairs_known Example.pairs Example.relays
  /\ List.length Example.IscMin = nR Example.relays
  /\ rng_ok fast_config Example.relays Example.spread_rng
  /\ (0 < GA_maxGen fast_config)%nat
  /\ exists g st,
      GaOptimizationFast.search Example.linear_pow fast_config
        Example.pairs Example.relays Example.IscMin Example.spread_rng
      = Ok (g, st)
      /\ (1 <= g <= GA_maxGen fast_config)%nat
      /\ (stall st <= g)%nat
      /\ ((g < GA_maxGen fast_config)%nat ->
          fit (X_best st) == 0
          \/ (GA_iterno fast_config <= stall st)%nat)
      /\ ((GA_maxGen fast_config <= GA_iterno fast_config)%nat ->
          (g < GA_maxGen fast_config)%nat -> fit (X_best st) == 0).
Proof.
  split; [exact example_pairs_known|]. split; [reflexivity|].
  split; [exact example_spread_rng_ok|].
  split; [cbn [GA_maxGen fast_config]; lia|].
  apply search_fast_stops;
    [exact example_pairs_known | reflexivity | exact example_spread_rng_ok
    | cbn [GA_maxGen fast_config]; lia].
Defined.

(** ** The two scripts against each other *)

(** Whatever [relay_time] of optimize_all_scenarios.py returns, that of
    the fast script returns too. *)
Lemma relay_time_all_refines (float_pow : Q -> Q -> option Q)
      (I PU TDS v : Q) :
  OptimizeAllScenarios.relay_time float_pow I PU TDS = Ok v ->
  GaOptimizationFast.relay_time float_pow I PU TDS = Ok v.
Proof.
  unfold OptimizeAllScenarios.relay_time, GaOptimizationFast.relay_time.
  destruct (leb I PU); [auto|].
  destruct (iec_time float_pow I PU TDS) as [t|e]; simpl; [auto|discriminate].
Qed.

Section Refinement.

Variables rt1 rt2 : Q -> Q -> Q -> result Q.
Hypothesis rt_refines :
  forall I PU TDS v, rt1 I PU TDS = Ok v -> rt2 I PU TDS = Ok v.

Variable cfg : ga_config.
Variable pairs : list pair.
Variable relays : list string.
Variable IscMin : list Q.

Lemma pair_times_refines (individual : list Q) (p : pair) (t : Q * Q) :
  pair_times rt1 relays individual p = Ok t ->
  pair_times rt2 relays individual p = Ok t.
Proof.
  unfold pair_times. intro H.
  inv_bind H. rewrite E. cbn [bind].
  inv_bind H. rewrite E0. cbn [bind].
  inv_bind H. rewrite E1. cbn [bind].
  inv_bind H. rewrite E2. cbn [bind].
  inv_bind H. rewrite (rt_refines _ _ _ _ E3). cbn [bind].
  inv_bind H. rewrite E4. cbn [bind].
  inv_bind H. rewrite E5. cbn [bind].
  inv_bind H. rewrite (rt_refines _ _ _ _ E6). cbn [bind].
  exact H.
Qed.

Lemma fitness_loop_refines (individual : list Q) (ps : list pair) :
  forall tmt v,
    fitness_loop rt1 relays ps individual tmt = Ok v ->
    fitness_loop rt2 relays ps individual tmt = Ok v.
Proof.
  induction ps as [|p ps IH]; intros tmt v H; simpl in *; [exact H|].
  inv_bind H. rewrite (pair_times_refines _ _ _ E). simpl.
  apply IH. exact H.
Qed.

Lemma fitness_refines (individual : list Q) (v : Q) :
  fitness rt1 pairs relays individual = Ok v ->
  fitness rt2 pairs relays individual = Ok v.
Proof.
  apply fitness_loop_refines.
Qed.

Lemma initial_rows_refines (rnd : rng) (ks : list nat) :
  forall rows,
    initial_rows rt1 pairs relays IscMin rnd ks = Ok rows ->
    initial_rows rt2 pairs relays IscMin rnd ks = Ok rows.
Proof.
  induction ks as [|i ks IH]; intros rows H; simpl in *; [exact H|].
  inv_bind H. rewrite (fitness_refines _ _ E). simpl.
  inv_bind H. rewrite (IH _ E0). simpl. exact H.
Qed.

Lemma initial_state_refines (rnd : rng) (st0 : state) :
  initial_state rt1 cfg pairs relays IscMin rnd = Ok st0 ->
  initial_state rt2 cfg pairs relays IscMin rnd = Ok st0.
Proof.
  unfold initial_state. intro H. inv_bind H.
  rewrite (initial_rows_refines _ _ _ E). simpl. exact H.
Qed.

Lemma offspring_refines (pop : list individual) (d : gen_draws)
      (c : list Q * Q) :
  offspring rt1 pairs relays IscMin pop d = Ok c ->
  offspring rt2 pairs relays IscMin pop d = Ok c.
Proof.
  unfold offspring. intro H.
  inv_bind H. rewrite E. cbn [bind].
  inv_bind H. rewrite E0. cbn [bind].
  inv_bind H. rewrite E1. cbn [bind].
  inv_bind H. rewrite E2. cbn [bind].
  inv_bind H. rewrite (fitness_refines _ _ E3). cbn [bind].
  inv_bind H. rewrite (fitness_refines _ _ E4). cbn [bind].
  exact H.
Qed.

End Refinement.

Section ScriptsAgree.

Variable float_pow : Q -> Q -> option Q.
Variable cfg : ga_config.
Variable pairs : list pair.
Variable relays : list string.
Variable IscMin : list Q.
Variable rnd : rng.

(** From states with the same population and the same best row, sorted
    and with the best row first, a generation of optimize_all_scenarios.py
    that returns and a generation of the fast script end with the same
    population and the same best row; only [stall] may be ahead in the
    fast script. *)
Lemma generation_refines (st1 st2 : state) (d : gen_draws) (s1 : state) :
  X st2 = X st1 -> X_best st2 = X_best st1 ->
  (stall st1 <= stall st2)%nat ->
  sorted (X st1) -> getitem (X st1) 0 = Ok (X_best st1) ->
  OptimizeAllScenarios.generation float_pow cfg pairs relays IscMin st1 d
  = Ok s1 ->
  exists s2,
    GaOptimizationFast.generation float_pow cfg pairs relays IscMin st2 d
    = Ok s2
    /\ X s2 = X s1 /\ X_best s2 = X_best s1
    /\ (stall s1 <= stall s2)%nat.
Proof.
  intros HX Hb Hst Hs Hfirst H.
  unfold OptimizeAllScenarios.generation in H.
  inv_bind H. inv_bind H. destruct a as [child fchild].
  cbn [fst snd] in H.
  pose proof (offspring_refines _ _
                (relay_time_all_refines float_pow)
                pairs relays IscMin _ _ _ E) as Ho.
  rewrite <- HX in Ho, E0.
  rewrite (generation_fast_unfold float_pow cfg pairs relays IscMin
             st2 d child fchild a0 Ho E0).
  rewrite HX, Hb.
  assert (Same : update_best (sort_by_fit (X st1)) (X_best st1) (stall st2)
                 = Ok {| X := X st1; X_best := X_best st1;
                         stall := S (stall st2) |}).
  { rewrite (sort_by_fit_id _ Hs). unfold update_best.
    rewrite Hfirst. cbn [bind]. rewrite ltb_irrefl. reflexivity. }
  destruct (ltb fchild (fit a0)).
  - destruct (duplicate cfg relays child (X st1)).
    + inv_ok H. rewrite Same. eexists. split; [reflexivity|].
      simpl. repeat split; lia.
    + inv_bind H. rewrite <- HX in E1.
      rewrite (setlast_spec _ _ _ E0) in E1. inv_ok E1. rewrite HX in H.
      unfold update_best in H |- *.
      destruct (getitem
                  (sort_by_fit
                     (removelast (X st1)
                      ++ [{| genes := child; fit := fchild |}])) 0)
        as [top|e]; [|discriminate].
      cbn [bind] in H |- *.
      destruct (ltb (fit top) (fit (X_best st1))); inv_ok H;
        eexists; (split; [reflexivity|]); simpl; repeat split; lia.
  - inv_ok H. rewrite Same. eexists. split; [reflexivity|].
    simpl. repeat split; lia.
Qed.

Lemma evolve_refines (fuel : nat) :
  forall gen st1 st2 g s1,
    X st2 = X st1 -> X_best st2 = X_best st1 ->
    (stall st1 <= stall st2)%nat ->
    (stall st2 + fuel <= GA_iterno cfg)%nat ->
    sorted (X st1) -> getitem (X st1) 0 = Ok (X_best st1) ->
    OptimizeAllScenarios.evolve float_pow cfg pairs relays IscMin
                                rnd fuel gen st1 = Ok (g, s1) ->
    exists s2,
      GaOptimizationFast.evolve float_pow cfg pairs relays IscMin
                                rnd fuel gen st2 = Ok (g, s2)
      /\ X s2 = X s1 /\ X_best s2 = X_best s1
      /\ (stall s1 <= stall s2)%nat.
Proof.
  induction fuel as [|fuel IH];
    intros gen st1 st2 g s1 HX Hb Hst Hfuel Hs Hfirst H.
  - simpl in H |- *. inv_ok H. exists st2. auto.
  - cbn [OptimizeAllScenarios.evolve] in H. inv_bind H.
    destruct (generation_refines st1 st2 _ a HX Hb Hst Hs Hfirst E)
      as (a2 & Hg2 & HX2 & Hb2 & Hst2).
    cbn [GaOptimizationFast.evolve]. rewrite Hg2. cbn [bind].
    pose proof (generation_fast_stall float_pow cfg pairs relays IscMin
                  _ _ _ Hg2) as Hup.
    assert (Hinv : getitem (X a2) 0 = Ok (X_best a2) /\ sorted (X a2)).
    { apply (generation_fast_keeps_first float_pow cfg pairs relays IscMin
               st2 (gen_d rnd gen) a2); [|exact Hg2].
      rewrite HX, Hb. split; assumption. }
    destruct Hinv as [Hfirst2 Hs2]. rewrite HX2, Hb2 in Hfirst2.
    rewrite HX2 in Hs2.
    rewrite Hb2.
    destruct (Qeq_bool (fit (X_best a)) 0.0).
    + inv_ok H. exists a2. auto.
    + destruct (GA_iterno cfg <=? stall a)%nat eqn:T1.
      * inv_ok H. apply Nat.leb_le in T1.
        assert (T2 : (GA_iterno cfg <=? stall a2)%nat = true)
          by (apply Nat.leb_le; lia).
        rewrite T2. exists a2. auto.
      * destruct (GA_iterno cfg <=? stall a2)%nat eqn:T2.
        -- apply Nat.leb_le in T2.
           assert (fuel = 0%nat) by lia. subst fuel.
           simpl in H. inv_ok H. exists a2. auto.
        -- apply Nat.leb_gt in T2.
           apply (IH (S gen) a a2 g s1); auto. lia.
Qed.

End ScriptsAgree.

(** X5.  When [GA_iterno] is not below [GA_maxGen], as in both scripts,
    and the search of optimize_all_scenarios.py returns, the search of
    the fast script, run with the same sizes, data and random draws,
    returns after the same number of generations with the same
    population and the same best row.  The exception handler of the fast
    [relay_time], the place of the sort and the counting of [stall] make
    no other difference. *)
Theorem scripts_agree_when_full_returns
        (float_pow : Q -> Q -> option Q) (cfg : ga_config)
        (pairs : list pair) (relays : list string) (IscMin : list Q)
        (rnd : rng) (g : nat) (s : state) :
  (GA_maxGen cfg <= GA_iterno cfg)%nat ->
  OptimizeAllScenarios.search float_pow cfg pairs relays IscMin rnd
  = Ok (g, s) ->
  exists s',
    GaOptimizationFast.search float_pow cfg pairs relays IscMin rnd
    = Ok (g, s')
    /\ X s' = X s /\ X_best s' = X_best s
    /\ (stall s <= stall s')%nat.
Proof.
  intros Hle H. unfold OptimizeAllScenarios.search in H. inv_bind H.
  unfold GaOptimizationFast.search.
  rewrite (initial_state_refines _ _ (relay_time_all_refines float_pow)
             cfg pairs relays IscMin rnd a E).
  cbn [bind].
  destruct (initial_state_inv cfg pairs relays IscMin _ rnd a E)
    as (rows & _ & HX & Hfirst & Hstall).
  apply (evolve_refines float_pow cfg pairs relays IscMin rnd
           (GA_maxGen cfg) 1%nat a a g s); auto.
  - lia.
  - rewrite HX. apply sort_by_fit_sorted.
Qed.

Lemma scripts_agree_when_full_returns_witness :
  exists g s,
    (GA_maxGen short_config <= GA_iterno short_config)%nat
    /\ OptimizeAllScenarios.search Example.linear_pow short_config
         Example.pairs Example.relays Example.IscMin Example.varied_rng
       = Ok (g, s)
    /\ exists s',
        GaOptimizationFast.search Example.linear_pow short_config
          Example.pairs Example.relays Example.IscMin Example.varied_rng
        = Ok (g, s')
        /\ X s' = X s /\ X_best s' = X_best s
        /\ (stall s <= stall s')%nat.
Proof.
  eexists. eexists.
  split; [cbn [GA_maxGen GA_iterno short_config]; lia|].
  split; [vm_compute; reflexivity|].
  apply scripts_agree_when_full_returns;
    [cbn [GA_maxGen GA_iterno short_config]; lia
    | vm_compute; reflexivity].
Defined.

(** ** The size of the fitness *)

Lemma inject_Z_of_nat_S (n : nat) :
  inject_Z (Z.of_nat (S n)) == inject_Z (Z.of_nat n) + 1.
Proof.
  rewrite Nat2Z.inj_succ. unfold Z.succ. rewrite inject_Z_plus. reflexivity.
Qed.

(** With both operating times between zero and the sentinel, a pair adds
    at most [CTI + sentinel + (sentinel - MAX_TIME)]. *)
Lemma add_penalties_le (tmt tM tB : Q) :
  0 <= tM -> tM <= sentinel -> 0 <= tB -> tB <= sentinel ->
  add_penalties tmt tM tB <= tmt + (CTI + 2 * sentinel - MAX_TIME).
Proof.
  unfold sentinel, add_penalties, CTI, MAX_TIME. intros H1 H2 H3 H4.
  destruct (ltb (tB - tM) 0.20) eqn:E1; destruct (ltb 10.0 tM) eqn:E2;
    lra.
Qed.

Section FitnessSize.

Variable float_pow : Q -> Q -> option Q.
Variable relays : list string.
Variable individual : list Q.

Lemma pair_times_fast_range (p : pair) (tM tB : Q) :
  pair_times (GaOptimizationFast.relay_time float_pow) relays individual p
  = Ok (tM, tB) ->
  0 <= tM /\ tM <= sentinel /\ 0 <= tB /\ tB <= sentinel.
Proof.
  unfold pair_times. intro H.
  inv_bind H. inv_bind H. inv_bind H. inv_bind H. inv_bind H.
  inv_bind H. inv_bind H. inv_bind H.
  destruct (relay_time_fast_total float_pow (Ishc_main p) a1 a2)
    as (t1 & R1 & L1 & U1).
  destruct (relay_time_fast_total float_pow (Ishc_backup p) a4 a5)
    as (t2 & R2 & L2 & U2).
  rewrite R1 in E3. rewrite R2 in E6. inv_ok E3. inv_ok E6. inv_ok H.
  unfold sentinel. auto.
Qed.

Lemma fitness_loop_fast_le (ps : list pair) :
  forall tmt v,
    fitness_loop (GaOptimizationFast.relay_time float_pow) relays ps
                 individual tmt = Ok v ->
    v <= tmt + (CTI + 2 * sentinel - MAX_TIME)
               * inject_Z (Z.of_nat (List.length ps)).
Proof.
  induction ps as [|p ps IH]; intros tmt v H.
  - simpl in H. inv_ok H. cbn [List.length].
    change (inject_Z (Z.of_nat 0)) with 0. lra.
  - cbn [fitness_loop] in H. inv_bind H. destruct a as [tM tB].
    cbn [fst snd] in H.
    destruct (pair_times_fast_range _ _ _ E) as (H1 & H2 & H3 & H4).
    pose proof (add_penalties_le tmt tM tB H1 H2 H3 H4) as Ha.
    pose proof (IH _ _ H) as Hv.
    cbn [List.length]. rewrite inject_Z_of_nat_S.
    set (n := inject_Z (Z.of_nat (List.length ps))) in *.
    unfold CTI, sentinel, MAX_TIME in *. lra.
Qed.

End FitnessSize.

(** X6.  The fitness the fast script computes for an individual of [Nv]
    genes is finite and bounded: it lies between zero and
    [(CTI + 2 * (MAX_TIME * 10.0) - MAX_TIME)], that is 190.2, times the
    number of pairs. *)
Theorem fitness_fast_bounded
        (float_pow : Q -> Q -> option Q)
        (pairs : list pair) (relays : list string) (individual : list Q) :
  pairs_known pairs relays ->
  List.length individual = Nv relays ->
  exists v,
    GaOptimizationFast.fitness float_pow pairs relays individual = Ok v
    /\ 0 <= v
    /\ v <= 190.2 * inject_Z (Z.of_nat (List.length pairs)).
Proof.
  intros Hk Hlen.
  destruct (@fitness_total (GaOptimizationFast.relay_time float_pow)
              relays individual (relay_time_fast_returns float_pow)
              Hlen pairs Hk) as [v Hv].
  exists v. unfold GaOptimizationFast.fitness. split; [exact Hv|].
  destruct (fitness_spec _ _ _ _ _ Hv) as [H0 _]. split; [exact H0|].
  pose proof (fitness_loop_fast_le float_pow relays individual pairs
                0.0 v Hv) as Hle.
  unfold CTI, sentinel, MAX_TIME in Hle.
  set (n := inject_Z (Z.of_nat (List.length pairs))) in *.
  lra.
Qed.

Lemma fitness_fast_bounded_witness :
  pairs_known Example.pairs Example.relays
  /\ List.length Example.blind_individual = Nv Example.relays
  /\ exists v,
      GaOptimizationFast.fitness Example.linear_pow Example.pairs
                                 Example.relays Example.blind_individual
      = Ok v
      /\ 0 <= v
      /\ v <= 190.2 * inject_Z (Z.of_nat (List.length Example.pairs)).
Proof.
  split; [exact example_pairs_known|]. split; [reflexivity|].
  apply fitness_fast_bounded; [exact example_pairs_known | reflexivity].
Defined.

(** ** What a mutation touches *)

Section MutationFrame.

Variable relays : list string.
Variable IscMin : list Q.

Lemma mutate_untouched (ms : list (nat * Q)) :
  forall child child' j,
    mutate relays IscMin child ms = Ok child' ->
    ~ In j (map fst ms) ->
    nth j child' 0 = nth j child 0.
Proof.
  induction ms as [|[m r] ms IH]; intros child child' j H Hj.
  - simpl in H. inv_ok H. reflexivity.
  - cbn [mutate] in H. inv_bind H. inv_bind H. inv_bind H.
    cbn [map fst In] in Hj.
    rewrite (IH _ _ j H) by tauto.
    rewrite (setitem_nth _ _ _ j _ 0 E1).
    destruct (Nat.eqb_spec j m); [subst; tauto | reflexivity].
Qed.

Lemma mutate_drawn (ms : list (nat * Q)) :
  NoDup (map fst ms) ->
  forall child child' m r,
    mutate relays IscMin child ms = Ok child' ->
    In (m, r) ms ->
    nth m child' 0
    = sample_gene (nth m (xmin relays) 0) (nth m (xmax relays IscMin) 0) r.
Proof.
  induction ms as [|[m0 r0] ms IH]; intros Hnd child child' m r H Hin.
  - destruct Hin.
  - cbn [map fst] in Hnd. inversion Hnd as [|? ? Hnot Hnd']; subst.
    cbn [mutate] in H. inv_bind H. inv_bind H. inv_bind H.
    destruct Hin as [Heq | Hin].
    + injection Heq as -> ->.
      rewrite (mutate_untouched _ _ _ m H Hnot).
      rewrite (setitem_nth _ _ _ m _ 0 E1). rewrite Nat.eqb_refl.
      destruct (getitem_nth _ _ _ 0 E) as [_ <-].
      destruct (getitem_nth _ _ _ 0 E0) as [_ <-]. reflexivity.
    + apply (IH Hnd' _ _ _ _ H Hin).
Qed.

End MutationFrame.

(** X7.  [mutate] on a child of [Nv] genes, with draws as [random.sample]
    and [random.random] give them, returns a child of the same length in
    which every gene at a position that was not drawn is unchanged and
    every drawn position holds its fresh sample from
    [[xmin[m], xmax[m]]]: at most [GA_nMut] genes change. *)
Theorem mutate_changes_only_drawn_genes
        (cfg : ga_config) (relays : list string) (IscMin : list Q)
        (child : list Q) (ms : list (nat * Q)) :
  muts_ok cfg relays ms ->
  List.length IscMin = nR relays ->
  List.length child = Nv relays ->
  exists child',
    mutate relays IscMin child ms = Ok child'
    /\ List.length child' = List.length child
    /\ (forall j, ~ In j (map fst ms) -> nth j child' 0 = nth j child 0)
    /\ (forall m r, In (m, r) ms ->
          nth m child' 0
          = sample_gene (nth m (xmin relays) 0)
                        (nth m (xmax relays IscMin) 0) r)
    /\ List.length ms = GA_nMut cfg.
Proof.
  intros Hm HI Hlen.
  pose proof (muts_ok_positions _ _ _ Hm) as Hpos.
  destruct Hm as (Hn & Hnd & _).
  destruct (mutate_total relays IscMin HI ms Hpos child Hlen)
    as [child' Hc].
  exists child'. split; [exact Hc|].
  split; [exact (mutate_length relays IscMin ms _ _ Hc)|].
  split; [intros j Hj; exact (mutate_untouched relays IscMin ms _ _ j Hc Hj)|].
  split; [|exact Hn].
  intros m r Hin. exact (mutate_drawn relays IscMin ms Hnd _ _ m r Hc Hin).
Qed.

Lemma mutate_changes_only_drawn_genes_witness :
  muts_ok fast_config Example.relays [(0%nat, 0); (1%nat, 0)]
  /\ List.length Example.IscMin = nR Example.relays
  /\ List.length Example.good_individual = Nv Example.relays
  /\ exists child',
      mutate Example.relays Example.IscMin Example.good_individual
             [(0%nat, 0); (1%nat, 0)] = Ok child'
      /\ List.length child' = List.length Example.good_individual
      /\ (forall j, ~ In j (map fst [(0%nat, 0); (1%nat, 0)]) ->
                    nth j child' 0 = nth j Example.good_individual 0)
      /\ (forall m r, In (m, r) [(0%nat, 0); (1%nat, 0)] ->
            nth m child' 0
            = sample_gene (nth m (xmin Example.relays) 0)
                          (nth m (xmax Example.relays Example.IscMin) 0) r)
      /\ List.length [(0%nat, 0); (1%nat, 0)] = GA_nMut fast_config.
Proof.
  split; [exact example_zero_muts_ok|]. split; [reflexivity|].
  split; [reflexivity|].
  apply (mutate_changes_only_drawn_genes fast_config);
    [exact example_zero_muts_ok | reflexivity | reflexivity].
Defined.

(** ** The minimum fault current of every relay *)

Lemma xleb_refl (a : Extended.xfloat) :
  numeric a -> Extended.xleb a a = true.
Proof.
  intros [-> | [q ->]]; simpl; [reflexivity|].
  apply leb_le. lra.
Qed.

Lemma xleb_trans (a b c : Extended.xfloat) :
  numeric a -> numeric b -> numeric c ->
  Extended.xleb a b = true -> Extended.xleb b c = true ->
  Extended.xleb a c = true.
Proof.
  intros [-> | [x ->]] [-> | [y ->]] [-> | [z ->]]; simpl;
    try reflexivity; try discriminate; intros H1 H2; auto.
  apply leb_le in H1, H2. apply leb_le. lra.
Qed.

Lemma xmin2_least (a : Extended.xfloat) (c : Q) :
  numeric a ->
  numeric (Extended.xmin2 a (Extended.Fin c))
  /\ (Extended.xmin2 a (Extended.Fin c) = a
      \/ Extended.xmin2 a (Extended.Fin c) = Extended.Fin c)
  /\ Extended.xleb (Extended.xmin2 a (Extended.Fin c)) a = true
  /\ Extended.xleb (Extended.xmin2 a (Extended.Fin c)) (Extended.Fin c)
     = true.
Proof.
  intros [-> | [x ->]]; unfold Extended.xmin2; simpl.
  - repeat split; [right; eauto | auto | apply leb_le; lra].
  - destruct (ltb c x) eqn:E; simpl.
    + apply ltb_lt in E.
      repeat split; [right; eauto | auto | apply leb_le; lra
                    | apply leb_le; lra].
    + apply ltb_ge in E.
      repeat split; [right; eauto | auto | apply leb_le; lra
                    | apply leb_le; lra].
Qed.

Lemma least_of_numeric (a0 a : Extended.xfloat) (S : Q -> Prop) :
  numeric a0 -> least_of a0 S a -> numeric a.
Proof.
  intros H0 [[-> | (c & _ & ->)] _]; [exact H0 | right; eauto].
Qed.

Lemma least_of_refl (a : Extended.xfloat) (S : Q -> Prop) :
  numeric a -> (forall c, ~ S c) -> least_of a S a.
Proof.
  intros Ha Hn. split; [left; reflexivity|].
  split; [apply xleb_refl; exact Ha|].
  intros c Hc. destruct (Hn c Hc).
Qed.

Lemma least_of_ext (a0 a : Extended.xfloat) (S T : Q -> Prop) :
  (forall c, S c <-> T c) -> least_of a0 S a -> least_of a0 T a.
Proof.
  intros HST (H1 & H2 & H3). split; [|split].
  - destruct H1 as [-> | (c & Hc & ->)]; [left; reflexivity|].
    right. exists c. split; [apply HST; exact Hc | reflexivity].
  - exact H2.
  - intros c Hc. apply H3. apply HST. exact Hc.
Qed.

Lemma least_of_step (a0 a1 a2 : Extended.xfloat) (S T : Q -> Prop) :
  numeric a0 ->
  least_of a0 S a1 -> least_of a1 T a2 ->
  least_of a0 (fun c => S c \/ T c) a2.
Proof.
  intros H0 L1 L2.
  pose proof (least_of_numeric _ _ _ H0 L1) as N1.
  pose proof (least_of_numeric _ _ _ N1 L2) as N2.
  destruct L1 as (A1 & B1 & C1). destruct L2 as (A2 & B2 & C2).
  split; [|split].
  - destruct A2 as [-> | (c & Hc & ->)].
    + destruct A1 as [-> | (c & Hc & ->)]; [left; reflexivity|].
      right. exists c. auto.
    + right. exists c. auto.
  - apply (xleb_trans a2 a1 a0); assumption.
  - intros c [Hc | Hc]; [|apply C2; exact Hc].
    apply (xleb_trans a2 a1 (Extended.Fin c)); auto.
    right. eauto.
Qed.

(** One [IscMin[k] = min(IscMin[k], c)]. *)
Lemma isc_update (isc : list Extended.xfloat) (k : nat) (c : Q) :
  (k < List.length isc)%nat ->
  Forall numeric isc ->
  exists a isc1,
    getitem isc k = Ok a
    /\ setitem isc k (Extended.xmin2 a (Extended.Fin c)) = Ok isc1
    /\ List.length isc1 = List.length isc
    /\ Forall numeric isc1
    /\ forall i, (i < List.length isc)%nat ->
                 least_of (nth i isc Extended.NaN)
                          (fun c' => i = k /\ c' = c)
                          (nth i isc1 Extended.NaN).
Proof.
  intros Hk Hn.
  destruct (@getitem_total _ isc k Hk) as [a Ha].
  destruct (setitem_total isc k (Extended.xmin2 a (Extended.Fin c)) Hk)
    as [isc1 H1].
  exists a, isc1. split; [exact Ha|]. split; [exact H1|].
  pose proof (setitem_length _ _ _ _ H1) as Hlen.
  split; [exact Hlen|].
  destruct (getitem_nth _ _ _ Extended.NaN Ha) as [_ Hak].
  assert (Na : numeric a).
  { rewrite Forall_forall in Hn. apply Hn. rewrite <- Hak.
    apply nth_In. exact Hk. }
  destruct (xmin2_least a c Na) as (Nm & Hor & Hle1 & Hle2).
  assert (Hnth : forall i,
             nth i isc1 Extended.NaN
             = if (i =? k)%nat then Extended.xmin2 a (Extended.Fin c)
               else nth i isc Extended.NaN).
  { intro i. apply (setitem_nth _ _ _ _ _ _ H1). }
  split.
  - apply Forall_forall. intros x Hx.
    destruct (In_nth _ _ Extended.NaN Hx) as (i & Hi & <-).
    rewrite Hnth. destruct (i =? k)%nat; [exact Nm|].
    rewrite Forall_forall in Hn. apply Hn. apply nth_In. lia.
  - intros i Hi. rewrite Hnth.
    destruct (Nat.eqb_spec i k) as [-> | Hne].
    + rewrite Hak. split; [|split].
      * destruct Hor as [-> | ->]; [left; reflexivity|].
        right. exists c. auto.
      * exact Hle1.
      * intros c' [_ ->]. exact Hle2.
    + apply least_of_refl.
      * rewrite Forall_forall in Hn. apply Hn. apply nth_In. exact Hi.
      * intros c' [Heq _]. contradiction.
Qed.

Lemma isc_loop_spec (relays : list string) (ps : list pair) :
  pairs_known ps relays ->
  forall isc0,
    List.length isc0 = nR relays ->
    Forall numeric isc0 ->
    exists isc,
      Extended.isc_loop relays ps isc0 = Ok isc
      /\ List.length isc = nR relays
      /\ Forall numeric isc
      /\ forall i, (i < nR relays)%nat ->
                   least_of (nth i isc0 Extended.NaN)
                            (fun c => exists p, In p ps
                                                /\ current_at relays p i c)
                            (nth i isc Extended.NaN).
Proof.
  induction ps as [|p ps IH]; intros Hk isc0 Hlen Hn.
  - exists isc0. split; [reflexivity|]. split; [exact Hlen|].
    split; [exact Hn|]. intros i Hi. apply least_of_refl.
    + rewrite Forall_forall in Hn. apply Hn. apply nth_In. lia.
    + intros c (q & [] & _).
  - destruct (Hk p (or_introl eq_refl)) as [Hm Hb].
    destruct (idx_lookup relays _ Hm) as (mi & Emi & Lmi).
    destruct (idx_lookup relays _ Hb) as (bi & Ebi & Lbi).
    destruct (isc_update isc0 mi (Ishc_main p)) as
        (a & isc1 & Ga & Sa & Len1 & N1 & L1); [lia | exact Hn |].
    destruct (isc_update isc1 bi (Ishc_backup p)) as
        (b & isc2 & Gb & Sb & Len2 & N2 & L2); [lia | exact N1 |].
    assert (Hk' : pairs_known ps relays).
    { intros q Hq. apply Hk. right. exact Hq. }
    destruct (IH Hk' isc2) as (isc & Hloop & Len & Nf & Lf);
      [lia | exact N2 |].
    exists isc. cbn [Extended.isc_loop].
    rewrite Emi. cbn [bind]. rewrite Ebi. cbn [bind].
    rewrite Ga. cbn [bind]. rewrite Sa. cbn [bind].
    rewrite Gb. cbn [bind]. rewrite Sb. cbn [bind].
    split; [exact Hloop|]. split; [exact Len|]. split; [exact Nf|].
    intros i Hi.
    assert (N0 : numeric (nth i isc0 Extended.NaN)).
    { rewrite Forall_forall in Hn. apply Hn. apply nth_In. lia. }
    pose proof (least_of_step _ _ _ _ _ N0
                  (L1 i ltac:(lia)) (L2 i ltac:(lia))) as L12.
    pose proof (least_of_step _ _ _ _ _ N0 L12 (Lf i Hi)) as L.
    revert L. apply least_of_ext. intro c. split.
    + intros [[[-> ->] | [-> ->]] | (q & Hq & Hc)].
      * exists p. split; [left; reflexivity|]. left. auto.
      * exists p. split; [left; reflexivity|]. right. auto.
      * exists q. split; [right; exact Hq | exact Hc].
    + intros (q & [<- | Hq] & Hc).
      * left. destruct Hc as [[E1 ->] | [E1 ->]].
        -- left. rewrite Emi in E1. inv_ok E1. auto.
        -- right. rewrite Ebi in E1. inv_ok E1. auto.
      * right. exists q. auto.
Qed.

(** X8.  The loop that fills [IscMin] returns, for pairs that name known
    relays, one entry per relay: a number that is at most every fault
    current a pair puts on that relay and that is one of them, or
    [float("inf")] exactly when no pair names the relay. *)
Theorem isc_loop_minimum (relays : list string) (pairs : list pair) :
  pairs_known pairs relays ->
  exists isc,
    Extended.isc_loop relays pairs (repeat Extended.PosInf (nR relays))
    = Ok isc
    /\ List.length isc = nR relays
    /\ forall i, (i < nR relays)%nat ->
         (forall p c, In p pairs -> current_at relays p i c ->
                      exists m, nth i isc Extended.NaN = Extended.Fin m
                                /\ m <= c)
         /\ ((nth i isc Extended.NaN = Extended.PosInf
              /\ forall p c, In p pairs -> ~ current_at relays p i c)
             \/ exists p c, In p pairs /\ current_at relays p i c
                            /\ nth i isc Extended.NaN = Extended.Fin c).
Proof.
  intro Hk.
  destruct (isc_loop_spec relays pairs Hk
              (repeat Extended.PosInf (nR relays)))
    as (isc & Hloop & Len & _ & L).
  - apply repeat_length.
  - apply Forall_forall. intros x Hx. apply repeat_spec in Hx. left.
    exact Hx.
  - exists isc. split; [exact Hloop|]. split; [exact Len|].
    intros i Hi. specialize (L i Hi).
    rewrite nth_repeat_lt in L by exact Hi.
    destruct L as (A & _ & C).
    assert (Low : forall p c, In p pairs -> current_at relays p i c ->
                    exists m, nth i isc Extended.NaN = Extended.Fin m
                              /\ m <= c).
    { intros p c Hp Hc.
      pose proof (C c (ex_intro _ p (conj Hp Hc))) as Hle.
      destruct A as [E | (c' & _ & E)]; rewrite E in Hle |- *.
      - discriminate.
      - exists c'. split; [reflexivity|]. apply leb_le. exact Hle. }
    split; [exact Low|].
    destruct A as [E | (c & (p & Hp & Hc) & E)].
    + left. split; [exact E|]. intros p c Hp Hc.
      destruct (Low p c Hp Hc) as (m & Hm & _). congruence.
    + right. exists p, c. auto.
Qed.

Lemma isc_loop_minimum_witness :
  pairs_known Example.pairs Example.relays
  /\ exists isc,
      Extended.isc_loop Example.relays Example.pairs
                        (repeat Extended.PosInf (nR Example.relays))
      = Ok isc
      /\ List.length isc = nR Example.relays
      /\ forall i, (i < nR Example.relays)%nat ->
           (forall p c, In p Example.pairs ->
                        current_at Example.relays p i c ->
                        exists m, nth i isc Extended.NaN = Extended.Fin m
                                  /\ m <= c)
           /\ ((nth i isc Extended.NaN = Extended.PosInf
                /\ forall p c, In p Example.pairs ->
                               ~ current_at Example.relays p i c)
               \/ exists p c, In p Example.pairs
                              /\ current_at Example.relays p i c
                              /\ nth i isc Extended.NaN = Extended.Fin c).
Proof.
  split; [exact example_pairs_known|].
  apply isc_loop_minimum. exact example_pairs_known.
Defined.

(** ** Individuals inside the bounds see every fault *)

Lemma nth_xmax_pickup (relays : list string) (IscMin : list Q) (i : nat) :
  (i < List.length IscMin)%nat ->
  nth (nR relays + i) (xmax relays IscMin) 0
  = MAX_PICKUP_FACTOR * nth i IscMin 0.
Proof.
  intro Hi. unfold xmax.
  rewrite app_nth2 by (rewrite repeat_length; lia).
  rewrite repeat_length.
  replace (nR relays + i - nR relays)%nat with i by lia.
  apply nth_map_lt. exact Hi.
Qed.

Lemma getitem_skipn_nth (l : list Q) (n i : nat) (a : Q) :
  getitem (skipn n l) i = Ok a -> nth (n + i) l 0 = a.
Proof.
  intro H. destruct (getitem_nth _ _ _ 0 H) as [_ <-].
  symmetry. apply nth_skipn.
Qed.

Section SeesFault.

Variable relays : list string.
Variable pairs : list pair.
Variable IscMin : list Q.
Variable individual : list Q.

Hypothesis known : pairs_known pairs relays.
Hypothesis computed :
  Extended.isc_loop relays pairs (repeat Extended.PosInf (nR relays))
  = Ok (map Extended.Fin IscMin).
Hypothesis positive : currents_positive pairs.
Hypothesis inside : in_bounds relays IscMin individual.

Lemma pickup_below_current (p : pair) (i : nat) (c pu : Q) :
  In p pairs -> current_at relays p i c -> 0 < c ->
  getitem (skipn (nR relays) individual) i = Ok pu ->
  pu < c.
Proof.
  intros Hp Hc Hpos Hg.
  destruct (isc_loop_spec relays pairs known
              (repeat Extended.PosInf (nR relays)))
    as (isc & Hloop & Len & _ & L).
  { apply repeat_length. }
  { apply Forall_forall. intros x Hx. apply repeat_spec in Hx. left.
    exact Hx. }
  rewrite computed in Hloop. inv_ok Hloop.
  rewrite length_map in Len.
  assert (Hi : (i < nR relays)%nat).
  { assert (Hs : nth_error relays i <> None)
      by (destruct Hc as [[E _] | [E _]];
          apply idx_sound in E; congruence).
    apply nth_error_Some in Hs. exact Hs. }
  destruct (L i Hi) as (_ & _ & Low).
  pose proof (Low c (ex_intro _ p (conj Hp Hc))) as Em.
  rewrite (nth_map_lt Extended.Fin IscMin i 0 Extended.NaN) in Em by lia.
  cbn [Extended.xleb] in Em. apply leb_le in Em.
  destruct (inside (nR relays + i)%nat) as [_ Hup];
    [unfold Nv; lia|].
  rewrite (getitem_skipn_nth _ _ _ _ Hg) in Hup.
  rewrite nth_xmax_pickup in Hup by lia.
  unfold MAX_PICKUP_FACTOR in Hup. lra.
Qed.

End SeesFault.

(** X9.  With [IscMin] as the loop computes it and positive fault
    currents, an individual inside the bounds has, for every pair, a
    pickup strictly below the fault current of the main relay and of the
    backup relay: [relay_time] never takes its [I <= PU] branch on such
    an individual. *)
Theorem in_bounds_sees_every_fault
        (relays : list string) (pairs : list pair) (IscMin : list Q)
        (individual : list Q) :
  pairs_known pairs relays ->
  Extended.isc_loop relays pairs (repeat Extended.PosInf (nR relays))
  = Ok (map Extended.Fin IscMin) ->
  currents_positive pairs ->
  in_bounds relays IscMin individual ->
  forall p, In p pairs ->
    ~ blind_main relays individual p
    /\ (forall bi pub,
          dict_get (idx relays) (backup_relay p) = Ok bi ->
          getitem (skipn (nR relays) individual) bi = Ok pub ->
          leb (Ishc_backup p) pub = false).
Proof.
  intros Hk Hc Hpos Hin p Hp. destruct (Hpos p Hp) as [Pm Pb]. split.
  - intros (mi & pum & E & G & Hle).
    pose proof (pickup_below_current relays pairs IscMin individual
                  Hk Hc Hin p mi (Ishc_main p) pum Hp
                  (or_introl (conj E eq_refl)) Pm G).
    lra.
  - intros bi pub E G.
    pose proof (pickup_below_current relays pairs IscMin individual
                  Hk Hc Hin p bi (Ishc_backup p) pub Hp
                  (or_intror (conj E eq_refl)) Pb G) as Hlt.
    destruct (leb (Ishc_backup p) pub) eqn:L; [|reflexivity].
    apply leb_le in L. lra.
Qed.

Lemma example_currents_positive : currents_positive Example.pairs.
Proof.
  intros p [<- | []]. simpl. split; reflexivity.
Qed.

Lemma example_good_in_bounds :
  in_bounds Example.relays Example.IscMin Example.good_individual.
Proof.
  intros j Hj. unfold Nv, nR in Hj. simpl in Hj.
  destruct j as [|[|[|[|j]]]]; [| | | |lia];
    vm_compute; split; discriminate.
Qed.

Lemma in_bounds_sees_every_fault_witness :
  pairs_known Example.pairs Example.relays
  /\ Extended.isc_loop Example.relays Example.pairs
                       (repeat Extended.PosInf (nR Example.relays))
     = Ok (map Extended.Fin Example.IscMin)
  /\ currents_positive Example.pairs
  /\ in_bounds Example.relays Example.IscMin Example.good_individual
  /\ exists p, In p Example.pairs
      /\ ~ blind_main Example.relays Example.good_individual p
      /\ (forall bi pub,
            dict_get (idx Example.relays) (backup_relay p) = Ok bi ->
            getitem (skipn (nR Example.relays) Example.good_individual) bi
            = Ok pub ->
            leb (Ishc_backup p) pub = false).
Proof.
  split; [exact example_pairs_known|]. split; [reflexivity|].
  split; [exact example_currents_positive|].
  split; [exact example_good_in_bounds|].
  eexists. split; [left; reflexivity|].
  apply (in_bounds_sees_every_fault Example.relays Example.pairs
           Example.IscMin Example.good_individual);
    [exact example_pairs_known | reflexivity
    | exact example_currents_positive | exact example_good_in_bounds
    | left; reflexivity].
Defined.

(** ** A pair that names an unknown relay *)

Lemma isc_loop_unknown (relays : list string) (ps : list pair) :
  names_unknown_relay ps relays ->
  forall isc0 : list Extended.xfloat,
    List.length isc0 = nR relays ->
    Extended.isc_loop relays ps isc0 = Raise KeyError.
Proof.
  unfold names_unknown_relay.
  induction ps as [|p ps IH]; intros Hex isc0 Hlen.
  - inversion Hex.
  - cbn [Extended.isc_loop].
    destruct (in_dec string_dec (main_relay p) relays) as [Hm | Hm];
      [|rewrite (idx_missing relays _ Hm); reflexivity].
    destruct (idx_lookup relays _ Hm) as (mi & Emi & Lmi).
    rewrite Emi. cbn [bind].
    destruct (in_dec string_dec (backup_relay p) relays) as [Hb | Hb];
      [|rewrite (idx_missing relays _ Hb); reflexivity].
    destruct (idx_lookup relays _ Hb) as (bi & Ebi & Lbi).
    rewrite Ebi. cbn [bind].
    destruct (@getitem_total _ isc0 mi ltac:(lia)) as [a Ga].
    rewrite Ga. cbn [bind].
    destruct (setitem_total isc0 mi
                (Extended.xmin2 a (Extended.Fin (Ishc_main p)))
                ltac:(lia)) as [isc1 S1].
    rewrite S1. cbn [bind].
    pose proof (setitem_length _ _ _ _ S1) as Len1.
    destruct (@getitem_total _ isc1 bi ltac:(lia)) as [b Gb].
    rewrite Gb. cbn [bind].
    destruct (setitem_total isc1 bi
                (Extended.xmin2 b (Extended.Fin (Ishc_backup p)))
                ltac:(lia)) as [isc2 S2].
    rewrite S2. cbn [bind].
    pose proof (setitem_length _ _ _ _ S2) as Len2.
    apply IH; [|lia].
    inversion Hex as [? ? Hbad | ? ? Htail]; subst; [|exact Htail].
    destruct Hbad; contradiction.
Qed.

(** X10.  When the relay list has a non-blank name and some pair names a
    relay that is not among the non-blank names, the optimisation
    function of either script raises [KeyError] while it fills [IscMin],
    before any individual is drawn; the batch loop, if it lets the
    scenario through, records the error. *)
Theorem unknown_relay_raises_KeyError
        (float_pow : Q -> Q -> option Q) (which : Extended.script)
        (scenario : scenario_data) (rnd : rng) :
  filter nonblank (data_relays scenario) <> [] ->
  names_unknown_relay (data_pairs scenario)
                      (filter nonblank (data_relays scenario)) ->
  Extended.genetic_algorithm float_pow which scenario rnd = Raise KeyError
  /\ (Extended.admitted which scenario = true ->
      Extended.optimize_scenario float_pow which scenario rnd
      = Extended.Error KeyError).
Proof.
  intros Hne Hbad.
  assert (G : Extended.genetic_algorithm float_pow which scenario rnd
              = Raise KeyError).
  { unfold Extended.genetic_algorithm.
    destruct (nR (filter nonblank (data_relays scenario)) =? 0)%nat eqn:E.
    - apply Nat.eqb_eq in E. unfold nR in E.
      apply length_zero_iff_nil in E. contradiction.
    - rewrite (isc_loop_unknown _ _ Hbad); [reflexivity|].
      apply repeat_length. }
  split; [exact G|].
  intro Ha. unfold Extended.optimize_scenario. rewrite Ha, G. reflexivity.
Qed.

Lemma unknown_relay_raises_KeyError_witness :
  filter nonblank (data_relays stray_scenario) <> []
  /\ names_unknown_relay (data_pairs stray_scenario)
                         (filter nonblank (data_relays stray_scenario))
  /\ Extended.genetic_algorithm Example.linear_pow Extended.Full
                                stray_scenario Example.zero_rng
     = Raise KeyError
  /\ (Extended.admitted Extended.Full stray_scenario = true ->
      Extended.optimize_scenario Example.linear_pow Extended.Full
                                 stray_scenario Example.zero_rng
      = Extended.Error KeyError).
Proof.
  assert (H1 : filter nonblank (data_relays stray_scenario) <> [])
    by (vm_compute; discriminate).
  assert (H2 : names_unknown_relay
                 (data_pairs stray_scenario)
                 (filter nonblank (data_relays stray_scenario))).
  { apply Exists_cons_hd. right. vm_compute. intros [H | []].
    discriminate. }
  split; [exact H1|]. split; [exact H2|].
  apply unknown_relay_raises_KeyError; assumption.
Defined.

(** ** The returned settings *)

Lemma dict_set_new {V} (d : list (string * V)) (k : string) (v : V) :
  ~ In k (map fst d) -> dict_set d k v = d ++ [(k, v)].
Proof.
  induction d as [|[k' v'] d IH]; intro H; simpl; [reflexivity|].
  destruct (String.eqb_spec k' k) as [-> | Hne].
  - exfalso. apply H. left. reflexivity.
  - rewrite IH; [reflexivity|]. intro Hin. apply H. right. exact Hin.
Qed.

Lemma firstn_snoc_nth {A} (l : list A) (s : nat) (a : A) :
  nth_error l s = Some a -> firstn (S s) l = firstn s l ++ [a].
Proof.
  revert s. induction l as [|x l IH]; intros [|s] H; simpl in *;
    try discriminate.
  - injection H as ->. reflexivity.
  - rewrite <- (IH s H). reflexivity.
Qed.

Lemma nodup_not_in_firstn (l : list string) (s : nat) (a : string) :
  NoDup l -> nth_error l s = Some a -> ~ In a (firstn s l).
Proof.
  intros Hnd Hs Hin.
  destruct (In_nth_error _ _ Hin) as [i Hi].
  assert (Hlt : (i < s)%nat).
  { assert (Hn : nth_error (firstn s l) i <> None) by congruence.
    apply nth_error_Some in Hn. rewrite length_firstn in Hn. lia. }
  rewrite nth_error_firstn in Hi.
  destruct (Nat.ltb_spec i s) as [_ | Hge]; [|lia].
  assert (Hil : (i < List.length l)%nat).
  { apply nth_error_Some. congruence. }
  pose proof (proj1 (NoDup_nth_error l) Hnd i s Hil) as Heq.
  rewrite Hi, Hs in Heq. specialize (Heq eq_refl). lia.
Qed.

Section Extract.

Variable relays : list string.
Variable best : list Extended.xfloat.

Hypothesis relays_nodup : NoDup relays.
Hypothesis best_length : List.length best = Nv relays.

(** The entry of relay number [i]. *)
Let setting (i : nat) : Extended.xfloat * Extended.xfloat :=
  (Extended.xround5 (nth i best Extended.NaN),
   Extended.xround5 (nth (nR relays + i) best Extended.NaN)).

Lemma extract_spec (n : nat) :
  forall s acc,
    (s + n = nR relays)%nat ->
    map fst acc = firstn s relays ->
    (forall i name, (i < s)%nat -> nth_error relays i = Some name ->
                    dict_get acc name = Ok (setting i)) ->
    exists out,
      Extended.extract relays best (seq s n) acc = Ok out
      /\ map fst out = relays
      /\ forall i name, nth_error relays i = Some name ->
                        dict_get out name = Ok (setting i).
Proof.
  induction n as [|n IH]; intros s acc Hs Hkeys Hvals.
  - exists acc. split; [reflexivity|]. split.
    + rewrite Hkeys. apply firstn_all2. unfold nR in Hs. lia.
    + intros i name Hi. apply Hvals; [|exact Hi].
      assert (Hn : nth_error relays i <> None) by congruence.
      apply nth_error_Some in Hn. unfold nR in Hs. lia.
  - cbn [seq Extended.extract].
    assert (Hlt : (s < List.length relays)%nat) by (unfold nR in Hs; lia).
    destruct (nth_error relays s) as [name|] eqn:En;
      [|apply nth_error_None in En; lia].
    unfold getitem at 1. rewrite En. cbn [bind].
    destruct (@getitem_total _ (firstn (nR relays) best) s) as [t Gt].
    { rewrite length_firstn, best_length. unfold Nv, nR. lia. }
    destruct (@getitem_total _ (skipn (nR relays) best) s) as [p Gp].
    { rewrite length_skipn, best_length. unfold Nv, nR. lia. }
    rewrite Gt. cbn [bind]. rewrite Gp. cbn [bind].
    assert (Ht : t = nth s best Extended.NaN).
    { destruct (getitem_nth _ _ _ Extended.NaN Gt) as [_ <-].
      rewrite nth_firstn.
      destruct (Nat.ltb_spec s (nR relays)) as [_ | Hge];
        [reflexivity | unfold nR in Hge; lia]. }
    assert (Hp : p = nth (nR relays + s) best Extended.NaN).
    { destruct (getitem_nth _ _ _ Extended.NaN Gp) as [_ <-].
      apply nth_skipn. }
    assert (Hnew : ~ In name (map fst acc)).
    { rewrite Hkeys. apply nodup_not_in_firstn; assumption. }
    apply IH.
    + lia.
    + rewrite (dict_set_new _ _ _ Hnew), map_app, Hkeys. simpl.
      symmetry. apply firstn_snoc_nth. exact En.
    + intros i name' Hi Hn'.
      destruct (Nat.eq_dec i s) as [-> | Hne].
      * rewrite En in Hn'. injection Hn' as <-.
        rewrite dict_get_set_same. unfold setting. rewrite Ht, Hp.
        reflexivity.
      * rewrite dict_get_set_other; [apply Hvals; [lia | exact Hn']|].
        intro Heq. subst name'.
        assert (Hil : (i < List.length relays)%nat) by lia.
        pose proof (proj1 (NoDup_nth_error relays) relays_nodup i s Hil)
          as Hinj.
        rewrite Hn', En in Hinj. specialize (Hinj eq_refl). lia.
Qed.

End Extract.

(** X11.  For relay names without repetition and a best individual of
    [Nv] genes, the dictionary the optimisation function returns has one
    key per relay, in the order of the relay list, and looking a relay up
    gives its TDS gene and its pickup gene, each rounded to five
    decimals. *)
Theorem extract_settings_per_relay
        (relays : list string) (best : list Extended.xfloat) :
  NoDup relays ->
  List.length best = Nv relays ->
  exists out,
    Extended.extract relays best (seq 0 (nR relays)) [] = Ok out
    /\ map fst out = relays
    /\ forall i name, nth_error relays i = Some name ->
         dict_get out name
         = Ok (Extended.xround5 (nth i best Extended.NaN),
               Extended.xround5 (nth (nR relays + i) best Extended.NaN)).
Proof.
  intros Hnd Hlen.
  apply (extract_spec relays best Hnd Hlen (nR relays) 0%nat []).
  - reflexivity.
  - reflexivity.
  - intros i name Hi. lia.
Qed.

Lemma extract_settings_per_relay_witness :
  NoDup Example.relays
  /\ List.length (map Extended.Fin Example.good_individual)
     = Nv Example.relays
  /\ exists out,
      Extended.extract Example.relays
                       (map Extended.Fin Example.good_individual)
                       (seq 0 (nR Example.relays)) [] = Ok out
      /\ map fst out = Example.relays
      /\ forall i name, nth_error Example.relays i = Some name ->
           dict_get out name
           = Ok (Extended.xround5
                   (nth i (map Extended.Fin Example.good_individual)
                        Extended.NaN),
                 Extended.xround5
                   (nth (nR Example.relays + i)
                        (map Extended.Fin Example.good_individual)
                        Extended.NaN)).
Proof.
  assert (Hnd : NoDup Example.relays).
  { constructor; [intros [H | []]; discriminate|].
    constructor; [intros []|constructor]. }
  split; [exact Hnd|]. split; [reflexivity|].
  apply extract_settings_per_relay; [exact Hnd | reflexivity].
Defined.

(** ** The scenarios that the loader builds *)

Lemma lstrip_head (s : string) :
  match Loader.lstrip s with
  | EmptyString => True
  | String c _ => is_space c = false
  end.
Proof.
  induction s as [|c s IH]; simpl; [exact I|].
  destruct (is_space c) eqn:E; [exact IH | exact E].
Qed.

Lemma rstrip_head (c : ascii) (s : string) :
  is_space c = false ->
  exists t, Loader.rstrip (String c s) = String c t.
Proof.
  intro H. simpl. destruct (Loader.rstrip s) as [|c' r].
  - rewrite H. eauto.
  - eauto.
Qed.

(** A stripped name that is not empty has a character that is not
    white space, so [str(r).strip()] is true for it. *)
Lemma strip_nonblank (s : string) :
  Loader.is_empty (Loader.strip s) = false ->
  nonblank (Loader.strip s) = true.
Proof.
  unfold Loader.strip, Loader.is_empty. intro H.
  pose proof (lstrip_head s) as Hh.
  destruct (Loader.lstrip s) as [|c t].
  - simpl in H. discriminate.
  - destruct (rstrip_head c t Hh) as [r ->]. simpl. rewrite Hh.
    reflexivity.
Qed.

Lemma existsb_eqb_In (name : string) (rs : list string) :
  existsb (String.eqb name) rs = true <-> In name rs.
Proof.
  rewrite existsb_exists. split.
  - intros (x & Hx & E). apply String.eqb_eq in E. subst. exact Hx.
  - intro H. exists name. split; [exact H | apply String.eqb_refl].
Qed.

Lemma add_relay_In (rs : list string) (name x : string) :
  In x (Loader.add_relay rs name) <-> In x rs \/ x = name.
Proof.
  unfold Loader.add_relay.
  destruct (existsb (String.eqb name) rs) eqn:E.
  - apply existsb_eqb_In in E. split; [auto|].
    intros [H | ->]; assumption.
  - rewrite in_app_iff. simpl. intuition.
Qed.

Lemma add_relay_NoDup (rs : list string) (name : string) :
  NoDup rs -> NoDup (Loader.add_relay rs name).
Proof.
  intro H. unfold Loader.add_relay.
  destruct (existsb (String.eqb name) rs) eqn:E; [exact H|].
  apply NoDup_app; [exact H | constructor; [intros [] | constructor] |].
  intros x Hx [<- | []].
  apply existsb_eqb_In in Hx. congruence.
Qed.

Lemma has_setting_In
      (initial : list (string * (option Extended.xfloat
                                 * option Extended.xfloat)))
      (name : string) :
  Loader.has_setting initial name = true <-> In name (map fst initial).
Proof.
  unfold Loader.has_setting. rewrite existsb_exists, in_map_iff. split.
  - intros (kv & Hkv & E). apply String.eqb_eq in E. eauto.
  - intros (kv & E & Hkv). exists kv. split; [exact Hkv|].
    apply String.eqb_eq. exact E.
Qed.

Section LoaderFacts.

Variable repr : Loader.json -> string.
Variable float_of_int : Z -> option Q.
Variable float_of_str : string -> option Extended.xfloat.
Variable which : Extended.script.

Let relay_name (d : list (string * Loader.json)) : string :=
  Loader.strip (Loader.str repr (Loader.getd d "relay" (Loader.JStr ""))).

(** [store_initial_setting] leaves [initial] alone or adds one entry
    under a new name, with a TDS or a pickup. *)
Lemma store_initial_setting_spec
      (initial initial' : list (string * (option Extended.xfloat
                                          * option Extended.xfloat)))
      (d : list (string * Loader.json)) :
  Loader.store_initial_setting repr float_of_int float_of_str which
                               initial d = Loader.Done initial' ->
  initial' = initial
  \/ exists tds pu,
      initial' = initial ++ [(relay_name d, (tds, pu))]
      /\ ~ In (relay_name d) (map fst initial)
      /\ (tds <> None \/ pu <> None).
Proof.
  unfold Loader.store_initial_setting. fold (relay_name d).
  destruct (Loader.is_empty (relay_name d)) eqn:E1; cbn [orb];
    [intro H; injection H as <-; auto|].
  destruct (Loader.has_setting initial (relay_name d)) eqn:E2;
    [intro H; injection H as <-; auto|].
  destruct (Loader.get_numeric_field float_of_int float_of_str which d
              ["TDS"; "tds"]%string) as [tds|]; cbn [Loader.bind];
    [|discriminate].
  destruct (Loader.get_numeric_field float_of_int float_of_str which d
              ["pick_up"; "pickup"]%string) as [pu|]; cbn [Loader.bind];
    [|discriminate].
  assert (Hnew : ~ In (relay_name d) (map fst initial)).
  { intro Hin. apply has_setting_In in Hin. congruence. }
  destruct tds as [t|]; [|destruct pu as [q|]];
    intro H; injection H as <-; auto;
    right; eexists; eexists; (split; [reflexivity|]);
    (split; [exact Hnew|]); [left | right]; discriminate.
Qed.

Lemma scenario_inv_empty : scenario_inv Loader.empty_scenario.
Proof.
  unfold scenario_inv. simpl.
  split; [constructor|]. split; [constructor|].
  split; [intros r []|]. split; constructor.
Qed.

Lemma find_or_empty_inv (m : Loader.scenario_map) (sid : Loader.json) :
  scenario_map_ok m -> scenario_inv (Loader.find_or_empty m sid).
Proof.
  intros [Hall _]. induction m as [|[k sc] m IH]; simpl.
  - exact scenario_inv_empty.
  - inversion Hall as [|? ? (_ & _ & _ & Hsc) Hrest]; subst.
    destruct (Loader.key_eqb k sid); [exact Hsc | exact (IH Hrest)].
Qed.

(** The pair and the two names that an entry adds. *)
Lemma scenario_inv_extend (sc : Loader.scenario) (mname bname : string)
      (cm cb : Extended.xfloat) :
  scenario_inv sc ->
  nonblank mname = true -> nonblank bname = true ->
  current_kept cm -> current_kept cb ->
  scenario_inv
    {| Loader.pairs :=
         Loader.pairs sc ++ [ {| Loader.main_relay := mname;
                                 Loader.backup_relay := bname;
                                 Loader.Ishc_main := cm;
                                 Loader.Ishc_backup := cb |} ];
       Loader.relays :=
         Loader.add_relay (Loader.add_relay (Loader.relays sc) mname) bname;
       Loader.initial_settings := Loader.initial_settings sc |}.
Proof.
  intros (Hnd & Hps & Hcov & Hkeys & Hinit) Nm Nb Km Kb.
  unfold scenario_inv. cbn [Loader.pairs Loader.relays
                            Loader.initial_settings].
  split; [apply add_relay_NoDup, add_relay_NoDup, Hnd|].
  split.
  { apply Forall_app. split.
    - revert Hps. apply Forall_impl.
      intros p (H1 & H2 & H3). rewrite !add_relay_In. tauto.
    - constructor; [|constructor]. cbn.
      rewrite !add_relay_In. tauto. }
  split.
  { intros r Hr. rewrite !add_relay_In in Hr.
    destruct Hr as [[Hr | ->] | ->].
    - destruct (Hcov r Hr) as (p & Hp & Hn). exists p.
      rewrite in_app_iff. tauto.
    - eexists. rewrite in_app_iff. split; [right; left; reflexivity|].
      left. reflexivity.
    - eexists. rewrite in_app_iff. split; [right; left; reflexivity|].
      right. reflexivity. }
  split; [exact Hkeys|].
  revert Hinit. apply Forall_impl. intros kv [H1 H2].
  rewrite !add_relay_In. tauto.
Qed.

(** A call of [store_initial_setting] for a relay of the list. *)
Lemma scenario_inv_store (ps : list Loader.pair) (rs : list string)
      (initial initial' : list (string * (option Extended.xfloat
                                          * option Extended.xfloat)))
      (d : list (string * Loader.json)) :
  scenario_inv {| Loader.pairs := ps; Loader.relays := rs;
                  Loader.initial_settings := initial |} ->
  In (relay_name d) rs ->
  Loader.store_initial_setting repr float_of_int float_of_str which
                               initial d = Loader.Done initial' ->
  scenario_inv {| Loader.pairs := ps; Loader.relays := rs;
                  Loader.initial_settings := initial' |}.
Proof.
  intros (Hnd & Hps & Hcov & Hkeys & Hinit) Hin Hs.
  cbn [Loader.pairs Loader.relays Loader.initial_settings] in *.
  destruct (store_initial_setting_spec _ _ _ Hs)
    as [-> | (tds & pu & -> & Hnew & Hsome)].
  - repeat split; assumption.
  - unfold scenario_inv.
    cbn [Loader.pairs Loader.relays Loader.initial_settings].
    split; [exact Hnd|]. split; [exact Hps|]. split; [exact Hcov|].
    split.
    + rewrite map_app. cbn [map fst].
      apply NoDup_app; [exact Hkeys | constructor; [intros []|constructor]|].
      intros x Hx [<- | []]. contradiction.
    + apply Forall_app. split; [exact Hinit|].
      constructor; [|constructor]. cbn [fst snd]. auto.
Qed.

Lemma upsert_keys (Q : Loader.json -> Prop) (m : Loader.scenario_map)
      (sid : Loader.json) (sc : Loader.scenario) :
  Forall (fun b => Q (fst b)) m -> Q sid ->
  Forall (fun b => Q (fst b)) (Loader.upsert m sid sc).
Proof.
  intros Hm Hs. induction m as [|[k old] m IH]; simpl.
  - constructor; [exact Hs | constructor].
  - inversion Hm as [|? ? Hk Hrest]; subst.
    destruct (Loader.key_eqb k sid).
    + constructor; assumption.
    + constructor; [exact Hk | exact (IH Hrest)].
Qed.

Lemma upsert_ok (m : Loader.scenario_map) (sid : Loader.json)
      (sc : Loader.scenario) :
  scenario_map_ok m ->
  Loader.truthy sid = true -> Loader.hashable sid = true ->
  scenario_ok sc ->
  scenario_map_ok (Loader.upsert m sid sc).
Proof.
  intros [Hall Hkeys] Ht Hh Hsc. split.
  - clear Hkeys. induction m as [|[k old] m IH]; simpl.
    + constructor; [cbn; auto | constructor].
    + inversion Hall as [|? ? (Hk1 & Hk2 & Hk3) Hrest]; subst.
      cbn [fst snd] in *.
      destruct (Loader.key_eqb k sid).
      * constructor; [cbn; auto | exact Hrest].
      * constructor; [cbn; auto | exact (IH Hrest)].
  - clear Hall. induction m as [|[k old] m IH]; simpl.
    + constructor; [constructor | constructor].
    + inversion Hkeys as [|? ? Hk Hrest]; subst.
      destruct (Loader.key_eqb k sid) eqn:E.
      * constructor; assumption.
      * constructor; [|exact (IH Hrest)].
        apply (upsert_keys (fun b => Loader.key_eqb k b = false));
          assumption.
Qed.

(** What an entry that is accepted satisfies. *)
Lemma accepted_pair_facts (entry sid : Loader.json) (p : Loader.pair) :
  accepted_pair repr float_of_int float_of_str which entry
  = Some (sid, p) ->
  Loader.truthy sid = true
  /\ nonblank (Loader.main_relay p) = true
  /\ nonblank (Loader.backup_relay p) = true
  /\ current_kept (Loader.Ishc_main p)
  /\ current_kept (Loader.Ishc_backup p).
Proof.
  unfold accepted_pair.
  destruct entry as [| | | | | |e]; try discriminate.
  destruct (Loader.getd e "main_relay" Loader.JNull)
    as [| | | | | |md]; try discriminate.
  destruct (Loader.getd e "backup_relay" Loader.JNull)
    as [| | | | | |bd]; try discriminate.
  cbv zeta.
  destruct (Loader.get_numeric_field float_of_int float_of_str which md
              Loader.current_names) as [[cm|]|]; try discriminate.
  destruct (Loader.get_numeric_field float_of_int float_of_str which bd
              Loader.current_names) as [[cb|]|]; try discriminate.
  match goal with
  | |- (if ?c then _ else _) = _ -> _ => destruct c eqn:C
  end; [|discriminate].
  intro H. injection H as <- <-.
  repeat (apply andb_prop in C; destruct C as [C ?]).
  repeat match goal with
         | H : negb _ = true |- _ => apply negb_true_iff in H
         end.
  cbn [Loader.main_relay Loader.backup_relay Loader.Ishc_main
       Loader.Ishc_backup].
  split; [exact C|].
  split; [apply strip_nonblank; assumption|].
  split; [apply strip_nonblank; assumption|].
  unfold current_kept. auto.
Qed.

(** The loop body either leaves the map alone, when the entry is
    rejected, or stores the value of the scenario id extended with the
    accepted pair; in the fast script after the two calls of
    [store_initial_setting]. *)
Lemma group_entry_done (m m' : Loader.scenario_map) (entry : Loader.json) :
  Loader.group_entry repr float_of_int float_of_str which m entry
  = Loader.Done m' ->
  (accepted_pair repr float_of_int float_of_str which entry = None
   /\ m' = m)
  \/ exists sid p initial,
      accepted_pair repr float_of_int float_of_str which entry
      = Some (sid, p)
      /\ Loader.hashable sid = true
      /\ m' = Loader.upsert m sid
                (with_pair (Loader.find_or_empty m sid) p initial)
      /\ ((which = Extended.Full
           /\ initial
              = Loader.initial_settings (Loader.find_or_empty m sid))
          \/ (which = Extended.Fast
              /\ exists md bd i1,
                  relay_name md = Loader.main_relay p
                  /\ relay_name bd = Loader.backup_relay p
                  /\ Loader.store_initial_setting
                       repr float_of_int float_of_str which
                       (Loader.initial_settings
                          (Loader.find_or_empty m sid)) md
                     = Loader.Done i1
                  /\ Loader.store_initial_setting
                       repr float_of_int float_of_str which i1 bd
                     = Loader.Done initial)).
Proof.
  unfold Loader.group_entry, accepted_pair.
  destruct entry as [| | | | | |e]; try discriminate.
  cbn [Loader.as_dict Loader.bind]. cbv zeta.
  destruct (Loader.truthy (Loader.getd e "scenario_id" Loader.JNull))
    eqn:Ts.
  2:{ cbn [negb orb]. intro H. injection H as <-. left. split; [|reflexivity].
      destruct (Loader.getd e "main_relay" Loader.JNull); try reflexivity.
      destruct (Loader.getd e "backup_relay" Loader.JNull);
        try reflexivity.
      destruct (Loader.get_numeric_field _ _ _ d _) as [[?|]|];
        try reflexivity.
      destruct (Loader.get_numeric_field _ _ _ d0 _) as [[?|]|];
        reflexivity. }
  cbn [negb orb].
  destruct (Loader.truthy (Loader.getd e "main_relay" Loader.JNull))
    eqn:Tm.
  2:{ cbn [negb orb]. intro H. injection H as <-. left. split; [|reflexivity].
      destruct (Loader.getd e "main_relay" Loader.JNull); try reflexivity.
      destruct (Loader.getd e "backup_relay" Loader.JNull);
        try reflexivity.
      destruct (Loader.get_numeric_field _ _ _ d _) as [[?|]|];
        try reflexivity.
      destruct (Loader.get_numeric_field _ _ _ d0 _) as [[?|]|];
        try reflexivity.
      rewrite Tm. reflexivity. }
  cbn [negb orb].
  destruct (Loader.truthy (Loader.getd e "backup_relay" Loader.JNull))
    eqn:Tb.
  2:{ cbn [negb]. intro H. injection H as <-. left. split; [|reflexivity].
      destruct (Loader.getd e "main_relay" Loader.JNull); try reflexivity.
      destruct (Loader.getd e "backup_relay" Loader.JNull);
        try reflexivity.
      destruct (Loader.get_numeric_field _ _ _ d _) as [[?|]|];
        try reflexivity.
      destruct (Loader.get_numeric_field _ _ _ d0 _) as [[?|]|];
        try reflexivity.
      rewrite Tb, !andb_false_r. reflexivity. }
  cbn [negb].
  destruct (Loader.getd e "main_relay" Loader.JNull)
    as [| | | | | |md]; try discriminate.
  destruct (Loader.getd e "backup_relay" Loader.JNull)
    as [| | | | | |bd]; try discriminate.
  cbn [Loader.as_dict Loader.bind].
  fold (relay_name md). fold (relay_name bd).
  rewrite Tm, Tb. cbn [andb].
  destruct (Loader.is_empty (relay_name md)) eqn:Em.
  { cbn [orb]. intro H. injection H as <-. left. split; [|reflexivity].
    destruct (Loader.get_numeric_field _ _ _ md _) as [[?|]|];
      try reflexivity.
    destruct (Loader.get_numeric_field _ _ _ bd _) as [[?|]|];
      reflexivity. }
  destruct (Loader.is_empty (relay_name bd)) eqn:Eb.
  { cbn [orb]. intro H. injection H as <-. left. split; [|reflexivity].
    destruct (Loader.get_numeric_field _ _ _ md _) as [[?|]|];
      try reflexivity.
    destruct (Loader.get_numeric_field _ _ _ bd _) as [[?|]|];
      reflexivity. }
  cbn [orb negb andb].
  destruct (Loader.get_numeric_field float_of_int float_of_str which md
              Loader.current_names) as [im|]; cbn [Loader.bind];
    [|discriminate].
  destruct (Loader.get_numeric_field float_of_int float_of_str which bd
              Loader.current_names) as [ib|]; cbn [Loader.bind];
    [|discriminate].
  destruct im as [cm|];
    [|intro H; injection H as <-; left; split; reflexivity].
  destruct ib as [cb|];
    [|intro H; injection H as <-; left; split; reflexivity].
  destruct (Loader.zero cm) eqn:Z1;
    [intro H; injection H as <-; left; split; reflexivity|].
  destruct (Loader.zero cb) eqn:Z2;
    [intro H; injection H as <-; left; split; reflexivity|].
  destruct (Loader.le_zero cm) eqn:Z3;
    [intro H; injection H as <-; left; split; reflexivity|].
  destruct (Loader.le_zero cb) eqn:Z4;
    [intro H; injection H as <-; left; split; reflexivity|].
  cbn [orb negb andb].
  destruct (Loader.hashable (Loader.getd e "scenario_id" Loader.JNull))
    eqn:Hh; cbn [negb]; [|discriminate].
  intro H. right.
  set (sid := Loader.getd e "scenario_id" Loader.JNull) in *.
  set (p := {| Loader.main_relay := relay_name md;
               Loader.backup_relay := relay_name bd;
               Loader.Ishc_main := cm; Loader.Ishc_backup := cb |}) in *.
  destruct which eqn:W.
  - destruct (Loader.store_initial_setting repr float_of_int float_of_str
                Extended.Fast
                (Loader.initial_settings (Loader.find_or_empty m sid)) md)
      as [i1|] eqn:S1; cbn [Loader.bind] in H; [|discriminate].
    destruct (Loader.store_initial_setting repr float_of_int float_of_str
                Extended.Fast i1 bd)
      as [i2|] eqn:S2; cbn [Loader.bind] in H; [|discriminate].
    destruct (Loader.hashable (Loader.getd e "fault" (Loader.JStr "unknown")));
      [|discriminate].
    injection H as <-.
    exists sid, p, i2. split; [reflexivity|]. split; [exact Hh|].
    split; [reflexivity|]. right. split; [reflexivity|].
    exists md, bd, i1. auto.
  - injection H as <-.
    exists sid, p, (Loader.initial_settings (Loader.find_or_empty m sid)).
    split; [reflexivity|]. split; [exact Hh|].
    split; [reflexivity|]. left. auto.
Qed.

Lemma group_entry_ok (m m' : Loader.scenario_map) (entry : Loader.json) :
  scenario_map_ok m ->
  Loader.group_entry repr float_of_int float_of_str which m entry
  = Loader.Done m' ->
  scenario_map_ok m'.
Proof.
  intros Hok H.
  destruct (group_entry_done _ _ _ H)
    as [[_ ->] | (sid & p & initial & Ha & Hh & -> & Hi)];
    [exact Hok|].
  destruct (accepted_pair_facts _ _ _ Ha) as (Ts & Nm & Nb & Km & Kb).
  pose proof (find_or_empty_inv m sid Hok) as Hinv.
  pose proof (scenario_inv_extend _ _ _ _ _ Hinv Nm Nb Km Kb) as Hext.
  destruct p as [mname bname cm cb].
  cbn [Loader.main_relay Loader.backup_relay Loader.Ishc_main
       Loader.Ishc_backup] in *.
  apply upsert_ok; [exact Hok | exact Ts | exact Hh |].
  split.
  { unfold with_pair. cbn [Loader.pairs].
    intro E. apply app_eq_nil in E. destruct E as [_ E]. discriminate. }
  unfold with_pair.
  cbn [Loader.main_relay Loader.backup_relay].
  destruct Hi as [[_ ->] | (_ & md & bd & i1 & Rm & Rb & S1 & S2)];
    [exact Hext|].
  eapply scenario_inv_store; [| |exact S2].
  - eapply scenario_inv_store; [exact Hext | |exact S1].
    rewrite Rm, !add_relay_In. tauto.
  - rewrite Rb, !add_relay_In. tauto.
Qed.

Lemma group_loop_ok (data_array : list Loader.json) :
  forall m m',
    scenario_map_ok m ->
    Loader.group_loop repr float_of_int float_of_str which data_array m
    = Loader.Done m' ->
    scenario_map_ok m'.
Proof.
  induction data_array as [|entry rest IH]; intros m m' Hok H.
  - simpl in H. injection H as <-. exact Hok.
  - cbn [Loader.group_loop] in H.
    destruct (Loader.group_entry repr float_of_int float_of_str which
                                 m entry) as [m1|] eqn:E;
      cbn [Loader.bind] in H; [|discriminate].
    apply (IH m1 m'); [|exact H].
    exact (group_entry_ok _ _ _ Hok E).
Qed.

End LoaderFacts.

(** ** Which entries end up in which scenario *)

Ltac split_floats :=
  repeat match goal with
         | x : Extended.xfloat |- _ => destruct x
         end.

Lemma key_eqb_sym (a b : Loader.json) :
  Loader.key_eqb a b = Loader.key_eqb b a.
Proof.
  destruct a, b; split_floats; cbn; try reflexivity;
    try apply String.eqb_sym;
    match goal with
    | |- Qeq_bool ?x ?y = Qeq_bool ?y ?x =>
        destruct (Qeq_bool x y) eqn:E; destruct (Qeq_bool y x) eqn:F;
        try reflexivity;
        [apply Qeq_bool_sym in E | apply Qeq_bool_sym in F]; congruence
    end.
Qed.

Lemma key_eqb_trans (a b c : Loader.json) :
  Loader.key_eqb a b = true -> Loader.key_eqb b c = true ->
  Loader.key_eqb a c = true.
Proof.
  destruct a, b; split_floats; cbn; try discriminate;
    destruct c; split_floats; cbn; try discriminate; try reflexivity;
    try apply Qeq_bool_trans.
  intros H1 H2. apply String.eqb_eq in H1, H2. apply String.eqb_eq.
  congruence.
Qed.

(** Two equal keys compare alike with every third key. *)
Lemma key_eqb_congr (k k' x : Loader.json) :
  Loader.key_eqb k k' = true ->
  Loader.key_eqb x k = Loader.key_eqb x k'.
Proof.
  intro H.
  destruct (Loader.key_eqb x k) eqn:E1; destruct (Loader.key_eqb x k') eqn:E2;
    try reflexivity.
  - rewrite (key_eqb_trans x k k' E1 H) in E2. discriminate.
  - rewrite key_eqb_sym in H.
    rewrite (key_eqb_trans x k' k E2 H) in E1. discriminate.
Qed.

Lemma find_or_empty_congr (m : Loader.scenario_map) (k k' : Loader.json) :
  Loader.key_eqb k k' = true ->
  Loader.find_or_empty m k = Loader.find_or_empty m k'.
Proof.
  intro H. induction m as [|[x sc] m IH]; simpl; [reflexivity|].
  rewrite (key_eqb_congr k k' x H), IH. reflexivity.
Qed.

Lemma find_or_empty_upsert (m : Loader.scenario_map) (k k' : Loader.json)
      (sc : Loader.scenario) :
  Loader.find_or_empty (Loader.upsert m k sc) k'
  = if Loader.key_eqb k k' then sc else Loader.find_or_empty m k'.
Proof.
  induction m as [|[x old] m IH]; simpl; [reflexivity|].
  destruct (Loader.key_eqb x k) eqn:E1; simpl.
  - destruct (Loader.key_eqb k k') eqn:E2.
    + rewrite (key_eqb_trans x k k' E1 E2). reflexivity.
    + destruct (Loader.key_eqb x k') eqn:E3; [|reflexivity].
      rewrite key_eqb_sym in E1.
      rewrite (key_eqb_trans k x k' E1 E3) in E2. discriminate.
  - rewrite IH.
    destruct (Loader.key_eqb x k') eqn:E3; [|reflexivity].
    destruct (Loader.key_eqb k k') eqn:E2; [|reflexivity].
    rewrite key_eqb_sym in E2.
    rewrite (key_eqb_trans x k' k E3 E2) in E1. discriminate.
Qed.

Lemma find_or_empty_cases (m : Loader.scenario_map) (sid : Loader.json) :
  Loader.find_or_empty m sid = Loader.empty_scenario
  \/ exists k, In (k, Loader.find_or_empty m sid) m
               /\ Loader.key_eqb k sid = true.
Proof.
  induction m as [|[x sc] m IH]; simpl; [left; reflexivity|].
  destruct (Loader.key_eqb x sid) eqn:E.
  - right. exists x. auto.
  - destruct IH as [-> | (k & Hin & Hk)]; [left; reflexivity|].
    right. exists k. auto.
Qed.

Lemma find_or_empty_found (m : Loader.scenario_map) (sid k : Loader.json)
      (sc : Loader.scenario) :
  In (k, sc) m -> Loader.key_eqb k sid = true ->
  exists k', In (k', Loader.find_or_empty m sid) m.
Proof.
  induction m as [|[x old] m IH]; intros Hin Hk; [destruct Hin|].
  simpl. destruct (Loader.key_eqb x sid) eqn:E.
  - exists x. left. reflexivity.
  - destruct Hin as [Heq | Hin]; [injection Heq as -> ->; congruence|].
    destruct (IH Hin Hk) as [k' Hk']. exists k'. right. exact Hk'.
Qed.

Lemma pairs_of_app (sid : Loader.json)
      (l1 l2 : list (Loader.json * Loader.pair)) :
  pairs_of sid (l1 ++ l2) = pairs_of sid l1 ++ pairs_of sid l2.
Proof.
  unfold pairs_of. rewrite filter_app, map_app. reflexivity.
Qed.

Lemma relays_of_app (ps1 ps2 : list Loader.pair) (rs : list string) :
  relays_of (ps1 ++ ps2) rs = relays_of ps2 (relays_of ps1 rs).
Proof.
  unfold relays_of. apply fold_left_app.
Qed.

Section Grouping.

Variable repr : Loader.json -> string.
Variable float_of_int : Z -> option Q.
Variable float_of_str : string -> option Extended.xfloat.
Variable which : Extended.script.

Let one (entry : Loader.json) : list (Loader.json * Loader.pair) :=
  match accepted_pair repr float_of_int float_of_str which entry with
  | Some kp => [kp]
  | None => []
  end.

Lemma group_entry_content (m m' : Loader.scenario_map)
      (entry sid : Loader.json) :
  Loader.group_entry repr float_of_int float_of_str which m entry
  = Loader.Done m' ->
  Loader.pairs (Loader.find_or_empty m' sid)
  = Loader.pairs (Loader.find_or_empty m sid) ++ pairs_of sid (one entry)
  /\ Loader.relays (Loader.find_or_empty m' sid)
     = relays_of (pairs_of sid (one entry))
                 (Loader.relays (Loader.find_or_empty m sid)).
Proof.
  intro H. unfold one.
  destruct (group_entry_done repr float_of_int float_of_str which _ _ _ H)
    as [[-> ->] | (k & p & initial & -> & _ & -> & _)].
  - cbn. rewrite app_nil_r. auto.
  - rewrite find_or_empty_upsert. unfold pairs_of. cbn [filter fst].
    destruct (Loader.key_eqb k sid) eqn:E.
    + rewrite (find_or_empty_congr m k sid E). cbn. auto.
    + cbn. rewrite app_nil_r. auto.
Qed.

Lemma group_loop_content (data_array : list Loader.json)
      (sid : Loader.json) :
  forall m m',
    Loader.group_loop repr float_of_int float_of_str which data_array m
    = Loader.Done m' ->
    Loader.pairs (Loader.find_or_empty m' sid)
    = Loader.pairs (Loader.find_or_empty m sid)
      ++ pairs_of sid (accepted_pairs repr float_of_int float_of_str
                                      which data_array)
    /\ Loader.relays (Loader.find_or_empty m' sid)
       = relays_of (pairs_of sid
                      (accepted_pairs repr float_of_int float_of_str
                                      which data_array))
                   (Loader.relays (Loader.find_or_empty m sid)).
Proof.
  induction data_array as [|entry rest IH]; intros m m' H.
  - simpl in H. injection H as <-. cbn. rewrite app_nil_r. auto.
  - cbn [Loader.group_loop] in H.
    destruct (Loader.group_entry repr float_of_int float_of_str which
                                 m entry) as [m1|] eqn:E;
      cbn [Loader.bind] in H; [|discriminate].
    destruct (group_entry_content _ _ _ sid E) as [P1 R1].
    destruct (IH _ _ H) as [P2 R2].
    unfold accepted_pairs. cbn [flat_map]. fold (one entry).
    fold (accepted_pairs repr float_of_int float_of_str which rest).
    rewrite pairs_of_app, relays_of_app, P2, R2, P1, R1, app_assoc.
    auto.
Qed.

End Grouping.

(** X13.  In the map that [group_data_by_scenario] returns, in either
    script, the pairs stored under a scenario id are exactly the pairs of
    the accepted entries with that id, in the order of the input, and the
    relays are the names of these pairs in order of first appearance; an
    id is a key of the map exactly when some entry with that id was
    accepted. *)
Theorem grouped_pairs_are_the_accepted_entries
        (repr : Loader.json -> string) (float_of_int : Z -> option Q)
        (float_of_str : string -> option Extended.xfloat)
        (which : Extended.script)
        (data_array : list Loader.json) (m : Loader.scenario_map) :
  Loader.group_data_by_scenario repr float_of_int float_of_str which
                                data_array = Loader.Done m ->
  forall sid,
    Loader.pairs (Loader.find_or_empty m sid)
    = pairs_of sid (accepted_pairs repr float_of_int float_of_str which
                                   data_array)
    /\ Loader.relays (Loader.find_or_empty m sid)
       = relays_of (pairs_of sid
                      (accepted_pairs repr float_of_int float_of_str
                                      which data_array)) []
    /\ ((exists k sc, In (k, sc) m /\ Loader.key_eqb k sid = true)
        <-> pairs_of sid (accepted_pairs repr float_of_int float_of_str
                                         which data_array) <> []).
Proof.
  unfold Loader.group_data_by_scenario. intros H sid.
  destruct (group_loop_content repr float_of_int float_of_str which
              data_array sid [] m H) as [P R].
  cbn [Loader.find_or_empty Loader.empty_scenario Loader.pairs
       Loader.relays app] in P, R.
  split; [exact P|]. split; [exact R|].
  assert (Hok : scenario_map_ok m).
  { apply (group_loop_ok repr float_of_int float_of_str which
                         data_array [] m); [|exact H].
    split; constructor. }
  rewrite <- P. split.
  - intros (k & sc & Hin & Hk).
    destruct (find_or_empty_found m sid k sc Hin Hk) as [k' Hk'].
    destruct Hok as [Hall _]. rewrite Forall_forall in Hall.
    destruct (Hall _ Hk') as (_ & _ & Hne & _). exact Hne.
  - intro Hne.
    destruct (find_or_empty_cases m sid) as [E | (k & Hin & Hk)].
    + rewrite E in Hne. cbn in Hne. congruence.
    + exists k, (Loader.find_or_empty m sid). auto.
Qed.

Lemma grouped_pairs_are_the_accepted_entries_witness :
  exists m,
    Loader.group_data_by_scenario sample_repr sample_float_of_int
                                  sample_float_of_str Extended.Full
                                  sample_input = Loader.Done m
    /\ forall sid,
        Loader.pairs (Loader.find_or_empty m sid)
        = pairs_of sid (accepted_pairs sample_repr sample_float_of_int
                                       sample_float_of_str Extended.Full
                                       sample_input)
        /\ Loader.relays (Loader.find_or_empty m sid)
           = relays_of (pairs_of sid
                          (accepted_pairs sample_repr sample_float_of_int
                                          sample_float_of_str Extended.Full
                                          sample_input)) []
        /\ ((exists k sc, In (k, sc) m /\ Loader.key_eqb k sid = true)
            <-> pairs_of sid
                  (accepted_pairs sample_repr sample_float_of_int
                                  sample_float_of_str Extended.Full
                                  sample_input) <> []).
Proof.
  eexists. split; [vm_compute; reflexivity|].
  apply (grouped_pairs_are_the_accepted_entries
           sample_repr sample_float_of_int sample_float_of_str
           Extended.Full sample_input).
  vm_compute. reflexivity.
Defined.

(** X12.  Every scenario that [group_data_by_scenario] returns, in
    either script, has at least one pair; its relay names are distinct,
    each is the name of a relay of some pair, and none is blank; every
    pair names relays of the list and carries two currents that passed
    [not c or c <= 0]; the initial settings are at most one per relay of
    the list.  The keys of the map are true as conditions and pairwise
    different. *)
Theorem grouped_scenarios_well_formed
        (repr : Loader.json -> string) (float_of_int : Z -> option Q)
        (float_of_str : string -> option Extended.xfloat)
        (which : Extended.script)
        (data_array : list Loader.json) (m : Loader.scenario_map) :
  Loader.group_data_by_scenario repr float_of_int float_of_str which
                                data_array = Loader.Done m ->
  scenario_map_ok m.
Proof.
  unfold Loader.group_data_by_scenario. intro H.
  apply (group_loop_ok repr float_of_int float_of_str which
                       data_array [] m); [|exact H].
  split; constructor.
Qed.

Lemma grouped_scenarios_well_formed_witness :
  exists m,
    Loader.group_data_by_scenario sample_repr sample_float_of_int
                                  sample_float_of_str Extended.Fast
                                  sample_input = Loader.Done m
    /\ scenario_map_ok m.
Proof.
  eexists. split; [vm_compute; reflexivity|].
  apply (grouped_scenarios_well_formed
           sample_repr sample_float_of_int sample_float_of_str
           Extended.Fast sample_input).
  vm_compute. reflexivity.
Defined.

(** ** Input of the expected shape *)

Section LoaderTotal.

Variable repr : Loader.json -> string.
Variable float_of_int : Z -> option Q.
Variable float_of_str : string -> option Extended.xfloat.
Variable which : Extended.script.

Hypothesis no_overflow :
  which = Extended.Fast -> forall z, float_of_int z <> None.

Lemma get_numeric_field_total (d : list (string * Loader.json))
      (names : list string) :
  exists r,
    Loader.get_numeric_field float_of_int float_of_str which d names
    = Loader.Done r.
Proof.
  induction names as [|n names IH]; simpl; [eauto|].
  destruct (Loader.lookup d n) as [v|]; [|exact IH].
  destruct (Loader.to_float float_of_int float_of_str v) eqn:E;
    [eauto | exact IH |].
  destruct which eqn:W; [|exact IH].
  exfalso. destruct v; simpl in E; try discriminate.
  - destruct (float_of_int z) eqn:F; [discriminate|].
    apply (no_overflow eq_refl z). exact F.
  - destruct (float_of_str s); discriminate.
Qed.

Lemma store_initial_setting_total
      (initial : list (string * (option Extended.xfloat
                                 * option Extended.xfloat)))
      (d : list (string * Loader.json)) :
  exists initial',
    Loader.store_initial_setting repr float_of_int float_of_str which
                                 initial d = Loader.Done initial'.
Proof.
  unfold Loader.store_initial_setting.
  match goal with
  | |- exists _, (if ?c then _ else _) = _ => destruct c
  end; [eauto|].
  destruct (get_numeric_field_total d ["TDS"; "tds"]%string) as [tds ->].
  destruct (get_numeric_field_total d ["pick_up"; "pickup"]%string)
    as [pu ->].
  cbn [Loader.bind]. destruct tds, pu; eauto.
Qed.

Lemma has_get_dict (v : Loader.json) :
  has_get v = true -> Loader.truthy v = true ->
  exists d, v = Loader.JDict d.
Proof.
  destruct v; simpl; intros H T; try (rewrite T in H; discriminate);
    try discriminate.
  eauto.
Qed.

Lemma group_entry_total (m : Loader.scenario_map) (entry : Loader.json) :
  entry_typed entry ->
  exists m',
    Loader.group_entry repr float_of_int float_of_str which m entry
    = Loader.Done m'.
Proof.
  intros (e & -> & Hs & Hm & Hb & Hf).
  unfold Loader.group_entry. cbn [Loader.as_dict Loader.bind]. cbv zeta.
  destruct (Loader.truthy (Loader.getd e "scenario_id" Loader.JNull));
    [|cbn; eauto].
  destruct (Loader.truthy (Loader.getd e "main_relay" Loader.JNull)) eqn:Tm;
    [|cbn; eauto].
  destruct (Loader.truthy (Loader.getd e "backup_relay" Loader.JNull))
    eqn:Tb; [|cbn; eauto].
  cbn [negb orb].
  destruct (has_get_dict _ Hm Tm) as [md ->].
  destruct (has_get_dict _ Hb Tb) as [bd ->].
  cbn [Loader.as_dict Loader.bind].
  match goal with
  | |- exists _, (if ?c then _ else _) = _ => destruct c
  end; [eauto|].
  destruct (get_numeric_field_total md Loader.current_names) as [im ->].
  destruct (get_numeric_field_total bd Loader.current_names) as [ib ->].
  cbn [Loader.bind].
  destruct im as [cm|]; [|eauto]. destruct ib as [cb|]; [|eauto].
  match goal with
  | |- exists _, (if ?c then _ else _) = _ => destruct c
  end; [eauto|].
  rewrite Hs. cbn [negb].
  pose proof store_initial_setting_total as ST.
  destruct which; [|eauto].
  destruct (ST (Loader.initial_settings
                  (Loader.find_or_empty
                     m (Loader.getd e "scenario_id" Loader.JNull))) md)
    as [i1 ->].
  cbn [Loader.bind].
  destruct (ST i1 bd) as [i2 ->].
  cbn [Loader.bind]. rewrite Hf. eauto.
Qed.

Lemma group_loop_total (data_array : list Loader.json) :
  Forall entry_typed data_array ->
  forall m, exists m',
      Loader.group_loop repr float_of_int float_of_str which data_array m
      = Loader.Done m'.
Proof.
  induction 1 as [|entry rest Ht _ IH]; intro m; simpl; [eauto|].
  destruct (group_entry_total m entry Ht) as [m1 ->].
  cbn [Loader.bind]. apply IH.
Qed.

End LoaderTotal.

(** X14.  On a list of entries of the expected shape (dictionaries whose
    scenario id can be a key, whose main and backup relay are
    dictionaries or false as a condition, and whose fault label can
    enter a set) [group_data_by_scenario] returns, whatever the names
    and the currents are: a missing or blank name, a current that is
    missing, not a number or not positive only makes the loop skip the
    entry.  For the fast script this needs every integer of the input to
    fit a float. *)
Theorem loader_returns_on_typed_input
        (repr : Loader.json -> string) (float_of_int : Z -> option Q)
        (float_of_str : string -> option Extended.xfloat)
        (which : Extended.script) (data_array : list Loader.json) :
  Forall entry_typed data_array ->
  (which = Extended.Fast -> forall z, float_of_int z <> None) ->
  exists m,
    Loader.group_data_by_scenario repr float_of_int float_of_str which
                                  data_array = Loader.Done m.
Proof.
  intros Ht Hov. unfold Loader.group_data_by_scenario.
  apply group_loop_total; assumption.
Qed.

Lemma sample_input_typed : Forall entry_typed sample_input.
Proof.
  repeat constructor; eexists; (split; [reflexivity|]);
    repeat split; reflexivity.
Qed.

Lemma loader_returns_on_typed_input_witness :
  Forall entry_typed sample_input
  /\ (Extended.Fast = Extended.Fast ->
      forall z, sample_float_of_int z <> None)
  /\ exists m,
      Loader.group_data_by_scenario sample_repr sample_float_of_int
                                    sample_float_of_str Extended.Fast
                                    sample_input = Loader.Done m.
Proof.
  assert (H : Extended.Fast = Extended.Fast ->
              forall z, sample_float_of_int z <> None)
    by (intros _ z; discriminate).
  split; [exact sample_input_typed|]. split; [exact H|].
  apply loader_returns_on_typed_input; [exact sample_input_typed | exact H].
Defined.

(** ** From the loader to the optimisation function *)

Lemma finite_pair_fields (p : Loader.pair) (q : pair) :
  finite_pair p = Some q ->
  main_relay q = Loader.main_relay p
  /\ backup_relay q = Loader.backup_relay p
  /\ Loader.Ishc_main p = Extended.Fin (Ishc_main q)
  /\ Loader.Ishc_backup p = Extended.Fin (Ishc_backup q).
Proof.
  unfold finite_pair.
  destruct (Loader.Ishc_main p) as [a| | |]; try discriminate.
  destruct (Loader.Ishc_backup p) as [b| | |]; try discriminate.
  intro H. injection H as <-. simpl. auto.
Qed.

Lemma finite_pairs_In (ps : list Loader.pair) :
  forall qs,
    finite_pairs ps = Some qs ->
    (forall q, In q qs -> exists p, In p ps /\ finite_pair p = Some q)
    /\ (forall p, In p ps -> exists q, In q qs /\ finite_pair p = Some q).
Proof.
  induction ps as [|p ps IH]; intros qs H; simpl in H.
  - injection H as <-. split; intros x [].
  - destruct (finite_pair p) as [q|] eqn:E; [|discriminate].
    destruct (finite_pairs ps) as [qs'|]; [|discriminate].
    injection H as <-. destruct (IH qs' eq_refl) as [H1 H2]. split.
    + intros x [<- | Hx]; [exists p; simpl; auto|].
      destruct (H1 x Hx) as (p' & Hp' & E'). exists p'. simpl. auto.
    + intros x [<- | Hx]; [exists q; simpl; auto|].
      destruct (H2 x Hx) as (q' & Hq' & E'). exists q'. simpl. auto.
Qed.

Lemma current_kept_positive (a : Q) :
  current_kept (Extended.Fin a) -> 0 < a.
Proof.
  unfold current_kept, Loader.zero, Loader.le_zero. simpl.
  intros [_ H]. apply Qnot_le_lt. intro L. apply leb_le in L. congruence.
Qed.

Lemma idx_of_position (relays : list string) (i : nat) (k : string) :
  NoDup relays -> nth_error relays i = Some k ->
  dict_get (idx relays) k = Ok i.
Proof.
  intros Hnd E.
  destruct (idx_lookup relays k (nth_error_In _ _ E)) as (i' & E' & L).
  pose proof (idx_sound relays k i' E') as S.
  assert (i = i').
  { apply (proj1 (NoDup_nth_error relays) Hnd).
    - apply nth_error_Some. congruence.
    - congruence. }
  subst i'. exact E'.
Qed.

Lemma filter_all {A} (f : A -> bool) (l : list A) :
  (forall x, In x l -> f x = true) -> filter f l = l.
Proof.
  induction l as [|a l IH]; intro H; simpl; [reflexivity|].
  rewrite (H a (or_introl eq_refl)), IH; [reflexivity|].
  intros x Hx. apply H. right. exact Hx.
Qed.

(** With every relay named by a pair and positive currents, [IscMin] is
    a list of positive numbers. *)
Lemma isc_loop_all_finite (relays : list string) (pairs : list pair) :
  NoDup relays ->
  pairs_known pairs relays ->
  currents_positive pairs ->
  (forall r, In r relays ->
             exists p, In p pairs
                       /\ (main_relay p = r \/ backup_relay p = r)) ->
  exists IscMin,
    Extended.isc_loop relays pairs (repeat Extended.PosInf (nR relays))
    = Ok (map Extended.Fin IscMin)
    /\ Forall (fun c => 0 < c) IscMin.
Proof.
  intros Hnd Hk Hpos Hcov.
  destruct (isc_loop_spec relays pairs Hk
              (repeat Extended.PosInf (nR relays)))
    as (isc & Hloop & Len & _ & L).
  { apply repeat_length. }
  { apply Forall_forall. intros x Hx. apply repeat_spec in Hx. left.
    exact Hx. }
  assert (Hfin : forall i, (i < nR relays)%nat ->
                   exists c, nth i isc Extended.NaN = Extended.Fin c
                             /\ 0 < c).
  { intros i Hi. specialize (L i Hi).
    rewrite nth_repeat_lt in L by exact Hi.
    destruct L as (A & _ & C).
    destruct (nth_error relays i) as [r|] eqn:Er;
      [|apply nth_error_None in Er; unfold nR in Hi; lia].
    destruct (Hcov r (nth_error_In _ _ Er)) as (p & Hp & Hn).
    pose proof (idx_of_position relays i r Hnd Er) as Hidx.
    assert (Hat : exists c, current_at relays p i c).
    { destruct Hn as [<- | <-].
      - exists (Ishc_main p). left. auto.
      - exists (Ishc_backup p). right. auto. }
    destruct Hat as [c0 Hat].
    pose proof (C c0 (ex_intro _ p (conj Hp Hat))) as Hle.
    destruct A as [E | (c & (p' & Hp' & Hc') & E)].
    - rewrite E in Hle. discriminate.
    - exists c. split; [exact E|].
      destruct (Hpos p' Hp') as [P1 P2].
      destruct Hc' as [[_ ->] | [_ ->]]; assumption. }
  exists (map (fun x => match x with
                        | Extended.Fin c => c
                        | _ => 0
                        end) isc).
  split.
  - rewrite Hloop. f_equal. rewrite map_map.
    apply (nth_ext _ _ Extended.NaN Extended.NaN);
      [rewrite length_map; reflexivity|].
    intros i Hi.
    rewrite (nth_map_lt _ isc i Extended.NaN Extended.NaN)
      by (rewrite Len in *; lia).
    destruct (Hfin i) as (c & -> & _); [lia | reflexivity].
  - apply Forall_forall. intros c Hc. apply in_map_iff in Hc.
    destruct Hc as (x & <- & Hx).
    destruct (In_nth _ _ Extended.NaN Hx) as (i & Hi & <-).
    destruct (Hfin i) as (c & -> & Hc); [lia | exact Hc].
Qed.

(** X15.  A scenario that [group_data_by_scenario] returns and whose
    currents are all numbers is an input on which the optimisation
    function is on firm ground: it has a pair, so the batch loop of
    optimize_all_scenarios.py lets it through; its relay names are
    distinct and none is dropped as blank, so the guard [nR == 0] is not
    taken; its pairs name relays of the list, so no look-up in [idx]
    raises; its currents are positive; and [IscMin] comes out as a list
    of positive numbers, never [inf]. *)
Theorem loaded_scenario_fits_the_search
        (repr : Loader.json -> string) (float_of_int : Z -> option Q)
        (float_of_str : string -> option Extended.xfloat)
        (which : Extended.script)
        (data_array : list Loader.json) (m : Loader.scenario_map)
        (k : Loader.json) (sc : Loader.scenario) (sd : scenario_data) :
  Loader.group_data_by_scenario repr float_of_int float_of_str which
                                data_array = Loader.Done m ->
  In (k, sc) m ->
  to_scenario_data sc = Some sd ->
  Extended.admitted Extended.Full sd = true
  /\ NoDup (data_relays sd)
  /\ filter nonblank (data_relays sd) = data_relays sd
  /\ data_relays sd <> []
  /\ pairs_known (data_pairs sd) (data_relays sd)
  /\ currents_positive (data_pairs sd)
  /\ exists IscMin,
      Extended.isc_loop (data_relays sd) (data_pairs sd)
                        (repeat Extended.PosInf (nR (data_relays sd)))
      = Ok (map Extended.Fin IscMin)
      /\ Forall (fun c => 0 < c) IscMin.
Proof.
  intros H Hin Hsd.
  assert (Hok : scenario_map_ok m).
  { apply (group_loop_ok repr float_of_int float_of_str which
                         data_array [] m); [|exact H].
    split; constructor. }
  destruct Hok as [Hall _]. rewrite Forall_forall in Hall.
  destruct (Hall _ Hin) as (_ & _ & Hne & Hnd & Hps & Hcov & _).
  cbn [snd] in *.
  unfold to_scenario_data in Hsd.
  destruct (finite_pairs (Loader.pairs sc)) as [qs|] eqn:Eq;
    [|discriminate].
  injection Hsd as <-. cbn [data_pairs data_relays].
  destruct (finite_pairs_In _ _ Eq) as [Hq Hp].
  rewrite Forall_forall in Hps.
  assert (Hqs : qs <> []).
  { destruct (Loader.pairs sc) as [|p ps] eqn:Ep; [congruence|].
    destruct (Hp p (or_introl eq_refl)) as (q & Hq' & _).
    intro E. rewrite E in Hq'. destruct Hq'. }
  assert (Hknown : pairs_known qs (Loader.relays sc)).
  { intros q Hq'. destruct (Hq q Hq') as (p & Hp' & E).
    destruct (finite_pair_fields _ _ E) as (-> & -> & _).
    destruct (Hps p Hp') as (H1 & H2 & _). auto. }
  assert (Hposc : currents_positive qs).
  { intros q Hq'. destruct (Hq q Hq') as (p & Hp' & E).
    destruct (finite_pair_fields _ _ E) as (_ & _ & E1 & E2).
    destruct (Hps p Hp') as (_ & _ & _ & _ & K1 & K2).
    rewrite E1 in K1. rewrite E2 in K2.
    split; apply current_kept_positive; assumption. }
  assert (Hcovq : forall r, In r (Loader.relays sc) ->
                    exists q, In q qs
                              /\ (main_relay q = r \/ backup_relay q = r)).
  { intros r Hr. destruct (Hcov r Hr) as (p & Hp' & Hn).
    destruct (Hp p Hp') as (q & Hq' & E).
    destruct (finite_pair_fields _ _ E) as (E1 & E2 & _).
    exists q. rewrite E1, E2. auto. }
  split.
  { cbn. destruct qs; [congruence | reflexivity]. }
  split; [exact Hnd|].
  split.
  { apply filter_all. intros r Hr.
    destruct (Hcov r Hr) as (p & Hp' & Hn).
    destruct (Hps p Hp') as (_ & _ & N1 & N2 & _).
    destruct Hn as [<- | <-]; assumption. }
  split.
  { destruct qs as [|q qs']; [congruence|].
    destruct (Hknown q (or_introl eq_refl)) as [Hm _].
    intro E. rewrite E in Hm. destruct Hm. }
  split; [exact Hknown|]. split; [exact Hposc|].
  apply isc_loop_all_finite; assumption.
Qed.

Lemma loaded_scenario_fits_the_search_witness :
  exists m k sc sd,
    Loader.group_data_by_scenario sample_repr sample_float_of_int
                                  sample_float_of_str Extended.Fast
                                  sample_input = Loader.Done m
    /\ In (k, sc) m
    /\ to_scenario_data sc = Some sd
    /\ Extended.admitted Extended.Full sd = true
    /\ NoDup (data_relays sd)
    /\ filter nonblank (data_relays sd) = data_relays sd
    /\ data_relays sd <> []
    /\ pairs_known (data_pairs sd) (data_relays sd)
    /\ currents_positive (data_pairs sd)
    /\ exists IscMin,
        Extended.isc_loop (data_relays sd) (data_pairs sd)
                          (repeat Extended.PosInf (nR (data_relays sd)))
        = Ok (map Extended.Fin IscMin)
        /\ Forall (fun c => 0 < c) IscMin.
Proof.
  eexists. eexists. eexists. eexists.
  split; [vm_compute; reflexivity|].
  split; [left; reflexivity|].
  split; [vm_compute; reflexivity|].
  eapply (loaded_scenario_fits_the_search
            sample_repr sample_float_of_int sample_float_of_str
            Extended.Fast sample_input);
    [vm_compute; reflexivity | left; reflexivity | vm_compute; reflexivity].
Defined.

(** ** The summary of the batch *)



(** ** An input without any accepted entry *)

Lemma key_eqb_refl (k : Loader.json) :
  Loader.hashable k = true -> Loader.key_eqb k k = true.
Proof.
  destruct k; split_floats; cbn; try discriminate; try reflexivity;
    intros _.
  - destruct b; reflexivity.
  - apply Qeq_bool_refl.
  - apply Qeq_bool_refl.
  - apply String.eqb_refl.
Qed.

(** X17.  If [group_data_by_scenario] returns and no entry of the input
    passes its tests, the scenario map is empty, so that the batch
    function, which then has nothing to optimise, ends with the
    [ZeroDivisionError] of its summary. *)
Theorem no_accepted_entry_no_scenario
        (repr : Loader.json -> string) (float_of_int : Z -> option Q)
        (float_of_str : string -> option Extended.xfloat)
        (which : Extended.script)
        (data_array : list Loader.json) (m : Loader.scenario_map) :
  Loader.group_data_by_scenario repr float_of_int float_of_str which
                                data_array = Loader.Done m ->
  accepted_pairs repr float_of_int float_of_str which data_array = [] ->
  m = []
  /\ forall float_pow rnds (read : Loader.scenario -> scenario_data),
      optimize_all_scenarios float_pow which (map read (map snd m)) rnds
      = Raise ZeroDivisionError.
Proof.
  intros H Hnone.
  assert (Hm : m = []).
  { destruct m as [|[k sc] m']; [reflexivity|]. exfalso.
    assert (Hok : scenario_map_ok ((k, sc) :: m')).
    { apply (group_loop_ok repr float_of_int float_of_str which
                           data_array [] _); [|exact H].
      split; constructor. }
    destruct Hok as [Hall _].
    inversion Hall as [|? ? (_ & Hh & Hne & _) _]; subst.
    cbn [fst snd] in *.
    destruct (group_loop_content repr float_of_int float_of_str which
                data_array k [] _ H) as [P _].
    rewrite Hnone in P. cbn in P.
    rewrite (key_eqb_refl k Hh) in P. congruence. }
  split; [exact Hm|]. intros float_pow rnds read. rewrite Hm. reflexivity.
Qed.

Lemma no_accepted_entry_no_scenario_witness :
  exists m,
    Loader.group_data_by_scenario
      sample_repr sample_float_of_int sample_float_of_str Extended.Fast
      [sample_entry "scenario_1" "R1" "R2" 0 5] = Loader.Done m
    /\ accepted_pairs
         sample_repr sample_float_of_int sample_float_of_str Extended.Fast
         [sample_entry "scenario_1" "R1" "R2" 0 5] = []
    /\ m = []
    /\ forall float_pow rnds (read : Loader.scenario -> scenario_data),
        optimize_all_scenarios float_pow Extended.Fast
                               (map read (map snd m)) rnds
        = Raise ZeroDivisionError.
Proof.
  eexists. split; [vm_compute; reflexivity|].
  split; [vm_compute; reflexivity|].
  apply (no_accepted_entry_no_scenario
           sample_repr sample_float_of_int sample_float_of_str
           Extended.Fast [sample_entry "scenario_1" "R1" "R2" 0 5]);
    vm_compute; reflexivity.
Defined.

(** ** The order of the scenarios in the fast script *)

Lemma split_underscore_cons (s : string) :
  exists w ws, split_underscore s = w :: ws.
Proof.
  induction s as [|c s IH]; simpl; [eauto|].
  destruct (Ascii.eqb c "_"); [eauto|].
  destruct IH as (w & ws & ->). eauto.
Qed.

Lemma split_underscore_second (s : string) :
  (1 < List.length (split_underscore s))%nat <-> has_underscore s = true.
Proof.
  induction s as [|c s IH]; simpl.
  - split; [lia | discriminate].
  - destruct (Ascii.eqb c "_"); simpl.
    + destruct (split_underscore_cons s) as (w & ws & ->). simpl.
      split; [reflexivity | lia].
    + destruct (split_underscore_cons s) as (w & ws & E).
      rewrite E in *. simpl in *. exact IH.
Qed.

Lemma order_key_returns (x : string) :
  has_underscore x = true -> exists k, order_key x = Ok k.
Proof.
  intro H. apply split_underscore_second in H. unfold order_key.
  destruct (@getitem_total _ (split_underscore x) 1%nat H) as [part ->].
  simpl. destruct (isdigit part); eauto.
Qed.

Lemma order_key_raises (x : string) :
  has_underscore x = false -> order_key x = Raise IndexError.
Proof.
  intro H. unfold order_key, getitem.
  destruct (nth_error (split_underscore x) 1) eqn:E; [|reflexivity].
  assert (Hn : nth_error (split_underscore x) 1 <> None) by congruence.
  apply nth_error_Some in Hn. apply split_underscore_second in Hn.
  congruence.
Qed.

Lemma order_keys_spec (ids : list string) :
  Forall (fun x => has_underscore x = true) ids ->
  exists ks, order_keys ids = Ok ks
             /\ map snd ks = ids
             /\ Forall (fun kx => order_key (snd kx) = Ok (fst kx)) ks.
Proof.
  induction 1 as [|x ids Hx _ IH]; simpl.
  - exists []. repeat split. constructor.
  - destruct (order_key_returns x Hx) as [k Hk]. rewrite Hk.
    destruct IH as (ks & -> & Hm & Hall). simpl.
    exists ((k, x) :: ks). split; [reflexivity|]. split.
    + simpl. rewrite Hm. reflexivity.
    + constructor; [exact Hk | exact Hall].
Qed.

Lemma order_keys_raises (ids : list string) :
  Exists (fun x => has_underscore x = false) ids ->
  order_keys ids = Raise IndexError.
Proof.
  induction ids as [|x ids IH]; intro H; [inversion H|].
  simpl. destruct (has_underscore x) eqn:Hx.
  - destruct (order_key_returns x Hx) as [k ->]. simpl.
    inversion H as [? ? Hbad | ? ? Htail]; subst; [congruence|].
    rewrite (IH Htail). reflexivity.
  - rewrite (order_key_raises x Hx). reflexivity.
Qed.

Lemma insert_by_key_perm (r : nat * string) (l : list (nat * string)) :
  Permutation (r :: l) (insert_by_key r l).
Proof.
  induction l as [|y l IH]; simpl; [reflexivity|].
  destruct (fst y <? fst r)%nat; [|reflexivity].
  rewrite perm_swap. constructor. exact IH.
Qed.

Lemma sort_by_key_perm (l : list (nat * string)) :
  Permutation l (sort_by_key l).
Proof.
  induction l as [|r l IH]; simpl; [constructor|].
  rewrite <- insert_by_key_perm. constructor. exact IH.
Qed.

Lemma insert_by_key_sorted (r : nat * string) (l : list (nat * string)) :
  Sorted (fun a b => (fst a <= fst b)%nat) l ->
  Sorted (fun a b => (fst a <= fst b)%nat) (insert_by_key r l).
Proof.
  induction l as [|y l IH]; intro H; simpl.
  - repeat constructor.
  - inversion H as [|? ? Hs Hh]; subst.
    destruct (Nat.ltb_spec (fst y) (fst r)) as [L | L].
    + constructor; [exact (IH Hs)|].
      destruct l as [|z l]; simpl.
      * constructor. lia.
      * inversion Hh; subst.
        destruct (fst z <? fst r)%nat; constructor; [assumption | lia].
    + constructor; [exact H|]. constructor. exact L.
Qed.

Lemma sort_by_key_sorted (l : list (nat * string)) :
  Sorted (fun a b => (fst a <= fst b)%nat) (sort_by_key l).
Proof.
  induction l as [|r l IH]; simpl; [constructor|].
  apply insert_by_key_sorted. exact IH.
Qed.

(** X18.  The fast script orders the scenario ids by the number after
    their first underscore (999 when that part is not a number): when
    every id has an underscore, the order is a rearrangement of the ids
    in ascending order of that key; when some id has none, computing the
    order raises [IndexError], before any scenario is optimised. *)
Theorem scenario_order_needs_underscores (ids : list string) :
  (Forall (fun x => has_underscore x = true) ids ->
   exists out,
     scenario_order ids = Ok out
     /\ Permutation ids (map snd out)
     /\ Forall (fun kx => order_key (snd kx) = Ok (fst kx)) out
     /\ Sorted (fun a b => (fst a <= fst b)%nat) out)
  /\ (Exists (fun x => has_underscore x = false) ids ->
      scenario_order ids = Raise IndexError).
Proof.
  split.
  - intro H. destruct (order_keys_spec ids H) as (ks & Hk & Hm & Hall).
    exists (sort_by_key ks). unfold scenario_order. rewrite Hk.
    split; [reflexivity|]. split.
    + rewrite <- Hm. apply Permutation_map. apply sort_by_key_perm.
    + split; [|apply sort_by_key_sorted].
      rewrite Forall_forall in *. intros kx Hin. apply Hall.
      apply (Permutation_in _ (Permutation_sym (sort_by_key_perm ks))).
      exact Hin.
  - intro H. unfold scenario_order. rewrite (order_keys_raises ids H).
    reflexivity.
Qed.

(** ** Writing the settings back into the pairs *)

Lemma lookup_set_item_same (d : list (string * Loader.json)) (k : string)
      (v : Loader.json) :
  Loader.lookup (WriteBack.set_item d k v) k = Some v.
Proof.
  induction d as [|[k' v'] d IH]; simpl.
  - rewrite String.eqb_refl. reflexivity.
  - destruct (String.eqb_spec k' k) as [-> | Hne]; simpl.
    + rewrite String.eqb_refl. reflexivity.
    + destruct (String.eqb_spec k' k); [contradiction | exact IH].
Qed.

Lemma lookup_set_item_other (d : list (string * Loader.json))
      (k k' : string) (v : Loader.json) :
  k <> k' ->
  Loader.lookup (WriteBack.set_item d k v) k' = Loader.lookup d k'.
Proof.
  intro Hne. induction d as [|[x v'] d IH]; simpl.
  - destruct (String.eqb_spec k k'); [contradiction | reflexivity].
  - destruct (String.eqb_spec x k) as [-> | Hxk]; simpl.
    + destruct (String.eqb_spec k k'); [contradiction | reflexivity].
    + destruct (String.eqb_spec x k'); [reflexivity | exact IH].
Qed.

(** Stripping a stripped string changes nothing. *)
Lemma rstrip_idem (s : string) :
  Loader.rstrip (Loader.rstrip s) = Loader.rstrip s.
Proof.
  induction s as [|c s IH]; simpl; [reflexivity|].
  destruct (Loader.rstrip s) as [|c' r] eqn:E.
  - destruct (is_space c) eqn:Ec; simpl; [reflexivity|].
    rewrite Ec. reflexivity.
  - cbn [Loader.rstrip]. fold Loader.rstrip.
    change (match Loader.rstrip (String c' r) with
            | EmptyString => if is_space c then EmptyString
                             else String c EmptyString
            | String a s0 => String c (String a s0)
            end = String c (String c' r)).
    rewrite IH. reflexivity.
Qed.

Lemma lstrip_fixed (s : string) :
  match s with
  | EmptyString => True
  | String c _ => is_space c = false
  end ->
  Loader.lstrip s = s.
Proof.
  destruct s as [|c s]; simpl; [reflexivity|].
  intros ->. reflexivity.
Qed.

Lemma strip_idem (s : string) :
  Loader.strip (Loader.strip s) = Loader.strip s.
Proof.
  unfold Loader.strip.
  assert (H : Loader.lstrip (Loader.rstrip (Loader.lstrip s))
              = Loader.rstrip (Loader.lstrip s)).
  { apply lstrip_fixed.
    pose proof (lstrip_head s) as Hh.
    destruct (Loader.lstrip s) as [|c t]; simpl; [exact I|].
    destruct (rstrip_head c t Hh) as [r E]. simpl in E. rewrite E.
    exact Hh. }
  rewrite H. apply rstrip_idem.
Qed.

Lemma dict_get_key {V} (d : list (string * V)) (k : string) (v : V) :
  dict_get d k = Ok v -> In k (map fst d).
Proof.
  induction d as [|[k' v'] d IH]; simpl; [discriminate|].
  destruct (String.eqb_spec k' k) as [-> | Hne]; [auto|].
  intro H. right. exact (IH H).
Qed.

Section WriteBackFacts.

Variable float_of_int : Z -> option Q.
Variable float_of_str : string -> option Extended.xfloat.
Variable time_iec :
  option Extended.xfloat -> Extended.xfloat -> Extended.xfloat
  -> Loader.outcome Extended.xfloat.
Variable which : Extended.script.
Variable optimized : list (string * (Extended.xfloat * Extended.xfloat)).

Lemma update_relay_found (relay after : list (string * Loader.json))
      (tds pu : Extended.xfloat) :
  WriteBack.find_setting optimized (Loader.getd relay "relay" Loader.JNull)
  = Loader.Done (Some (tds, pu)) ->
  WriteBack.update_relay float_of_int float_of_str time_iec which
                         optimized relay = Loader.Done after ->
  settings_written relay after tds pu.
Proof.
  unfold WriteBack.update_relay. intros -> H. cbn [Loader.bind] in H.
  assert (Base :
    forall d2,
      (d2 = WriteBack.set_item
              (WriteBack.set_item relay "pick_up" (Loader.JFloat pu))
              "TDS" (Loader.JFloat tds)
       \/ d2 = WriteBack.set_item
                 (WriteBack.set_item relay "TDS" (Loader.JFloat tds))
                 "pick_up" (Loader.JFloat pu)) ->
      settings_written relay d2 tds pu).
  { intros d2 [-> | ->]; unfold settings_written.
    - rewrite lookup_set_item_same.
      rewrite lookup_set_item_other by discriminate.
      rewrite lookup_set_item_same.
      split; [reflexivity|]. split; [reflexivity|].
      intros k H1 H2 _.
      rewrite !lookup_set_item_other by congruence. reflexivity.
    - rewrite lookup_set_item_same.
      rewrite lookup_set_item_other by discriminate.
      rewrite lookup_set_item_same.
      split; [reflexivity|]. split; [reflexivity|].
      intros k H1 H2 _.
      rewrite !lookup_set_item_other by congruence. reflexivity. }
  assert (Timed :
    forall d2 t,
      settings_written relay d2 tds pu ->
      settings_written relay
        (WriteBack.set_item d2 "Time_out" (Loader.JFloat t)) tds pu).
  { intros d2 t (H1 & H2 & H3). unfold settings_written.
    rewrite !lookup_set_item_other by discriminate.
    split; [exact H1|]. split; [exact H2|].
    intros k K1 K2 K3.
    rewrite lookup_set_item_other by congruence. apply H3; assumption. }
  destruct which; cbv zeta in H.
  - destruct (Loader.get_numeric_field _ _ _ _ _) as [ishc|];
      cbn [Loader.bind] in H; [|discriminate].
    destruct ishc as [i|];
      [|injection H as <-; apply Base; left; reflexivity].
    destruct (Loader.zero i);
      [injection H as <-; apply Base; left; reflexivity|].
    destruct (time_iec (Some i) pu tds) as [t|];
      cbn [Loader.bind] in H; [|discriminate].
    injection H as <-. apply Timed, Base. left. reflexivity.
  - destruct (Loader.get_numeric_field _ _ _ _ _) as [ishc|];
      cbn [Loader.bind] in H; [|discriminate].
    destruct (time_iec ishc pu tds) as [t|];
      cbn [Loader.bind] in H; [|discriminate].
    injection H as <-. apply Timed, Base. right. reflexivity.
Qed.

Lemma update_relay_not_found (relay after : list (string * Loader.json)) :
  WriteBack.find_setting optimized (Loader.getd relay "relay" Loader.JNull)
  = Loader.Done None ->
  WriteBack.update_relay float_of_int float_of_str time_iec which
                         optimized relay = Loader.Done after ->
  after = relay.
Proof.
  unfold WriteBack.update_relay. intros -> H. cbn [Loader.bind] in H.
  injection H as <-. reflexivity.
Qed.

End WriteBackFacts.

(** X19.  The update of a relay dictionary with the optimised settings
    goes by the raw value of its ["relay"] item: when that value is a
    string that is a key of the settings, the dictionary comes back with
    these TDS and pickup, its other items but the operating time
    unchanged; when it is no key, it comes back as it was.  The keys
    being stripped names, a relay whose name carries white space at
    either end is never updated, although its pairs were optimised under
    the stripped name. *)
Theorem write_back_goes_by_raw_name
        (float_of_int : Z -> option Q)
        (float_of_str : string -> option Extended.xfloat)
        (time_iec : option Extended.xfloat -> Extended.xfloat
                    -> Extended.xfloat -> Loader.outcome Extended.xfloat)
        (which : Extended.script)
        (optimized : list (string * (Extended.xfloat * Extended.xfloat)))
        (relay after : list (string * Loader.json)) :
  WriteBack.update_relay float_of_int float_of_str time_iec which
                         optimized relay = Loader.Done after ->
  (forall s tds pu,
      Loader.getd relay "relay" Loader.JNull = Loader.JStr s ->
      dict_get optimized s = Ok (tds, pu) ->
      settings_written relay after tds pu)
  /\ (forall s,
         Loader.getd relay "relay" Loader.JNull = Loader.JStr s ->
         dict_get optimized s = Raise KeyError ->
         after = relay)
  /\ (forall s,
         Loader.getd relay "relay" Loader.JNull = Loader.JStr s ->
         Loader.strip s <> s ->
         keys_stripped optimized ->
         after = relay).
Proof.
  intro H. split; [|split].
  - intros s tds pu Hs Hd.
    apply (update_relay_found float_of_int float_of_str time_iec which
                              optimized relay after tds pu); [|exact H].
    rewrite Hs. simpl. rewrite Hd. reflexivity.
  - intros s Hs Hd.
    apply (update_relay_not_found float_of_int float_of_str time_iec which
                                  optimized relay after); [|exact H].
    rewrite Hs. simpl. rewrite Hd. reflexivity.
  - intros s Hs Hpad Hkeys.
    apply (update_relay_not_found float_of_int float_of_str time_iec which
                                  optimized relay after); [|exact H].
    rewrite Hs. simpl.
    destruct (dict_get optimized s) as [v|e] eqn:Hd; [|reflexivity].
    exfalso. apply dict_get_key in Hd.
    apply in_map_iff in Hd. destruct Hd as (kv & Hk & Hin).
    unfold keys_stripped in Hkeys. rewrite Forall_forall in Hkeys.
    destruct (Hkeys kv Hin) as [raw Hraw].
    apply Hpad. rewrite <- Hk, Hraw. apply strip_idem.
Qed.

Lemma write_back_goes_by_raw_name_witness :
  exists after,
    WriteBack.update_relay sample_float_of_int sample_float_of_str
                           sample_time_iec Extended.Full
                           sample_optimized padded_relay
    = Loader.Done after
    /\ (forall s tds pu,
           Loader.getd padded_relay "relay" Loader.JNull = Loader.JStr s ->
           dict_get sample_optimized s = Ok (tds, pu) ->
           settings_written padded_relay after tds pu)
    /\ (forall s,
           Loader.getd padded_relay "relay" Loader.JNull = Loader.JStr s ->
           dict_get sample_optimized s = Raise KeyError ->
           after = padded_relay)
    /\ (forall s,
           Loader.getd padded_relay "relay" Loader.JNull = Loader.JStr s ->
           Loader.strip s <> s ->
           keys_stripped sample_optimized ->
           after = padded_relay).
Proof.
  eexists. split; [vm_compute; reflexivity|].
  apply (write_back_goes_by_raw_name
           sample_float_of_int sample_float_of_str sample_time_iec
           Extended.Full sample_optimized padded_relay).
  vm_compute. reflexivity.
Defined.

(** ** The two embeddings side by side *)

Lemma getitem_map {A B} (f : A -> B) (l : list A) (i : nat) :
  getitem (map f l) i = rmap f (getitem l i).
Proof.
  unfold getitem. rewrite nth_error_map.
  destruct (nth_error l i); reflexivity.
Qed.

Lemma setitem_map {A B} (f : A -> B) (l : list A) (i : nat) (v : A) :
  setitem (map f l) i (f v) = rmap (map f) (setitem l i v).
Proof.
  revert i. induction l as [|a l IH]; intros [|i]; simpl; try reflexivity.
  rewrite IH. destruct (setitem l i v); reflexivity.
Qed.

Lemma last_map {A B} (f : A -> B) (l : list A) (a : A) :
  last (map f l) (f a) = f (last l a).
Proof.
  induction l as [|x l IH]; simpl; [reflexivity|].
  destruct l as [|y l]; [reflexivity|]. exact IH.
Qed.

Lemma getlast_map {A B} (f : A -> B) (l : list A) :
  getlast (map f l) = rmap f (getlast l).
Proof.
  destruct l as [|a l]; simpl; [reflexivity|].
  rewrite last_map. reflexivity.
Qed.

Lemma removelast_map {A B} (f : A -> B) (l : list A) :
  removelast (map f l) = map f (removelast l).
Proof.
  induction l as [|a l IH]; [reflexivity|].
  destruct l as [|b l]; [reflexivity|].
  change (f a :: removelast (map f (b :: l))
          = f a :: map f (removelast (b :: l))).
  rewrite IH. reflexivity.
Qed.

Lemma setlast_map {A B} (f : A -> B) (l : list A) (v : A) :
  setlast (map f l) (f v) = rmap (map f) (setlast l v).
Proof.
  destruct l as [|a l]; [reflexivity|].
  unfold setlast. cbn [map rmap].
  change (f a :: map f l) with (map f (a :: l)).
  rewrite removelast_map, map_app. reflexivity.
Qed.

Lemma forallb_eq_in {A} (f g : A -> bool) (l : list A) :
  (forall x, In x l -> f x = g x) -> forallb f l = forallb g l.
Proof.
  induction l as [|a l IH]; intro H; simpl; [reflexivity|].
  rewrite (H a (or_introl eq_refl)), IH; [reflexivity|].
  intros x Hx. apply H. right. exact Hx.
Qed.

Lemma existsb_under_map {A B} (f : A -> B) (g : B -> bool)
      (h : A -> bool) (l : list A) :
  (forall x, In x l -> g (f x) = h x) ->
  existsb g (map f l) = existsb h l.
Proof.
  intro H. induction l as [|a l IH]; [reflexivity|].
  cbn [map existsb]. rewrite (H a (or_introl eq_refl)). f_equal.
  apply IH. intros x Hx. apply H. right. exact Hx.
Qed.

Lemma xmin_lift (relays : list string) :
  Extended.xmin relays = map Extended.Fin (xmin relays).
Proof.
  unfold Extended.xmin, xmin. rewrite map_app, !map_repeat. reflexivity.
Qed.

Lemma xmax_lift (relays : list string) (IscMin : list Q) :
  Extended.xmax relays (map Extended.Fin IscMin)
  = map Extended.Fin (xmax relays IscMin).
Proof.
  unfold Extended.xmax, xmax.
  rewrite map_app, map_repeat, !map_map. reflexivity.
Qed.

Lemma sample_gene_lift (lo hi r : Q) :
  Extended.sample_gene (Extended.Fin lo) (Extended.Fin hi) r
  = Extended.Fin (sample_gene lo hi r).
Proof. reflexivity. Qed.

Lemma insert_by_fit_lift (r : individual) (l : list individual) :
  Extended.insert_by_fit (lift_individual r) (map lift_individual l)
  = map lift_individual (insert_by_fit r l).
Proof.
  induction l as [|y l IH]; simpl; [reflexivity|].
  destruct (ltb (fit y) (fit r)); simpl; [rewrite IH|]; reflexivity.
Qed.

Lemma sort_by_fit_lift (l : list individual) :
  Extended.sort_by_fit (map lift_individual l)
  = map lift_individual (sort_by_fit l).
Proof.
  induction l as [|r l IH]; simpl; [reflexivity|].
  unfold Extended.sort_by_fit, sort_by_fit in *. simpl.
  rewrite IH. apply insert_by_fit_lift.
Qed.

Lemma add_penalties_lift (tmt tM tB : Q) :
  Extended.add_penalties (Extended.Fin tmt) (Extended.Fin tM)
                         (Extended.Fin tB)
  = Extended.Fin (add_penalties tmt tM tB).
Proof.
  unfold Extended.add_penalties, add_penalties. cbn.
  unfold Qminus.
  match goal with
  | |- context [ltb ?x CTI] => destruct (ltb x CTI)
  end; destruct (ltb MAX_TIME tM); reflexivity.
Qed.

Lemma update_best_lift (pop : list individual) (best : individual)
      (n : nat) :
  Extended.update_best (map lift_individual pop) (lift_individual best) n
  = rmap lift_state (update_best pop best n).
Proof.
  unfold Extended.update_best, update_best.
  rewrite getitem_map. destruct (getitem pop 0) as [top|e]; [|reflexivity].
  cbn. destruct (ltb (fit top) (fit best)); reflexivity.
Qed.

Section Side.

Variable float_pow : Q -> Q -> option Q.
Variable which : Extended.script.
Variable pairs : list pair.
Variable relays : list string.
Variable IscMin : list Q.

Hypothesis IscMin_length : List.length IscMin = nR relays.

Lemma iec_time_lift (I PU TDS : Q) :
  Extended.iec_time float_pow (Extended.Fin I) (Extended.Fin PU)
                    (Extended.Fin TDS)
  = rmap Extended.Fin (iec_time float_pow I PU TDS).
Proof.
  unfold Extended.iec_time, iec_time, truediv, pow. cbn.
  destruct (Qeq_bool PU 0); [reflexivity|]. cbn.
  destruct (float_pow (I / PU) N) as [v|]; [|reflexivity]. cbn.
  unfold Qminus.
  match goal with
  | |- context [Qeq_bool ?x 0] => destruct (Qeq_bool x 0)
  end; reflexivity.
Qed.

Lemma relay_time_lift (I PU TDS : Q) :
  Extended.relay_time float_pow which (Extended.Fin I) (Extended.Fin PU)
                      (Extended.Fin TDS)
  = rmap Extended.Fin (relay_time_of which float_pow I PU TDS).
Proof.
  unfold Extended.relay_time, relay_time_of,
    GaOptimizationFast.relay_time, OptimizeAllScenarios.relay_time.
  cbn [Extended.xleb]. unfold leb.
  destruct which; cbv beta;
    (destruct (Qle_bool I PU); [reflexivity|]);
    rewrite iec_time_lift;
    (destruct (iec_time float_pow I PU TDS) as [t|e];
     [|destruct e; reflexivity]);
    cbn [rmap bind]; unfold Extended.xmin2, Extended.xmax2, min2, max2;
    cbn [Extended.xltb];
    destruct (ltb t 0.0); cbn [Extended.xltb];
    match goal with
    | |- context [ltb sentinel ?x] => destruct (ltb sentinel x)
    end; reflexivity.
Qed.

Lemma fitness_loop_lift (g : list Q) (ps : list pair) :
  forall tmt,
    Extended.fitness_loop float_pow which relays ps
                          (map Extended.Fin g) (Extended.Fin tmt)
    = rmap Extended.Fin
           (fitness_loop (relay_time_of which float_pow) relays ps g tmt).
Proof.
  induction ps as [|p ps IH]; intro tmt; [reflexivity|].
  cbn [Extended.fitness_loop fitness_loop]. unfold pair_times. cbv zeta.
  destruct (dict_get (idx relays) (main_relay p)) as [mi|e];
    [|reflexivity].
  cbn [bind].
  destruct (dict_get (idx relays) (backup_relay p)) as [bi|e];
    [|reflexivity].
  cbn [bind].
  rewrite firstn_map, skipn_map, !getitem_map.
  destruct (getitem (skipn (nR relays) g) mi) as [pum|e]; [|reflexivity].
  cbn [rmap bind].
  destruct (getitem (firstn (nR relays) g) mi) as [tdsm|e];
    [|reflexivity].
  cbn [rmap bind]. rewrite relay_time_lift.
  destruct (relay_time_of which float_pow (Ishc_main p) pum tdsm)
    as [tM|e]; [|reflexivity].
  cbn [rmap bind].
  destruct (getitem (skipn (nR relays) g) bi) as [pub|e]; [|reflexivity].
  cbn [rmap bind].
  destruct (getitem (firstn (nR relays) g) bi) as [tdsb|e];
    [|reflexivity].
  cbn [rmap bind]. rewrite relay_time_lift.
  destruct (relay_time_of which float_pow (Ishc_backup p) pub tdsb)
    as [tB|e]; [|reflexivity].
  cbn [rmap bind fst snd]. rewrite add_penalties_lift. apply IH.
Qed.

Lemma fitness_lift (g : list Q) :
  Extended.fitness float_pow which pairs relays (map Extended.Fin g)
  = rmap Extended.Fin (fitness (relay_time_of which float_pow)
                               pairs relays g).
Proof.
  apply fitness_loop_lift.
Qed.

Lemma random_individual_lift (u : nat -> Q) :
  Extended.random_individual relays (map Extended.Fin IscMin) u
  = map Extended.Fin (random_individual relays IscMin u).
Proof.
  unfold Extended.random_individual, random_individual.
  rewrite map_map. apply map_ext_in. intros j Hj.
  apply in_seq in Hj. rewrite xmin_lift, xmax_lift.
  rewrite (nth_map_lt Extended.Fin (xmin relays) j 0 Extended.NaN)
    by (rewrite xmin_length; lia).
  rewrite (nth_map_lt Extended.Fin (xmax relays IscMin) j 0 Extended.NaN)
    by (rewrite xmax_length by exact IscMin_length; lia).
  reflexivity.
Qed.

Lemma initial_rows_lift (rnd : rng) (ks : list nat) :
  Extended.initial_rows float_pow which pairs relays
                        (map Extended.Fin IscMin) rnd ks
  = rmap (map lift_individual)
         (initial_rows (relay_time_of which float_pow) pairs relays
                       IscMin rnd ks).
Proof.
  induction ks as [|i ks IH]; [reflexivity|].
  cbn [Extended.initial_rows initial_rows]. cbv zeta.
  rewrite random_individual_lift, fitness_lift.
  destruct (fitness (relay_time_of which float_pow) pairs relays
                    (random_individual relays IscMin (init_u rnd i)))
    as [f|e]; [|reflexivity].
  cbn [rmap bind]. rewrite IH.
  destruct (initial_rows (relay_time_of which float_pow) pairs relays
                         IscMin rnd ks) as [rest|e]; reflexivity.
Qed.

Lemma initial_state_lift (rnd : rng) :
  Extended.initial_state float_pow which pairs relays
                         (map Extended.Fin IscMin) rnd
  = rmap lift_state
         (initial_state (relay_time_of which float_pow)
                        (Extended.config_of which) pairs relays IscMin rnd).
Proof.
  unfold Extended.initial_state, initial_state.
  rewrite initial_rows_lift.
  destruct (initial_rows (relay_time_of which float_pow) pairs relays
                         IscMin rnd
                         (seq 0 (GA_Ni (Extended.config_of which))))
    as [rows|e]; [|reflexivity].
  cbn [rmap bind]. rewrite sort_by_fit_lift, getitem_map.
  destruct (getitem (sort_by_fit rows) 0) as [best|e]; reflexivity.
Qed.

Lemma mutate_lift (ms : list (nat * Q)) :
  forall child,
    Extended.mutate relays (map Extended.Fin IscMin)
                    (map Extended.Fin child) ms
    = rmap (map Extended.Fin) (mutate relays IscMin child ms).
Proof.
  induction ms as [|[m r] ms IH]; intro child; [reflexivity|].
  cbn [Extended.mutate mutate].
  rewrite xmin_lift, xmax_lift, !getitem_map.
  destruct (getitem (xmin relays) m) as [lo|e]; [|reflexivity].
  cbn [rmap bind].
  destruct (getitem (xmax relays IscMin) m) as [hi|e]; [|reflexivity].
  cbn [rmap bind]. rewrite sample_gene_lift, setitem_map.
  destruct (setitem child m (sample_gene lo hi r)) as [child'|e];
    [|reflexivity].
  cbn [rmap bind]. apply IH.
Qed.

Lemma offspring_lift (pop : list individual) (d : gen_draws) :
  Extended.offspring float_pow which pairs relays
                     (map Extended.Fin IscMin) (map lift_individual pop) d
  = rmap (fun c => (map Extended.Fin (fst c), Extended.Fin (snd c)))
         (offspring (relay_time_of which float_pow) pairs relays IscMin
                    pop d).
Proof.
  unfold Extended.offspring, offspring. rewrite !getitem_map.
  destruct (getitem pop (s1 d)) as [r1|e]; [|reflexivity].
  cbn [rmap bind].
  destruct (getitem pop (s2 d)) as [r2|e]; [|reflexivity].
  cbn [rmap bind]. cbv zeta. cbn [lift_individual Extended.genes].
  rewrite !firstn_map, !skipn_map, <- !map_app, !mutate_lift.
  destruct (mutate relays IscMin
                   (firstn (cp d) (genes r1) ++ skipn (cp d) (genes r2))
                   (mut1 d)) as [H1|e]; [|reflexivity].
  cbn [rmap bind].
  destruct (mutate relays IscMin
                   (firstn (cp d) (genes r2) ++ skipn (cp d) (genes r1))
                   (mut2 d)) as [H2|e]; [|reflexivity].
  cbn [rmap bind]. rewrite !fitness_lift.
  destruct (fitness (relay_time_of which float_pow) pairs relays H1)
    as [f1|e]; [|reflexivity].
  cbn [rmap bind].
  destruct (fitness (relay_time_of which float_pow) pairs relays H2)
    as [f2|e]; [|reflexivity].
  cbn [rmap bind Extended.xltb].
  destruct (ltb f2 f1); reflexivity.
Qed.

Lemma near_lift (child g : list Q) :
  List.length child = Nv relays -> List.length g = Nv relays ->
  Extended.near relays (map Extended.Fin child) (map Extended.Fin g)
  = near relays child g.
Proof.
  intros Hc Hg. unfold Extended.near, near.
  apply forallb_eq_in. intros j Hj. apply in_seq in Hj.
  rewrite (nth_map_lt Extended.Fin child j 0 Extended.NaN) by lia.
  rewrite (nth_map_lt Extended.Fin g j 0 Extended.NaN) by lia.
  reflexivity.
Qed.

Lemma duplicate_lift (child : list Q) (pop : list individual) :
  List.length child = Nv relays -> rows_sized relays pop ->
  Extended.duplicate which relays (map Extended.Fin child)
                     (map lift_individual pop)
  = duplicate (Extended.config_of which) relays child pop.
Proof.
  intros Hc Hp. unfold Extended.duplicate, duplicate.
  rewrite firstn_map.
  apply existsb_under_map. intros row Hrow.
  cbn [lift_individual Extended.genes]. apply near_lift; [exact Hc|].
  unfold rows_sized in Hp. rewrite Forall_forall in Hp. apply Hp.
  rewrite <- (firstn_skipn (GA_Ni (Extended.config_of which)) pop).
  apply in_or_app. left. exact Hrow.
Qed.

(** The better child has [Nv] genes, whatever the draws. *)
Lemma offspring_sized (rt : Q -> Q -> Q -> result Q)
      (pop : list individual) (d : gen_draws) (child : list Q) (f : Q) :
  rows_sized relays pop ->
  offspring rt pairs relays IscMin pop d = Ok (child, f) ->
  List.length child = Nv relays.
Proof.
  intros Hp H. unfold offspring in H.
  inv_bind H. inv_bind H. inv_bind H. inv_bind H. inv_bind H. inv_bind H.
  unfold rows_sized in Hp. rewrite Forall_forall in Hp.
  pose proof (Hp _ (getitem_In _ _ _ E)) as L1.
  pose proof (Hp _ (getitem_In _ _ _ E0)) as L2.
  pose proof (mutate_length relays IscMin _ _ _ E1) as M1.
  pose proof (mutate_length relays IscMin _ _ _ E2) as M2.
  rewrite length_app, length_firstn, length_skipn in M1, M2.
  destruct (ltb a4 a3); inv_ok H; lia.
Qed.

Lemma update_best_sized (pop : list individual) (best : individual)
      (n : nat) (st' : state) :
  rows_sized relays pop ->
  List.length (genes best) = Nv relays ->
  update_best pop best n = Ok st' -> state_sized relays st'.
Proof.
  intros Hp Hb H.
  destruct (update_best_spec _ _ _ _ H) as (top & Ht & HX & Hor).
  split; [rewrite HX; exact Hp|].
  destruct Hor as [(_ & -> & _) | (_ & -> & _)]; [|exact Hb].
  apply getitem_In in Ht. unfold rows_sized in Hp.
  rewrite Forall_forall in Hp. apply Hp. exact Ht.
Qed.

Lemma replaced_sized (pop : list individual) (child : list Q) (f : Q)
      (X1 : list individual) :
  rows_sized relays pop -> List.length child = Nv relays ->
  setlast pop {| genes := child; fit := f |} = Ok X1 ->
  rows_sized relays (sort_by_fit X1).
Proof.
  intros Hp Hc H. apply sort_by_fit_Forall.
  destruct pop as [|a pop]; [discriminate|].
  rewrite (setlast_spec (a :: pop) (last pop a) _ eq_refl) in H.
  inv_ok H. apply Forall_app. split.
  - change (Forall (fun r => List.length (genes r) = Nv relays)
                   (removelast (a :: pop))).
    apply removelast_Forall. exact Hp.
  - constructor; [exact Hc | constructor].
Qed.

End Side.

Lemma generation_of_sized (float_pow : Q -> Q -> option Q)
      (which : Extended.script) (pairs : list pair) (relays : list string)
      (IscMin : list Q) (st : state) (d : gen_draws) (st' : state) :
  List.length IscMin = nR relays ->
  state_sized relays st ->
  generation_of which float_pow pairs relays IscMin st d = Ok st' ->
  state_sized relays st'.
Proof.
  intros HI [Hp Hb] H. unfold generation_of in H.
  destruct which.
  - unfold GaOptimizationFast.generation in H.
    inv_bind H. inv_bind H. inv_bind H. destruct a as [child f].
    cbn [fst snd] in *.
    assert (Hc : List.length child = Nv relays)
      by (eapply offspring_sized; eassumption).
    eapply update_best_sized; [| exact Hb | exact H].
    destruct (ltb f (fit a0)).
    + destruct (duplicate (Extended.config_of Extended.Fast) relays child
                          (X st)).
      * inv_ok E1. apply sort_by_fit_Forall. exact Hp.
      * eapply replaced_sized; eassumption.
    + inv_ok E1. apply sort_by_fit_Forall. exact Hp.
  - unfold OptimizeAllScenarios.generation in H.
    inv_bind H. inv_bind H. destruct a as [child f]. cbn [fst snd] in *.
    assert (Hc : List.length child = Nv relays)
      by (eapply offspring_sized; eassumption).
    destruct (ltb f (fit a0)); [|inv_ok H; split; assumption].
    destruct (duplicate (Extended.config_of Extended.Full) relays child
                        (X st)); [inv_ok H; split; assumption|].
    inv_bind H.
    eapply update_best_sized; [| exact Hb | exact H].
    eapply replaced_sized; eassumption.
Qed.

Lemma generation_lift (float_pow : Q -> Q -> option Q)
      (which : Extended.script) (pairs : list pair) (relays : list string)
      (IscMin : list Q) (st : state) (d : gen_draws) :
  List.length IscMin = nR relays ->
  rows_sized relays (X st) ->
  Extended.generation float_pow which pairs relays
                      (map Extended.Fin IscMin) (lift_state st) d
  = rmap lift_state
         (generation_of which float_pow pairs relays IscMin st d).
Proof.
  intros HI Hp. unfold Extended.generation, generation_of.
  cbn [lift_state Extended.X Extended.X_best Extended.stall].
  rewrite offspring_lift, getlast_map.
  destruct which;
    unfold GaOptimizationFast.generation, OptimizeAllScenarios.generation;
    unfold relay_time_of;
    match goal with
    | |- context [offspring ?rt pairs relays IscMin (X st) d] =>
        destruct (offspring rt pairs relays IscMin (X st) d)
          as [[child f]|e] eqn:Eo; [|reflexivity];
        assert (Hc : List.length child = Nv relays)
          by (eapply offspring_sized; eassumption)
    end;
    cbn [rmap bind fst snd];
    (destruct (getlast (X st)) as [worst|e]; [|reflexivity]);
    cbn [rmap bind lift_individual Extended.fit Extended.xltb];
    change {| Extended.genes := map Extended.Fin child;
              Extended.fit := Extended.Fin f |}
      with (lift_individual {| genes := child; fit := f |});
    rewrite setlast_map.
  - rewrite (duplicate_lift _ relays IscMin HI child (X st) Hc Hp).
    destruct (ltb f (fit worst)).
    + destruct (duplicate (Extended.config_of Extended.Fast) relays child
                          (X st)).
      * cbn [bind]. rewrite sort_by_fit_lift. apply update_best_lift.
      * destruct (setlast (X st) {| genes := child; fit := f |})
          as [X1|e]; [|reflexivity].
        cbn [rmap bind]. rewrite sort_by_fit_lift. apply update_best_lift.
    + cbn [bind]. rewrite sort_by_fit_lift. apply update_best_lift.
  - rewrite (duplicate_lift _ relays IscMin HI child (X st) Hc Hp).
    destruct (ltb f (fit worst)); [|reflexivity].
    destruct (duplicate (Extended.config_of Extended.Full) relays child
                        (X st)); [reflexivity|].
    destruct (setlast (X st) {| genes := child; fit := f |})
      as [X1|e]; [|reflexivity].
    cbn [rmap bind]. rewrite sort_by_fit_lift. apply update_best_lift.
Qed.

Lemma evolve_lift (float_pow : Q -> Q -> option Q)
      (which : Extended.script) (pairs : list pair) (relays : list string)
      (IscMin : list Q) (rnd : rng) (fuel : nat) :
  List.length IscMin = nR relays ->
  forall gen st,
    state_sized relays st ->
    Extended.evolve float_pow which pairs relays (map Extended.Fin IscMin)
                    rnd fuel gen (lift_state st)
    = rmap (fun r => (fst r, lift_state (snd r)))
           (evolve_of which float_pow pairs relays IscMin rnd fuel gen st).
Proof.
  intro HI. induction fuel as [|fuel IH]; intros gen st Hs.
  - destruct which; reflexivity.
  - cbn [Extended.evolve].
    rewrite (generation_lift float_pow which pairs relays IscMin st _ HI
                             (proj1 Hs)).
    destruct (generation_of which float_pow pairs relays IscMin st
                            (gen_d rnd gen)) as [st'|e] eqn:Eg.
    2:{ unfold generation_of in Eg. unfold evolve_of.
        destruct which; cbn [GaOptimizationFast.evolve
                               OptimizeAllScenarios.evolve];
          rewrite Eg; reflexivity. }
    pose proof (generation_of_sized _ _ _ _ _ _ _ _ HI Hs Eg) as Hs'.
    specialize (IH (S gen) st' Hs').
    cbn [rmap bind lift_state Extended.X_best lift_individual
         Extended.fit Extended.xeqb Extended.stall].
    unfold generation_of in Eg. unfold evolve_of in *.
    destruct which; cbn [GaOptimizationFast.evolve
                           OptimizeAllScenarios.evolve];
      rewrite Eg; cbn [bind];
      (destruct (Qeq_bool (fit (X_best st')) 0.0); [reflexivity|]);
      match goal with
      | |- context [(?a <=? ?b)%nat] => destruct (a <=? b)%nat
      end; try reflexivity; exact IH.
Qed.

Lemma evolve_of_sized (float_pow : Q -> Q -> option Q)
      (which : Extended.script) (pairs : list pair) (relays : list string)
      (IscMin : list Q) (rnd : rng) (fuel : nat) :
  List.length IscMin = nR relays ->
  forall gen st g st',
    state_sized relays st ->
    evolve_of which float_pow pairs relays IscMin rnd fuel gen st
    = Ok (g, st') ->
    state_sized relays st'.
Proof.
  intro HI. induction fuel as [|fuel IH]; intros gen st g st' Hs H.
  - destruct which; cbn in H; inv_ok H; exact Hs.
  - assert (Hstep : exists s1,
               generation_of which float_pow pairs relays IscMin st
                             (gen_d rnd gen) = Ok s1
               /\ ((g, st') = (gen, s1)
                   \/ evolve_of which float_pow pairs relays IscMin rnd
                                fuel (S gen) s1 = Ok (g, st'))).
    { unfold evolve_of, generation_of in *.
      destruct which; cbn [GaOptimizationFast.evolve
                             OptimizeAllScenarios.evolve] in H;
        inv_bind H; exists a; (split; [exact E|]);
        (destruct (Qeq_bool (fit (X_best a)) 0.0);
         [inv_ok H; left; reflexivity|]);
        match type of H with
        | context [(?a <=? ?b)%nat] => destruct (a <=? b)%nat
        end; [inv_ok H; left; reflexivity | right; exact H
             | inv_ok H; left; reflexivity | right; exact H]. }
    destruct Hstep as (s1 & Eg & Hor).
    pose proof (generation_of_sized _ _ _ _ _ _ _ _ HI Hs Eg) as Hs1.
    destruct Hor as [Heq | Hrec].
    + inversion Heq; subst. exact Hs1.
    + exact (IH _ _ _ _ Hs1 Hrec).
Qed.

Lemma initial_state_sized (relay_time : Q -> Q -> Q -> result Q)
      (cfg : ga_config) (pairs : list pair) (relays : list string)
      (IscMin : list Q) (rnd : rng) (st0 : state) :
  initial_state relay_time cfg pairs relays IscMin rnd = Ok st0 ->
  state_sized relays st0.
Proof.
  intro H.
  destruct (initial_state_inv cfg pairs relays IscMin _ rnd st0 H)
    as (rows & Hrows & HX & Hfirst & _).
  assert (Hp : rows_sized relays (X st0)).
  { rewrite HX. apply sort_by_fit_Forall. unfold rows_sized.
    apply initial_rows_genes in Hrows.
    rewrite Forall_forall. intros r Hr.
    apply (in_map genes) in Hr. rewrite Hrows in Hr.
    apply in_map_iff in Hr. destruct Hr as (i & <- & _).
    apply random_individual_length. }
  split; [exact Hp|].
  apply getitem_In in Hfirst. unfold rows_sized in Hp.
  rewrite Forall_forall in Hp. apply Hp. exact Hfirst.
Qed.

Lemma isc_loop_length (relays : list string) (ps : list pair) :
  forall isc isc',
    Extended.isc_loop relays ps isc = Ok isc' ->
    List.length isc' = List.length isc.
Proof.
  induction ps as [|p ps IH]; intros isc isc' H; simpl in H.
  - inv_ok H. reflexivity.
  - inv_bind H. inv_bind H. inv_bind H. inv_bind H. inv_bind H.
    inv_bind H. rewrite (IH _ _ H).
    rewrite (setitem_length _ _ _ _ E4), (setitem_length _ _ _ _ E2).
    reflexivity.
Qed.

Lemma dict_set_finite
      (acc : list (string * (Extended.xfloat * Extended.xfloat)))
      (k : string) (t p : Q) :
  settings_finite acc ->
  settings_finite (dict_set acc k (Extended.Fin t, Extended.Fin p)).
Proof.
  unfold settings_finite.
  induction acc as [|[k' v'] acc IH]; intro H; simpl.
  - constructor; [simpl; eauto | constructor].
  - inversion H; subst. destruct (String.eqb k' k).
    + constructor; [simpl; eauto | assumption].
    + constructor; [assumption | apply IH; assumption].
Qed.

Lemma extract_finite (relays : list string) (g : list Q) :
  List.length g = Nv relays ->
  forall rs acc,
    Forall (fun r => (r < nR relays)%nat) rs ->
    settings_finite acc ->
    exists out,
      Extended.extract relays (map Extended.Fin g) rs acc = Ok out
      /\ settings_finite out.
Proof.
  intro Hg. unfold Nv in Hg.
  induction rs as [|r rs IH]; intros acc Hrs Hacc.
  - exists acc. split; [reflexivity | exact Hacc].
  - inversion Hrs as [|? ? Hr Hrs']; subst. cbn [Extended.extract].
    destruct (@getitem_total _ relays r Hr) as [name ->].
    rewrite firstn_map, skipn_map, !getitem_map.
    destruct (@getitem_total _ (firstn (nR relays) g) r) as [t ->].
    { rewrite length_firstn. lia. }
    destruct (@getitem_total _ (skipn (nR relays) g) r) as [p ->].
    { rewrite length_skipn. lia. }
    cbn [bind rmap Extended.xround5].
    apply IH; [exact Hrs'|]. apply dict_set_finite. exact Hacc.
Qed.

Lemma genetic_algorithm_lift
      (float_pow : Q -> Q -> option Q) (which : Extended.script)
      (scenario : scenario_data) (rnd : rng) (IscMin : list Q) :
  filter nonblank (data_relays scenario) <> [] ->
  Extended.isc_loop (filter nonblank (data_relays scenario))
                    (data_pairs scenario)
                    (repeat Extended.PosInf
                            (nR (filter nonblank (data_relays scenario))))
  = Ok (map Extended.Fin IscMin) ->
  match search_of which float_pow (data_pairs scenario)
                  (filter nonblank (data_relays scenario)) IscMin rnd with
  | Ok (g, st) =>
      List.length (genes (X_best st))
      = Nv (filter nonblank (data_relays scenario))
      /\ Extended.genetic_algorithm float_pow which scenario rnd
         = (out <- Extended.extract
                     (filter nonblank (data_relays scenario))
                     (map Extended.Fin (genes (X_best st)))
                     (seq 0 (nR (filter nonblank (data_relays scenario))))
                     [] ;;
            Ok (Extended.Finished g (lift_state st) out))
  | Raise e =>
      Extended.genetic_algorithm float_pow which scenario rnd = Raise e
  end.
Proof.
  intros Hne Hisc. unfold Extended.genetic_algorithm. cbv zeta.
  set (relays := filter nonblank (data_relays scenario)) in *.
  set (pairs := data_pairs scenario) in *.
  assert (HI : List.length IscMin = nR relays).
  { apply isc_loop_length in Hisc.
    rewrite length_map, repeat_length in Hisc. exact Hisc. }
  destruct (Nat.eqb_spec (nR relays) 0) as [Hz | _].
  { destruct relays; [congruence | discriminate]. }
  rewrite Hisc. cbn [bind].
  rewrite initial_state_lift by exact HI.
  assert (Hsearch :
            search_of which float_pow pairs relays IscMin rnd
            = (st0 <- initial_state (relay_time_of which float_pow)
                                    (Extended.config_of which) pairs relays
                                    IscMin rnd ;;
               evolve_of which float_pow pairs relays IscMin rnd
                         (GA_maxGen (Extended.config_of which)) 1 st0)).
  { unfold search_of, evolve_of, relay_time_of,
      GaOptimizationFast.search, OptimizeAllScenarios.search.
    destruct which; reflexivity. }
  rewrite Hsearch.
  destruct (initial_state (relay_time_of which float_pow)
                          (Extended.config_of which) pairs relays IscMin
                          rnd) as [st0|e] eqn:E0; [|reflexivity].
  cbn [rmap bind].
  pose proof (initial_state_sized _ _ _ _ _ _ _ E0) as Hs0.
  rewrite (evolve_lift float_pow which pairs relays IscMin rnd _ HI _ _ Hs0).
  destruct (evolve_of which float_pow pairs relays IscMin rnd
                      (GA_maxGen (Extended.config_of which)) 1 st0)
    as [[g st]|e] eqn:Ev; [|reflexivity].
  cbn [rmap bind fst snd lift_state Extended.X_best lift_individual
       Extended.genes].
  destruct (evolve_of_sized _ _ _ _ _ _ _ HI _ _ _ _ Hs0 Ev) as [_ Hb].
  split; [exact Hb | reflexivity].
Qed.

Lemma search_fast_returns
      (float_pow : Q -> Q -> option Q) (cfg : ga_config)
      (pairs : list pair) (relays : list string) (IscMin : list Q)
      (rnd : rng) :
  pairs_known pairs relays ->
  List.length IscMin = nR relays ->
  rng_ok cfg relays rnd ->
  exists g st,
    GaOptimizationFast.search float_pow cfg pairs relays IscMin rnd
    = Ok (g, st).
Proof.
  intros Hk HI Hrng.
  assert (Hpos : (0 < GA_Ni cfg)%nat).
  { destruct Hrng as [_ Hd]. destruct (Hd 0%nat) as (Hs1 & _). lia. }
  destruct (initial_state_total
              (GaOptimizationFast.relay_time float_pow) cfg pairs relays
              IscMin rnd (relay_time_fast_returns float_pow) Hk Hpos)
    as (st0 & H0 & Hpop0 & _).
  destruct (evolve_fast_invariant float_pow cfg pairs relays IscMin rnd
              Hk HI Hrng (fun _ => True) (fun _ _ _ _ _ _ => I)
              (GA_maxGen cfg) 1%nat st0 Hpop0 I)
    as (g & st & He & _).
  exists g, st. unfold GaOptimizationFast.search. rewrite H0.
  cbn [bind]. exact He.
Qed.

(** X20.  When the loop over the pairs leaves a finite minimum fault
    current for every relay, the optimisation function of either script
    computes with finite numbers only: it goes through the generations
    of the search over the rationals, raises what that search raises,
    and otherwise returns after the same number of generations, with the
    same population and best row, a dictionary whose time dials and
    pickups are all finite. *)
Theorem finite_currents_keep_the_search_finite
        (float_pow : Q -> Q -> option Q) (which : Extended.script)
        (scenario : scenario_data) (rnd : rng) (IscMin : list Q) :
  filter nonblank (data_relays scenario) <> [] ->
  Extended.isc_loop (filter nonblank (data_relays scenario))
                    (data_pairs scenario)
                    (repeat Extended.PosInf
                            (nR (filter nonblank (data_relays scenario))))
  = Ok (map Extended.Fin IscMin) ->
  match search_of which float_pow (data_pairs scenario)
                  (filter nonblank (data_relays scenario)) IscMin rnd with
  | Ok (g, st) =>
      exists out,
        Extended.genetic_algorithm float_pow which scenario rnd
        = Ok (Extended.Finished g (lift_state st) out)
        /\ settings_finite out
  | Raise e =>
      Extended.genetic_algorithm float_pow which scenario rnd = Raise e
  end.
Proof.
  intros Hne Hisc.
  pose proof (genetic_algorithm_lift float_pow which scenario rnd IscMin
                                     Hne Hisc) as H.
  destruct (search_of which float_pow (data_pairs scenario)
                      (filter nonblank (data_relays scenario)) IscMin rnd)
    as [[g st]|e]; [|exact H].
  destruct H as [Hb ->].
  destruct (extract_finite (filter nonblank (data_relays scenario))
                           (genes (X_best st)) Hb
                           (seq 0 (nR (filter nonblank
                                              (data_relays scenario)))) [])
    as (out & -> & Hout).
  { apply Forall_forall. intros r Hr. apply in_seq in Hr. lia. }
  { constructor. }
  exists out. split; [reflexivity | exact Hout].
Qed.

Lemma finite_currents_keep_the_search_finite_witness :
  match search_of Extended.Fast Example.linear_pow Example.pairs
                  (filter nonblank Example.relays) Example.IscMin
                  Example.varied_rng with
  | Ok (g, st) =>
      exists out,
        Extended.genetic_algorithm
          Example.linear_pow Extended.Fast
          {| data_pairs := Example.pairs; data_relays := Example.relays |}
          Example.varied_rng
        = Ok (Extended.Finished g (lift_state st) out)
        /\ settings_finite out
  | Raise e =>
      Extended.genetic_algorithm
        Example.linear_pow Extended.Fast
        {| data_pairs := Example.pairs; data_relays := Example.relays |}
        Example.varied_rng = Raise e
  end.
Proof.
  apply (finite_currents_keep_the_search_finite
           Example.linear_pow Extended.Fast
           {| data_pairs := Example.pairs; data_relays := Example.relays |}
           Example.varied_rng Example.IscMin).
  - discriminate.
  - vm_compute. reflexivity.
Defined.

(** X21.  The fast script cannot fail on a sound scenario.  When the
    relay names are distinct and none is blank, every pair names relays
    of the list, every relay is named by some pair, the fault currents
    are positive and the draws are what the random module gives, the
    optimisation function raises nothing and returns a dictionary with
    one entry per relay, in the order of the relay list, all of whose
    values are finite; the batch loop then counts the scenario as a
    success when [validate_scenario_data] accepts it, and skips it
    otherwise. *)
Theorem fast_script_succeeds_on_sound_scenario
        (float_pow : Q -> Q -> option Q) (scenario : scenario_data)
        (rnd : rng) :
  NoDup (data_relays scenario) ->
  filter nonblank (data_relays scenario) = data_relays scenario ->
  data_relays scenario <> [] ->
  pairs_known (data_pairs scenario) (data_relays scenario) ->
  currents_positive (data_pairs scenario) ->
  (forall r, In r (data_relays scenario) ->
             exists p, In p (data_pairs scenario)
                       /\ (main_relay p = r \/ backup_relay p = r)) ->
  rng_ok fast_config (data_relays scenario) rnd ->
  exists g st out,
    Extended.genetic_algorithm float_pow Extended.Fast scenario rnd
    = Ok (Extended.Finished g st out)
    /\ map fst out = data_relays scenario
    /\ settings_finite out
    /\ Extended.optimize_scenario float_pow Extended.Fast scenario rnd
       = if Extended.validate_scenario_data scenario
         then Extended.Success out else Extended.Skipped.
Proof.
  intros Hnd Hf Hne Hk Hpos Hcov Hrng.
  destruct (isc_loop_all_finite _ _ Hnd Hk Hpos Hcov) as (IscMin & Hisc & _).
  assert (HI : List.length IscMin = nR (data_relays scenario)).
  { pose proof (isc_loop_length _ _ _ _ Hisc) as HI.
    rewrite length_map, repeat_length in HI. exact HI. }
  pose proof (genetic_algorithm_lift float_pow Extended.Fast scenario rnd
                                     IscMin) as H.
  rewrite Hf in H. specialize (H Hne Hisc).
  destruct (search_fast_returns float_pow fast_config
              (data_pairs scenario) (data_relays scenario) IscMin rnd
              Hk HI Hrng) as (g & st & Hs).
  unfold search_of in H. cbn [Extended.config_of] in H. rewrite Hs in H.
  destruct H as [Hb Hga].
  destruct (extract_finite (data_relays scenario) (genes (X_best st)) Hb
                           (seq 0 (nR (data_relays scenario))) [])
    as (out & Hout & Hfin).
  { apply Forall_forall. intros r Hr. apply in_seq in Hr. lia. }
  { constructor. }
  assert (Hkeys : map fst out = data_relays scenario).
  { destruct (extract_spec (data_relays scenario)
                (map Extended.Fin (genes (X_best st))) Hnd
                (eq_trans (length_map _ _) Hb)
                (nR (data_relays scenario)) 0%nat [])
      as (out' & Hout' & Hkeys & _);
      [reflexivity | reflexivity | intros i name Hi; lia |].
    rewrite Hout in Hout'. injection Hout' as <-. exact Hkeys. }
  rewrite Hout in Hga. cbn [bind] in Hga.
  exists g, (lift_state st), out.
  split; [exact Hga|]. split; [exact Hkeys|]. split; [exact Hfin|].
  unfold Extended.optimize_scenario. cbn [Extended.admitted].
  destruct (Extended.validate_scenario_data scenario); [|reflexivity].
  cbn [negb]. rewrite Hga. cbn [Extended.returned].
  destruct out as [|o out]; [|reflexivity].
  exfalso. apply Hne. rewrite <- Hkeys. reflexivity.
Qed.

Lemma fast_script_succeeds_on_sound_scenario_witness :
  exists g st out,
    Extended.genetic_algorithm
      Example.linear_pow Extended.Fast
      {| data_pairs := Example.pairs; data_relays := Example.relays |}
      Example.spread_rng
    = Ok (Extended.Finished g st out)
    /\ map fst out = Example.relays
    /\ settings_finite out
    /\ Extended.optimize_scenario
         Example.linear_pow Extended.Fast
         {| data_pairs := Example.pairs; data_relays := Example.relays |}
         Example.spread_rng
       = if Extended.validate_scenario_data
              {| data_pairs := Example.pairs;
                 data_relays := Example.relays |}
         then Extended.Success out else Extended.Skipped.
Proof.
  apply (fast_script_succeeds_on_sound_scenario
           Example.linear_pow
           {| data_pairs := Example.pairs; data_relays := Example.relays |}
           Example.spread_rng).
  - constructor; [intros [H | []]; discriminate|].
    constructor; [intros []|constructor].
  - reflexivity.
  - discriminate.
  - exact example_pairs_known.
  - exact example_currents_positive.
  - intros r [<- | [<- | []]];
      (eexists; split; [left; reflexivity|]); cbn; auto.
  - exact example_spread_rng_ok.
Defined.
